(** * eacc-ts: the client SDK of the Effective Acceleration marketplace

    A shallow embedding of the TypeScript sources (client.ts, utils/crypto.ts,
    utils/ipfs.ts, utils/wallet.ts, constants/addresses.ts and the two contract
    wrappers) together with the fragment of the ethers library they call, and
    the properties of the natural-language specification stated over it. *)

From Stdlib Require Import ZArith List String Ascii Lia Bool.
From stdpp Require Import base option list gmap strings pretty.
Import ListNotations.
Local Open Scope Z_scope.

(** ** Bytes

    A [Uint8Array] is a list of integers in [0, 256). *)

Definition bytes := list Z.

Definition is_byte (b : Z) : Prop := 0 <= b < 256.

(** ** Keccak-256, as computed by [ethers.keccak256] *)

Module Keccak.

Definition mask64 : Z := Z.ones 64.

Definition rotl64 (x n : Z) : Z :=
  Z.land (Z.lor (Z.shiftl x n) (Z.shiftr x (64 - n))) mask64.

Definition round_constants : list Z :=
  [ 0x0000000000000001; 0x0000000000008082; 0x800000000000808A;
    0x8000000080008000; 0x000000000000808B; 0x0000000080000001;
    0x8000000080008081; 0x8000000000008009; 0x000000000000008A;
    0x0000000000000088; 0x0000000080008009; 0x000000008000000A;
    0x000000008000808B; 0x800000000000008B; 0x8000000000008089;
    0x8000000000008003; 0x8000000000008002; 0x8000000000000080;
    0x000000000000800A; 0x800000008000000A; 0x8000000080008081;
    0x8000000000008080; 0x0000000080000001; 0x8000000080008008 ].

(** Rotation offsets, lane (x, y) at index [x + 5 * y]. *)
Definition rotation_offsets : list Z :=
  [  0;  1; 62; 28; 27;
    36; 44;  6; 55; 20;
     3; 10; 43; 25; 39;
    41; 45; 15; 21;  8;
    18;  2; 61; 56; 14 ].

Definition lane (st : list Z) (x y : nat) : Z :=
  nth (x mod 5 + 5 * (y mod 5))%nat st 0.

Definition lanes (f : nat -> nat -> Z) : list Z :=
  map (fun i => f (i mod 5)%nat (i / 5)%nat) (seq 0 25).

Definition theta (st : list Z) : list Z :=
  let c x := fold_left Z.lxor (map (lane st x) (seq 0 5)) 0 in
  let d x := Z.lxor (c (x + 4)%nat) (rotl64 (c (x + 1)%nat) 1) in
  lanes (fun x y => Z.lxor (lane st x y) (d x)).

Definition rho_pi (st : list Z) : list Z :=
  lanes (fun X Y =>
    let x := ((X + 3 * Y) mod 5)%nat in
    rotl64 (lane st x X) (nth (x + 5 * X)%nat rotation_offsets 0)).

Definition chi (st : list Z) : list Z :=
  lanes (fun x y =>
    Z.lxor (lane st x y)
      (Z.land (Z.lxor (lane st (x + 1) y) mask64) (lane st (x + 2) y))).

Definition iota (rc : Z) (st : list Z) : list Z :=
  match st with
  | [] => []
  | a :: rest => Z.lxor a rc :: rest
  end.

Definition round (st : list Z) (rc : Z) : list Z :=
  iota rc (chi (rho_pi (theta st))).

Definition keccak_f (st : list Z) : list Z :=
  fold_left round round_constants st.

(** The rate of Keccak-256 is 136 bytes (17 lanes). *)
Definition rate : nat := 136.

Definition pad (msg : bytes) : bytes :=
  let p := (rate - length msg mod rate)%nat in
  match p with
  | 1%nat => msg ++ [0x81]
  | _ => msg ++ [0x01] ++ repeat 0 (p - 2) ++ [0x80]
  end.

Fixpoint le_lane (bs : bytes) : Z :=
  match bs with
  | [] => 0
  | b :: rest => b + 256 * le_lane rest
  end.

Fixpoint lane_bytes (n : nat) (l : Z) : bytes :=
  match n with
  | O => []
  | S n' => (l mod 256) :: lane_bytes n' (l / 256)
  end.

Fixpoint block_lanes (n : nat) (blk : bytes) : list Z :=
  match n with
  | O => []
  | S n' => le_lane (firstn 8 blk) :: block_lanes n' (skipn 8 blk)
  end.

Definition absorb_block (st : list Z) (blk : bytes) : list Z :=
  let ls := block_lanes 17 blk in
  keccak_f (map (fun i => Z.lxor (nth i st 0) (nth i ls 0)) (seq 0 25)).

Fixpoint absorb (n : nat) (st : list Z) (msg : bytes) : list Z :=
  match n with
  | O => st
  | S n' => absorb n' (absorb_block st (firstn rate msg)) (skipn rate msg)
  end.

Definition keccak256 (msg : bytes) : bytes :=
  let padded := pad msg in
  let st := absorb (length padded / rate) (repeat 0 25%nat) padded in
  flat_map (lane_bytes 8) (firstn 4 st).

End Keccak.

(** ** JavaScript values

    A JavaScript string is a sequence of UTF-16 code units.  The metalanguage
    [string] is kept for method names and error messages, which the code never
    inspects. *)

Definition jsstring := list Z.

Definition js (s : string) : jsstring :=
  map (fun c => Z.of_N (N_of_ascii c)) (list_ascii_of_string s).

(** [a < b] on two strings: the comparison of their code units, a proper
    prefix being smaller.  It is the order of [Array.prototype.sort] without a
    comparison function. *)
Fixpoint string_lt (a b : jsstring) : bool :=
  match a, b with
  | _, [] => false
  | [], _ :: _ => true
  | x :: a', y :: b' =>
      if x <? y then true else if y <? x then false else string_lt a' b'
  end.

Record Error := mkError { err_name : string; err_message : string }.

Definition newError (msg : string) : Error := mkError "Error" msg.
Definition newTypeError (msg : string) : Error := mkError "TypeError" msg.
Definition newRangeError (msg : string) : Error := mkError "RangeError" msg.

(** The completion of a synchronous call: a value or a thrown exception. *)
Inductive Completion (A : Type) : Type :=
| Normal (a : A)
| Throw (e : Error).
Arguments Normal {A} a.
Arguments Throw {A} e.

Definition cbind {A B} (c : Completion A) (f : A -> Completion B) : Completion B :=
  match c with
  | Normal a => f a
  | Throw e => Throw e
  end.

Definition try_catch {A} (body : Completion A) (handler : Error -> Completion A)
  : Completion A :=
  match body with
  | Normal a => Normal a
  | Throw e => handler e
  end.

Declare Scope completion_scope.
Delimit Scope completion_scope with completion.
Notation "'let*' x ':=' c 'in' k" := (cbind c (fun x => k))
  (at level 10, x name, c at level 100, k at level 200) : completion_scope.
Local Open Scope completion_scope.

(** [BigNumberish]: a number (integer-valued doubles only; the other doubles
    are rejected by [getBigInt] before anything is computed), a bigint or a
    string. *)
Inductive BigNumberish : Type :=
| BNumber (n : Z)
| BBigInt (n : Z)
| BString (s : jsstring).

(** ** The fragment of ethers v6 used by the SDK

    Messages keep the leading text of the library's error; the decoration
    ethers appends (argument name, value, code, version) is dropped. *)

Module Ethers.

Definition hexdigit (n : Z) : Z := if n <? 10 then 48 + n else 87 + n.

Definition hexlify (data : bytes) : jsstring :=
  js "0x" ++ flat_map (fun b => [hexdigit (b / 16); hexdigit (b mod 16)]) data.

Definition digit_value (c : Z) : option Z :=
  if (48 <=? c) && (c <=? 57) then Some (c - 48)
  else if (97 <=? c) && (c <=? 122) then Some (c - 87)
  else if (65 <=? c) && (c <=? 90) then Some (c - 55)
  else None.

Definition hex_value (c : Z) : option Z :=
  match digit_value c with
  | Some d => if d <? 16 then Some d else None
  | None => None
  end.

Fixpoint hex_pairs (s : jsstring) : option bytes :=
  match s with
  | [] => Some []
  | h :: l :: rest =>
      match hex_value h, hex_value l, hex_pairs rest with
      | Some a, Some b, Some bs => Some (a * 16 + b :: bs)
      | _, _, _ => None
      end
  | _ => None
  end.

(** [getBytes] on a string: it has to match [/^0x(?:[0-9a-f][0-9a-f])*$/i]. *)
Definition getBytes (value : jsstring) : Completion bytes :=
  match value with
  | 48 :: x :: rest =>
      if (x =? 120) || (x =? 88) then
        match hex_pairs rest with
        | Some bs => Normal bs
        | None => Throw (newTypeError "invalid BytesLike value")
        end
      else Throw (newTypeError "invalid BytesLike value")
  | _ => Throw (newTypeError "invalid BytesLike value")
  end.

Definition keccak256 (data : bytes) : jsstring :=
  hexlify (Keccak.keccak256 data).

(** *** Strings and UTF-8 *)

Fixpoint toUtf8Bytes (str : jsstring) : Completion bytes :=
  match str with
  | [] => Normal []
  | c :: rest =>
      if c <? 0x80 then
        let* r := toUtf8Bytes rest in Normal (c :: r)
      else if c <? 0x800 then
        let* r := toUtf8Bytes rest in
        Normal (Z.lor (Z.shiftr c 6) 0xc0 :: Z.lor (Z.land c 0x3f) 0x80 :: r)
      else if Z.land c 0xfc00 =? 0xd800 then
        match rest with
        | c2 :: rest' =>
            if Z.land c2 0xfc00 =? 0xdc00 then
              let pair := 0x10000 + Z.shiftl (Z.land c 0x03ff) 10 + Z.land c2 0x03ff in
              let* r := toUtf8Bytes rest' in
              Normal (Z.lor (Z.shiftr pair 18) 0xf0
                      :: Z.lor (Z.land (Z.shiftr pair 12) 0x3f) 0x80
                      :: Z.lor (Z.land (Z.shiftr pair 6) 0x3f) 0x80
                      :: Z.lor (Z.land pair 0x3f) 0x80 :: r)
            else Throw (newTypeError "invalid surrogate pair")
        | [] => Throw (newTypeError "invalid surrogate pair")
        end
      else
        let* r := toUtf8Bytes rest in
        Normal (Z.lor (Z.shiftr c 12) 0xe0
                :: Z.lor (Z.land (Z.shiftr c 6) 0x3f) 0x80
                :: Z.lor (Z.land c 0x3f) 0x80 :: r)
  end.

Definition utf8_error (reason : string) : Error :=
  newTypeError ("invalid codepoint; " ++ reason)%string.

(** The checks made once a multi-byte sequence has been read. *)
Definition check_codepoint (res overlongMask : Z) (k : Completion (list Z))
  : Completion (list Z) :=
  if 0x10ffff <? res then Throw (utf8_error "OUT_OF_RANGE")
  else if (0xd800 <=? res) && (res <=? 0xdfff) then Throw (utf8_error "UTF16_SURROGATE")
  else if res <=? overlongMask then Throw (utf8_error "OVERLONG")
  else let* r := k in Normal (res :: r).

Definition is_continuation (b : Z) : bool := Z.land b 0xc0 =? 0x80.

Definition continue (res b : Z) : Z := Z.lor (Z.shiftl res 6) (Z.land b 0x3f).

(** [getUtf8CodePoints] with the default error function, which throws. *)
Fixpoint getUtf8CodePoints (data : bytes) : Completion (list Z) :=
  match data with
  | [] => Normal []
  | c :: rest =>
      if Z.shiftr c 7 =? 0 then
        let* r := getUtf8CodePoints rest in Normal (c :: r)
      else if Z.land c 0xe0 =? 0xc0 then
        match rest with
        | b1 :: r1 =>
            if is_continuation b1 then
              check_codepoint (continue (Z.land c 0x1f) b1) 0x7f (getUtf8CodePoints r1)
            else Throw (utf8_error "MISSING_CONTINUE")
        | _ => Throw (utf8_error "OVERRUN")
        end
      else if Z.land c 0xf0 =? 0xe0 then
        match rest with
        | b1 :: b2 :: r2 =>
            if is_continuation b1 && is_continuation b2 then
              check_codepoint (continue (continue (Z.land c 0x0f) b1) b2) 0x7ff
                (getUtf8CodePoints r2)
            else Throw (utf8_error "MISSING_CONTINUE")
        | _ => Throw (utf8_error "OVERRUN")
        end
      else if Z.land c 0xf8 =? 0xf0 then
        match rest with
        | b1 :: b2 :: b3 :: r3 =>
            if is_continuation b1 && is_continuation b2 && is_continuation b3 then
              check_codepoint
                (continue (continue (continue (Z.land c 0x07) b1) b2) b3) 0xffff
                (getUtf8CodePoints r3)
            else Throw (utf8_error "MISSING_CONTINUE")
        | _ => Throw (utf8_error "OVERRUN")
        end
      else if Z.land c 0xc0 =? 0x80 then Throw (utf8_error "UNEXPECTED_CONTINUE")
      else Throw (utf8_error "BAD_PREFIX")
  end.

Definition fromCodePoint (cp : Z) : jsstring :=
  if cp <=? 0xffff then [cp]
  else
    let cp' := cp - 0x10000 in
    [Z.land (Z.shiftr cp' 10) 0x3ff + 0xd800; Z.land cp' 0x3ff + 0xdc00].

Definition toUtf8String (data : bytes) : Completion jsstring :=
  let* cps := getUtf8CodePoints data in
  Normal (flat_map fromCodePoint cps).

(** *** Numbers *)

(** White space and line terminators, trimmed by [BigInt(string)]. *)
Definition is_white_space (c : Z) : bool :=
  (c =? 0x09) || (c =? 0x0a) || (c =? 0x0b) || (c =? 0x0c) || (c =? 0x0d)
  || (c =? 0x20) || (c =? 0xa0) || (c =? 0x1680)
  || ((0x2000 <=? c) && (c <=? 0x200a))
  || (c =? 0x2028) || (c =? 0x2029) || (c =? 0x202f) || (c =? 0x205f)
  || (c =? 0x3000) || (c =? 0xfeff).

Fixpoint trim_start (s : jsstring) : jsstring :=
  match s with
  | c :: rest => if is_white_space c then trim_start rest else s
  | [] => []
  end.

Definition trim (s : jsstring) : jsstring :=
  rev (trim_start (rev (trim_start s))).

Fixpoint parse_digits (radix acc : Z) (s : jsstring) : option Z :=
  match s with
  | [] => Some acc
  | c :: rest =>
      match digit_value c with
      | Some d => if d <? radix then parse_digits radix (acc * radix + d) rest else None
      | None => None
      end
  end.

Definition parse_literal (radix : Z) (s : jsstring) : option Z :=
  match s with
  | [] => None
  | _ => parse_digits radix 0 s
  end.

(** [BigInt(string)]: [None] stands for the SyntaxError. *)
Definition StringToBigInt (s : jsstring) : option Z :=
  match trim s with
  | [] => Some 0
  | 43 :: rest => parse_literal 10 rest
  | 45 :: rest => Z.opp <$> parse_literal 10 rest
  | 48 :: p :: rest =>
      if (p =? 120) || (p =? 88) then parse_literal 16 rest
      else if (p =? 111) || (p =? 79) then parse_literal 8 rest
      else if (p =? 98) || (p =? 66) then parse_literal 2 rest
      else parse_literal 10 (48 :: p :: rest)
  | t => parse_literal 10 t
  end.

Definition maxValue : Z := 0x1fffffffffffff.

Definition getBigInt (value : BigNumberish) : Completion Z :=
  match value with
  | BBigInt n => Normal n
  | BNumber n =>
      if (- maxValue <=? n) && (n <=? maxValue) then Normal n
      else Throw (newTypeError "overflow")
  | BString s =>
      let invalid := Throw (newTypeError "invalid BigNumberish string") in
      match s with
      | [] => invalid
      | c0 :: rest =>
          let negated :=
            (c0 =? 45) && negb (match rest with c1 :: _ => c1 =? 45 | [] => false end) in
          if negated then
            match StringToBigInt rest with
            | Some n => Normal (- n)
            | None => invalid
            end
          else
            match StringToBigInt s with
            | Some n => Normal n
            | None => invalid
            end
      end
  end.

Definition getUint (value : BigNumberish) : Completion Z :=
  let* result := getBigInt value in
  if 0 <=? result then Normal result
  else Throw (newRangeError "unsigned value cannot be negative").

(** The big-endian bytes of a positive value, without leading zero bytes. *)
Definition be_bytes (value : Z) : bytes :=
  let n := Z.to_nat (Z.log2 value / 8 + 1) in
  map (fun i => (value / 256 ^ Z.of_nat (n - 1 - i)) mod 256) (seq 0 n).

Definition toBeArray (value : BigNumberish) : Completion bytes :=
  let* v := getUint value in
  if v =? 0 then Normal [] else Normal (be_bytes v).

Definition toTwos (value : BigNumberish) (width : Z) : Completion Z :=
  let* v := getBigInt value in
  let limit := Z.shiftl 1 (width - 1) in
  if v <? 0 then
    if - v <=? limit then Normal (Z.land (Z.lnot (- v)) (Z.ones width) + 1)
    else Throw (newRangeError "too low")
  else
    if v <? limit then Normal v else Throw (newRangeError "too high").

(** [zeroPadValue] on a byte array: pads on the left. *)
Definition zeroPadValue (data : bytes) (len : nat) : Completion bytes :=
  if (length data <=? len)%nat then Normal (repeat 0 (len - length data) ++ data)
  else Throw (newRangeError "padding exceeds data length").

(** [zeroPadBytes]: pads on the right. *)
Definition zeroPadBytes (data : bytes) (len : nat) : Completion bytes :=
  if (length data <=? len)%nat then Normal (data ++ repeat 0 (len - length data))
  else Throw (newRangeError "padding exceeds data length").

(** The Solidity number types [uintN] and [intN]; their values are
    [BigNumberish]. *)
Inductive SolType : Type :=
| uint (size : Z)
| int (size : Z).

Definition uint256 : SolType := uint 256.

Definition valid_size (size : Z) : bool :=
  (size mod 8 =? 0) && (0 <? size) && (size <=? 256).

Definition pack (type : SolType) (value : BigNumberish) : Completion bytes :=
  match type with
  | uint size =>
      if valid_size size then
        let* b := toBeArray value in zeroPadValue b (Z.to_nat (size / 8))
      else Throw (newTypeError "invalid number type")
  | int size =>
      if valid_size size then
        let* t := toTwos value size in
        let* b := toBeArray (BBigInt t) in zeroPadValue b (Z.to_nat (size / 8))
      else Throw (newTypeError "invalid number type")
  end.

Fixpoint pack_all (types : list SolType) (values : list BigNumberish)
  : Completion bytes :=
  match types, values with
  | [], [] => Normal []
  | t :: ts, v :: vs =>
      let* b := pack t v in
      let* rest := pack_all ts vs in
      Normal (b ++ rest)
  | _, _ => Throw (newTypeError "wrong number of values; expected")
  end.

Definition solidityPacked (types : list SolType) (values : list BigNumberish)
  : Completion jsstring :=
  if (length types =? length values)%nat then
    let* tight := pack_all types values in Normal (hexlify tight)
  else Throw (newTypeError "wrong number of values; expected").

Definition solidityPackedKeccak256 (types : list SolType) (values : list BigNumberish)
  : Completion jsstring :=
  let* packed := solidityPacked types values in
  let* data := getBytes packed in
  Normal (keccak256 data).

(** *** bytes32 strings *)

Definition encodeBytes32String (text : jsstring) : Completion jsstring :=
  let* b := toUtf8Bytes text in
  if (31 <? length b)%nat then
    Throw (newError "bytes32 string must be less than 32 bytes")
  else
    let* padded := zeroPadBytes b 32 in Normal (hexlify padded).

(** The loop [while (data[length - 1] === 0) { length--; }]. *)
Fixpoint null_terminated_length (data : bytes) (len : nat) : nat :=
  match len with
  | O => O
  | S len' =>
      match nth_error data len' with
      | Some 0 => null_terminated_length data len'
      | _ => len
      end
  end.

Definition decodeBytes32String (_bytes : jsstring) : Completion jsstring :=
  let* data := getBytes _bytes in
  if negb (length data =? 32)%nat then
    Throw (newError "invalid bytes32 - not 32 bytes long")
  else if negb (nth 31 data 0 =? 0) then
    Throw (newError "invalid bytes32 string - no null terminator")
  else
    toUtf8String (firstn (null_terminated_length data 31) data).

(** *** Signed messages *)

Inductive Message : Type :=
| MsgString (s : jsstring)
| MsgBytes (b : bytes).

Definition MessagePrefix : jsstring :=
  25 :: js "Ethereum Signed Message:" ++ [10].

(** [String(n)] for a length [n]. *)
Fixpoint decimal_aux (fuel : nat) (n : Z) (acc : jsstring) : jsstring :=
  match fuel with
  | O => acc
  | S fuel' =>
      let acc' := (48 + n mod 10) :: acc in
      if n <? 10 then acc' else decimal_aux fuel' (n / 10) acc'
  end.

Definition decimal_digits (n : Z) : jsstring :=
  decimal_aux (S (Z.to_nat (Z.log2 n))) n [].

(** The bytes that are hashed and signed for [message] (EIP-191). *)
Definition messageBytes (message : Message) : Completion bytes :=
  let* m := match message with
            | MsgString s => toUtf8Bytes s
            | MsgBytes b => Normal b
            end in
  let* p := toUtf8Bytes MessagePrefix in
  let* l := toUtf8Bytes (decimal_digits (Z.of_nat (length m))) in
  Normal (p ++ l ++ m).

Definition hashMessage (message : Message) : Completion jsstring :=
  let* b := messageBytes message in Normal (keccak256 b).

Inductive Provider : Type :=
| JsonRpcProvider (url : jsstring)
| BrowserProvider (ethereum : jsstring).

(** A signer: an address, the provider it is attached to and a signing key.
    [sign_digest] is what [signingKey.sign(digest).serialized] computes; it
    may fail (a wallet that refuses to sign). *)
Record Signer := mkSigner {
  signer_address : jsstring;
  signer_provider : option Provider;
  sign_digest : jsstring -> Completion jsstring
}.

Definition signMessage (signer : Signer) (message : Message) : Completion jsstring :=
  let* digest := hashMessage message in
  sign_digest signer digest.

End Ethers.

(** ** [solidityPacked] on strings and fixed-size byte strings

    [_pack] of ethers for the types [string] and [bytesN], which
    [createCommitment] and [createMerkleNode] pack; a number type is packed
    by [Ethers.pack]. *)

Module Solidity.
Import Ethers.

Inductive PackedType : Type :=
| string_t
| bytes_t (size : Z)
| number_t (type : SolType).

Definition bytes32 : PackedType := bytes_t 32.

(** [dataLength]: the number of bytes a hex string denotes. *)
Definition dataLength (data : BigNumberish) : Completion nat :=
  match data with
  | BString s => let* b := getBytes s in Normal (length b)
  | _ => Throw (newTypeError "invalid BytesLike value")
  end.

Definition _pack (type : PackedType) (value : BigNumberish) : Completion bytes :=
  match type with
  | string_t =>
      match value with
      | BString s => toUtf8Bytes s
      | _ => Throw (newTypeError "invalid string value")
      end
  | bytes_t size =>
      if (0 <? size) && (size <=? 32) then
        let* len := dataLength value in
        if Z.of_nat len =? size then
          match value with
          | BString s => getBytes s
          | _ => Throw (newTypeError "invalid BytesLike value")
          end
        else Throw (newTypeError ("invalid value for bytes" +:+ pretty size))
      else Throw (newTypeError "invalid bytes type")
  | number_t type => pack type value
  end.

Fixpoint pack_all (types : list PackedType) (values : list BigNumberish)
  : Completion bytes :=
  match types, values with
  | [], [] => Normal []
  | t :: ts, v :: vs =>
      let* b := _pack t v in
      let* rest := pack_all ts vs in
      Normal (b ++ rest)
  | _, _ => Throw (newTypeError "wrong number of values; expected")
  end.

Definition solidityPacked (types : list PackedType) (values : list BigNumberish)
  : Completion jsstring :=
  if (length types =? length values)%nat then
    let* tight := pack_all types values in Normal (hexlify tight)
  else Throw (newTypeError "wrong number of values; expected").

Definition solidityPackedKeccak256 (types : list PackedType) (values : list BigNumberish)
  : Completion jsstring :=
  let* packed := solidityPacked types values in
  let* data := getBytes packed in
  Normal (keccak256 data).

End Solidity.

(** ** Outbound calls

    What a method awaits from the outside world is an effect; a method is a
    tree of effects whose continuations receive the settlement of each
    promise. *)

#[local] Set Warnings "-register-all".

Inductive JsValue : Type :=
| VUndefined
| VBool (b : bool)
| VNumber (n : Z)
| VBigInt (n : Z)
| VString (s : jsstring)
| VArray (elements : list JsValue)
| VObject (fields : list (string * JsValue)).

Definition VBigNumberish (v : BigNumberish) : JsValue :=
  match v with
  | BNumber n => VNumber n
  | BBigInt n => VBigInt n
  | BString s => VString s
  end.

Definition VStrings (l : list jsstring) : JsValue := VArray (map VString l).

Inductive Runner : Type :=
| RunnerSigner (s : Ethers.Signer)
| RunnerProvider (p : Ethers.Provider).

Inductive Abi : Type := MARKETPLACE_V2_ABI | MARKETPLACE_DATA_V1_ABI.

(** [new Contract(address, abi, signerOrProvider)] *)
Record Contract := mkContract {
  target : jsstring;
  interface : Abi;
  runner : Runner
}.

(** What [fetch] resolves to: the status line, and what [response.text()]
    settles to. *)
Record Response := mkResponse {
  ok : bool;
  status : Z;
  statusText : string;
  text : Completion jsstring
}.

Inductive Effect : Type -> Type :=
| ContractCall (c : Contract) (method : string) (args : list JsValue) : Effect JsValue
| GetSigner (p : Ethers.Provider) : Effect Ethers.Signer
| Fetch (url : jsstring) : Effect Response
| ConsoleWarn (message : string) : Effect unit.

Inductive Prog (R : Type) : Type :=
| Ret (r : R)
| Do {X : Type} (e : Effect X) (k : Completion X -> Prog R).
Arguments Ret {R} r.
Arguments Do {R X} e k.

Fixpoint prog_bind {A B} (p : Prog A) (f : A -> Prog B) : Prog B :=
  match p with
  | Ret a => f a
  | Do e k => Do e (fun o => prog_bind (k o) f)
  end.

(** An asynchronous function that holds no object state. *)
Definition Async (A : Type) : Type := Prog (Completion A).

Definition await {X} (e : Effect X) : Async X := Do e Ret.

(** *** Event subscriptions

    [contract.on(event, listener)] asks for a listener to be subscribed to an
    event by name.  The request is modelled by its arguments (the contract,
    the event, the listener); how ethers and the provider serve or refuse it
    is not.  A listener is described by what it hands to the callback it wraps:
    [Some args] when it calls the callback with [args], [None] when it does
    not call it, an exception when it throws. *)

Definition Listener : Type := list JsValue -> Completion (option (list JsValue)).

Record Subscription := mkSubscription {
  sub_contract : Contract;
  sub_event : string;
  sub_listener : Listener
}.

(** A callback registered as it is: it is called with the arguments of the
    event. *)
Definition direct : Listener := fun args => Normal (Some args).

(** [value.name] *)
Definition get_property (value : JsValue) (name : string) : Completion JsValue :=
  match value with
  | VUndefined =>
      Throw (newTypeError
               ("Cannot read properties of undefined (reading '" +:+ name +:+ "')"))
  | VObject fields =>
      Normal (from_option snd VUndefined
                (find (fun field => String.eqb (fst field) name) fields))
  | _ => Normal VUndefined
  end.

(** [value === n] for a number literal [n]: a bigint is not a number. *)
Definition strictly_equals_number (value : JsValue) (n : Z) : bool :=
  match value with
  | VNumber m => m =? n
  | _ => false
  end.

(** *** The environment: whatever answers the calls *)

Record Env := mkEnv {
  World : Type;
  respond : forall X, World -> Effect X -> Completion X * World
}.

Inductive Event : Type :=
| Called {X : Type} (e : Effect X).

Fixpoint run (E : Env) {R} (p : Prog R) (w : World E) : R * World E * list Event :=
  match p with
  | Ret r => (r, w, [])
  | Do e k =>
      let '(o, w1) := respond E _ w e in
      let '(r, w2, tr) := run E (k o) w1 in
      (r, w2, Called e :: tr)
  end.

Definition is_ledger_call (ev : Event) : bool :=
  match ev with
  | Called (ContractCall _ _ _) => true
  | Called _ => false
  end.

Definition is_content_store_call (ev : Event) : bool :=
  match ev with
  | Called (Fetch _) => true
  | Called _ => false
  end.

Definition ledger_calls (tr : list Event) : nat :=
  length (filter (fun ev => is_ledger_call ev = true) tr).

Definition content_store_calls (tr : list Event) : nat :=
  length (filter (fun ev => is_content_store_call ev = true) tr).

(** ** constants/addresses.ts *)

Record NetworkAddresses := mkNetworkAddresses {
  addr_marketplaceV2 : jsstring;
  addr_marketplaceDataV1 : jsstring;
  addr_unicrow : jsstring;
  addr_unicrowDispute : jsstring;
  addr_unicrowArbitrator : jsstring;
  addr_eaccToken : jsstring
}.

Definition NETWORK_ADDRESSES : gmap Z NetworkAddresses :=
  {[ 42161 :=
       {| addr_marketplaceV2 := js "0x405AcFbD1400A168fDd4aDA2D214e8Ae5FF7a624";
          addr_marketplaceDataV1 := js "0x0191ae69d05F11C7978cCCa2DE15653BaB509d9a";
          addr_unicrow := js "0x0000000000000000000000000000000000000000";
          addr_unicrowDispute := js "0x0000000000000000000000000000000000000000";
          addr_unicrowArbitrator := js "0x0000000000000000000000000000000000000000";
          addr_eaccToken := js "0x9Eeab030a17528eFb2aC0F81D76fab8754e461BD" |} ]}.

Definition unsupported_network (chainId : Z) : Error :=
  newError ("Unsupported network: " +:+ pretty chainId).

Definition getNetworkAddresses (chainId : Z) : Completion NetworkAddresses :=
  match NETWORK_ADDRESSES !! chainId with
  | None => Throw (unsupported_network chainId)
  | Some addresses => Normal addresses
  end.

(** [Object.keys(NETWORK_ADDRESSES).map(Number)] *)
Definition SUPPORTED_NETWORKS : list Z := (map_to_list NETWORK_ADDRESSES).*1.

Definition isNetworkSupported (chainId : Z) : bool :=
  bool_decide (chainId ∈ SUPPORTED_NETWORKS).

(** ** utils/crypto.ts *)

Module CryptoUtils.
Import Ethers.

Definition keccak256 (data : jsstring) : Completion jsstring :=
  let* b := toUtf8Bytes data in Normal (Ethers.keccak256 b).

Definition solidityPackedKeccak256 (types : list SolType) (values : list BigNumberish)
  : Completion jsstring :=
  Ethers.solidityPackedKeccak256 types values.

Definition signMessage (signer : Signer) (message : Message) : Completion jsstring :=
  try_catch (Ethers.signMessage signer message)
    (fun error => Throw (newError ("Failed to sign message: " +:+ err_message error))).

Definition createJobSignatureHash (eventsLength : Z) (jobId : BigNumberish)
  : Completion jsstring :=
  Ethers.solidityPackedKeccak256 [uint256; uint256]
    [BNumber eventsLength; jobId].

Definition createJobSignatureMessage (eventsLength : Z) (jobId : BigNumberish)
  : Completion jsstring :=
  let* hash := createJobSignatureHash eventsLength jobId in
  let* arr := toBeArray (BString hash) in
  hashMessage (MsgBytes arr).

Definition signJobTaking (signer : Signer) (eventsLength : Z) (jobId : BigNumberish)
  : Completion jsstring :=
  let* hash := createJobSignatureHash eventsLength jobId in
  let* arr := toBeArray (BString hash) in
  signMessage signer (MsgBytes arr).

(** [dataBytes[i] ^ keyBytes[i % keyBytes.length]] for every index.  With an
    empty key the index is NaN, the key byte [undefined], and the data byte is
    kept; [nth] with default 0 does the same. *)
Definition xor_with_key (dataBytes keyBytes : bytes) : bytes :=
  map (fun i => Z.lxor (nth i dataBytes 0)
                       (nth (i mod length keyBytes)%nat keyBytes 0))
      (seq 0 (length dataBytes)).

Definition simpleEncrypt (data key : jsstring) : Completion jsstring :=
  let* keyHash := keccak256 key in
  let* dataBytes := toUtf8Bytes data in
  let* keyBytes := toBeArray (BString keyHash) in
  let encrypted := xor_with_key dataBytes keyBytes in
  Normal (hexlify encrypted).

Definition simpleDecrypt (encryptedData key : jsstring) : Completion jsstring :=
  let* keyHash := keccak256 key in
  let* dataBytes := toBeArray (BString encryptedData) in
  let* keyBytes := toBeArray (BString keyHash) in
  let decrypted := xor_with_key dataBytes keyBytes in
  toUtf8String decrypted.

Definition encodeBytes32String (text : jsstring) : Completion jsstring :=
  Ethers.encodeBytes32String text.

Definition decodeBytes32String (bytes32 : jsstring) : Completion jsstring :=
  Ethers.decodeBytes32String bytes32.

(** [solidityPackedKeccak256] where it is called with strings to pack. *)
Definition solidityPackedKeccak256_any (types : list Solidity.PackedType)
    (values : list BigNumberish) : Completion jsstring :=
  Solidity.solidityPackedKeccak256 types values.

Definition hashPassword (password salt : jsstring) : Completion jsstring :=
  let combined := password ++ salt in
  keccak256 combined.

Definition createCommitment (value nonce : jsstring) : Completion jsstring :=
  solidityPackedKeccak256_any [Solidity.string_t; Solidity.string_t]
    [BString value; BString nonce].

Definition verifyCommitment (commitment value nonce : jsstring) : Completion bool :=
  let* computedCommitment := createCommitment value nonce in
  Normal (bool_decide (commitment = computedCommitment)).

Definition createMerkleLeaf (data : jsstring) : Completion jsstring :=
  keccak256 data.

(** [[left, right].sort()]: the sort is stable, so the two are swapped only
    when the second is smaller. *)
Definition sorted_pair (left right : jsstring) : jsstring * jsstring :=
  if string_lt right left then (right, left) else (left, right).

Definition createMerkleNode (left right : jsstring) : Completion jsstring :=
  let '(first, second) := sorted_pair left right in
  solidityPackedKeccak256_any [Solidity.bytes32; Solidity.bytes32]
    [BString first; BString second].

End CryptoUtils.

(** ** utils/ipfs.ts *)

Record IPFSConfig := mkIPFSConfig {
  gateway : option jsstring;
  apiEndpoint : option jsstring;
  timeout : option Z
}.

Module IPFSUtils.

Fixpoint startsWith (s prefix : jsstring) : bool :=
  match prefix, s with
  | [], _ => true
  | p :: prefix', c :: s' => (c =? p) && startsWith s' prefix'
  | _ :: _, [] => false
  end.

(** [a || b] on an optional string: the empty string is falsy too. *)
Definition or_string (a : option jsstring) (b : jsstring) : jsstring :=
  match a with
  | Some (c :: s) => c :: s
  | _ => b
  end.

Definition or_number (a : option Z) (b : Z) : Z :=
  match a with
  | Some 0 | None => b
  | Some n => n
  end.

(** [s.replace(/^(ipfs:\/\/|\/ipfs\/|ipfs\/)/, '')] *)
Definition strip_ipfs_prefix (s : jsstring) : jsstring :=
  if startsWith s (js "ipfs://") then skipn 7 s
  else if startsWith s (js "/ipfs/") then skipn 6 s
  else if startsWith s (js "ipfs/") then skipn 5 s
  else s.

(** [new IPFSUtils(config)]: the configuration with its defaults filled in. *)
Definition new (config : option IPFSConfig) : IPFSConfig :=
  let config := default (mkIPFSConfig None None None) config in
  {| gateway := Some (or_string (gateway config) (js "https://ipfs.io/ipfs/"));
     apiEndpoint := Some (or_string (apiEndpoint config) (js "https://api.pinata.cloud"));
     timeout := Some (or_number (timeout config) 30000) |}.

(** [fetchFromIPFS]: one request to the gateway.  A request that is aborted
    when the timeout fires rejects with an error named AbortError. *)
Definition fetchFromIPFS (config : IPFSConfig) (hash : jsstring) : Async jsstring :=
  let cleanHash := strip_ipfs_prefix hash in
  let url := from_option id (js "undefined") (gateway config) ++ cleanHash in
  Do (Fetch url) (fun settled =>
    Ret (try_catch
           (let* response := settled in
            if negb (ok response) then
              Throw (newError ("IPFS fetch error: " +:+ pretty (status response)
                               +:+ " - " +:+ statusText response))
            else text response)
           (fun error =>
              if String.eqb (err_name error) "AbortError" then
                Throw (newError ("IPFS fetch timeout after "
                                 +:+ from_option pretty "undefined" (timeout config)
                                 +:+ "ms"))
              else
                Throw (newError ("Failed to fetch from IPFS: " +:+ err_message error))))).

Definition base58_library_missing : Error :=
  newError "Base58 conversion requires additional library. Please use hash as-is or install bs58 package.".

Definition base58ToBuffer (str : jsstring) : Completion bytes :=
  Throw base58_library_missing.

Definition bufferToBase58 (buffer : bytes) : Completion jsstring :=
  Throw base58_library_missing.

(** [buffer.slice(-32)] *)
Definition slice_last (n : nat) (buffer : bytes) : bytes :=
  skipn (length buffer - n) buffer.

(** [buffer.toString('hex')] *)
Definition toHex (buffer : bytes) : jsstring :=
  flat_map (fun b => [Ethers.hexdigit (b / 16); Ethers.hexdigit (b mod 16)]) buffer.

(** [Buffer.from(s, 'hex')]: decoding stops at the first pair that is not
    two hex digits. *)
Fixpoint bufferFromHex (s : jsstring) : bytes :=
  match s with
  | h :: l :: rest =>
      match Ethers.hex_value h, Ethers.hex_value l with
      | Some a, Some b => a * 16 + b :: bufferFromHex rest
      | _, _ => []
      end
  | _ => []
  end.

Definition hashToBytes32 (hash : jsstring) : Completion jsstring :=
  if startsWith hash (js "Qm") && (length hash =? 46)%nat then
    try_catch
      (let* hashBuffer := base58ToBuffer hash in
       let bytes32 := slice_last 32 hashBuffer in
       Normal (js "0x" ++ toHex bytes32))
      (fun _ => Ethers.encodeBytes32String (firstn 31 hash))
  else
    Ethers.encodeBytes32String (firstn 31 hash).

Definition bytes32ToHash (bytes32 : jsstring) : Completion jsstring :=
  let reconstruct :=
    if startsWith bytes32 (js "0x") && (length bytes32 =? 66)%nat then
      try_catch
        (let hexData := skipn 2 bytes32 in
         let fullHash := js "1220" ++ hexData in
         bufferToBase58 (bufferFromHex fullHash))
        (fun _ => Normal bytes32)
    else Normal bytes32 in
  match Ethers.decodeBytes32String bytes32 with
  | Normal parsed =>
      if (0 <? length parsed)%nat then Normal parsed else reconstruct
  | Throw _ => reconstruct
  end.

Definition base58_char (c : Z) : bool :=
  ((49 <=? c) && (c <=? 57))            (* 1-9 *)
  || ((65 <=? c) && (c <=? 72))         (* A-H *)
  || ((74 <=? c) && (c <=? 78))         (* J-N *)
  || ((80 <=? c) && (c <=? 90))         (* P-Z *)
  || ((97 <=? c) && (c <=? 107))        (* a-k *)
  || ((109 <=? c) && (c <=? 122)).      (* m-z *)

Definition base32_char (c : Z) : bool :=
  ((97 <=? c) && (c <=? 122)) || ((50 <=? c) && (c <=? 55)).

Definition isValidIPFSHash (hash : jsstring) : bool :=
  (* /^Qm[1-9A-HJ-NP-Za-km-z]{44}$/ *)
  if startsWith hash (js "Qm") && forallb base58_char (skipn 2 hash)
     && (length hash =? 46)%nat then true
  (* /^[a-z2-7]{59}$/ *)
  else if forallb base32_char hash && (length hash =? 59)%nat then true
  (* /^b[a-z2-7]{58}$/ *)
  else if startsWith hash (js "b") && forallb base32_char (skipn 1 hash)
          && (length hash =? 59)%nat then true
  else false.

(** [createIPFSUrl(hash, gateway)] on the object whose configuration is
    [config]. *)
Definition createIPFSUrl (config : IPFSConfig) (hash : jsstring)
    (gateway_ : option jsstring) : jsstring :=
  let cleanHash := strip_ipfs_prefix hash in
  let usedGateway :=
    match gateway_ with
    | Some (c :: s) => c :: s
    | _ => from_option id (js "undefined") (gateway config)
    end in
  usedGateway ++ cleanHash.

Definition createConfig (gateway_ apiEndpoint_ : option jsstring) : IPFSConfig :=
  {| gateway := Some (or_string gateway_ (js "https://ipfs.io/ipfs/"));
     apiEndpoint := Some (or_string apiEndpoint_ (js "https://api.pinata.cloud"));
     timeout := Some 30000 |}.

Definition getPopularGateways : list jsstring :=
  [ js "https://ipfs.io/ipfs/";
    js "https://gateway.pinata.cloud/ipfs/";
    js "https://cloudflare-ipfs.com/ipfs/";
    js "https://dweb.link/ipfs/";
    js "https://nftstorage.link/ipfs/" ].

End IPFSUtils.

(** ** types/index.ts *)

Record PublishJobParams := mkPublishJobParams {
  pj_title : jsstring;
  pj_contentHash : jsstring;
  pj_multipleApplicants : bool;
  pj_tags : list jsstring;
  pj_token : jsstring;
  pj_amount : BigNumberish;
  pj_maxTime : Z;
  pj_deliveryMethod : jsstring;
  pj_arbitrator : option jsstring;
  pj_allowedWorkers : option (list jsstring)
}.

Record UpdateJobParams := mkUpdateJobParams {
  uj_jobId : BigNumberish;
  uj_title : jsstring;
  uj_contentHash : jsstring;
  uj_tags : list jsstring;
  uj_amount : BigNumberish;
  uj_maxTime : Z;
  uj_arbitrator : option jsstring;
  uj_whitelistWorkers : bool
}.

Record RegisterUserParams := mkRegisterUserParams {
  ru_pubkey : jsstring;
  ru_name : jsstring;
  ru_bio : jsstring;
  ru_avatar : jsstring
}.

Record UpdateUserParams := mkUpdateUserParams {
  uu_name : jsstring;
  uu_bio : jsstring;
  uu_avatar : jsstring
}.

Record RegisterArbitratorParams := mkRegisterArbitratorParams {
  ra_pubkey : jsstring;
  ra_name : jsstring;
  ra_bio : jsstring;
  ra_avatar : jsstring;
  ra_fee : Z
}.

Module JobState.
Inductive t : Type := Open | Taken | Closed.
End JobState.

Module JobEventType.
Inductive t : Type :=
| Created | Taken | Paid | Updated | Signed | Completed | Delivered
| Closed | Reopened | Rated | Refunded | Disputed | Arbitrated
| ArbitrationRefused | WhitelistedWorkerAdded | WhitelistedWorkerRemoved
| CollateralWithdrawn | WorkerMessage | OwnerMessage.

(** The number the enum gives each member. *)
Definition code (e : t) : Z :=
  match e with
  | Created => 0 | Taken => 1 | Paid => 2 | Updated => 3 | Signed => 4
  | Completed => 5 | Delivered => 6 | Closed => 7 | Reopened => 8 | Rated => 9
  | Refunded => 10 | Disputed => 11 | Arbitrated => 12 | ArbitrationRefused => 13
  | WhitelistedWorkerAdded => 14 | WhitelistedWorkerRemoved => 15
  | CollateralWithdrawn => 16 | WorkerMessage => 17 | OwnerMessage => 18
  end.
End JobEventType.

Record JobEventData := mkJobEventData {
  type_ : JsValue;
  address_ : jsstring;
  data_ : jsstring;
  timestamp_ : JsValue
}.

Definition VJobEventData (e : JobEventData) : JsValue :=
  VObject [ ("type_", type_ e); ("address_", VString (address_ e));
            ("data_", VString (data_ e)); ("timestamp_", timestamp_ e) ]%string.

(** ** Human-readable ABI fragments

    What [new Contract(address, abi, runner)] keeps of a human-readable
    fragment: whether it declares a function or an event, its name, how many
    inputs it takes and whether a function is a [view].  A fragment is lexed
    and parsed as ethers does it; one that does not parse is dropped from the
    interface ([Interface] catches the error and goes on).  The errors ethers
    raises for a keyword that is repeated or that conflicts with another one
    are left out. *)

Module Fragment.

Inductive Kind : Type := FunctionFragment | EventFragment.

Record t := mk {
  kind : Kind;
  name : string;
  inputs : nat;
  constant : bool
}.

(** [s] without [prefix], when it starts with it. *)
Definition without_prefix (prefix s : string) : option string :=
  if String.prefix prefix s then
    Some (String.substring (String.length prefix)
            (String.length s - String.length prefix) s)
  else None.

(** *** The lexer *)

Inductive Token : Type :=
| OPEN_PAREN | CLOSE_PAREN | OPEN_BRACKET | CLOSE_BRACKET | COMMA | AT
| KEYWORD (text : string)
| TYPE (text : string)
| ID (text : string)
| NUMBER (text : string).

Definition KwTypes : list string :=
  [ "constructor"; "error"; "event"; "fallback"; "function"; "receive"; "struct" ]%string.

Definition KwModifiers : list string :=
  [ "calldata"; "memory"; "storage"; "payable"; "indexed" ]%string.

Definition KwOther : list string := [ "tuple"; "returns" ]%string.

Definition KwVisib : list string :=
  [ "constant"; "external"; "internal"; "payable"; "private"; "public"; "pure";
    "view"; "override" ]%string.

Definition Keywords : list string := KwTypes ++ KwModifiers ++ KwOther ++ KwVisib.

Definition has (set : list string) (text : string) : bool :=
  existsb (String.eqb text) set.

Definition code (c : ascii) : nat := nat_of_ascii c.

Definition is_digit (c : ascii) : bool := ((48 <=? code c) && (code c <=? 57))%nat.

(** [[a-zA-Z$_]] *)
Definition is_id_start (c : ascii) : bool :=
  (((97 <=? code c) && (code c <=? 122)) || ((65 <=? code c) && (code c <=? 90))
   || (code c =? 36) || (code c =? 95))%nat.

Definition is_id_char (c : ascii) : bool := is_id_start c || is_digit c.

Definition is_space (c : ascii) : bool :=
  ((code c =? 32) || ((9 <=? code c) && (code c <=? 13)))%nat.

Definition all_digits (s : string) : bool := forallb is_digit (list_ascii_of_string s).

(** [parseInt] of a string of digits. *)
Definition parseInt (s : string) : nat :=
  fold_left (fun n c => (10 * n + (code c - 48))%nat) (list_ascii_of_string s) O.

(** The digits after [prefix], when [text] is [prefix] and digits. *)
Definition sized (prefix text : string) : option string :=
  match without_prefix prefix text with
  | Some digits => if all_digits digits then Some digits else None
  | None => None
  end.

(** [regexType]: [address], [bool], [string], or [bytes], [int] or [uint]
    with or without digits after it. *)
Definition regexType (text : string) : bool :=
  has [ "address"; "bool"; "string" ]%string text
  || match sized "bytes" text, sized "int" text, sized "uint" text with
     | None, None, None => false
     | _, _, _ => true
     end.

Definition verifyBasicType (text : string) : bool :=
  match sized "bytes" text, sized "int" text, sized "uint" text with
  | Some digits, _, _ =>
      String.eqb digits "" || (negb (parseInt digits =? 0) && (parseInt digits <=? 32))%nat
  | None, Some digits, _ | None, None, Some digits =>
      String.eqb digits ""
      || (negb (parseInt digits =? 0) && (parseInt digits <=? 256)
          && (parseInt digits mod 8 =? 0))%nat
  | None, None, None => regexType text
  end.

(** The identifier or number that is being read. *)
Inductive Pending : Type :=
| nothing
| word (text : string)
| digits (text : string).

Definition flush (pending : Pending) (tokens : list Token) : list Token :=
  match pending with
  | nothing => tokens
  | word text =>
      (if has Keywords text then KEYWORD text
       else if regexType text then TYPE text
       else ID text) :: tokens
  | digits text => NUMBER text :: tokens
  end.

Definition simple_token (c : ascii) : option Token :=
  if Ascii.eqb c "(" then Some OPEN_PAREN
  else if Ascii.eqb c ")" then Some CLOSE_PAREN
  else if Ascii.eqb c "[" then Some OPEN_BRACKET
  else if Ascii.eqb c "]" then Some CLOSE_BRACKET
  else if Ascii.eqb c "," then Some COMMA
  else if Ascii.eqb c "@" then Some AT
  else None.

Definition extend (text : string) (c : ascii) : string := text ++ String c EmptyString.

(** [tokens] holds the tokens read so far, the last one first; [spaced] tells
    that the character before was white space, which may not end the text. *)
Fixpoint lex_from (s : string) (pending : Pending) (spaced : bool) (tokens : list Token)
  : option (list Token) :=
  match s with
  | EmptyString => if spaced then None else Some (rev (flush pending tokens))
  | String c rest =>
      if is_space c then lex_from rest nothing true (flush pending tokens)
      else
        match simple_token c with
        | Some token => lex_from rest nothing false (token :: flush pending tokens)
        | None =>
            if is_id_char c then
              match pending with
              | word text => lex_from rest (word (extend text c)) false tokens
              | digits text =>
                  if is_digit c then lex_from rest (digits (extend text c)) false tokens
                  else lex_from rest (word (extend "" c)) false (flush pending tokens)
              | nothing =>
                  if is_digit c then lex_from rest (digits (extend "" c)) false tokens
                  else lex_from rest (word (extend "" c)) false tokens
              end
            else None
        end
  end.

Definition lex (s : string) : option (list Token) := lex_from s nothing false [].

(** *** Parameters *)

(** What may come next in a parameter: its type ([may_close] right after an
    opening parenthesis, where the list may be empty), the parenthesis of a
    tuple, and what may follow the type. *)
Inductive Expect : Type :=
| a_type (may_close : bool)
| a_tuple
| in_bracket (sized : bool)
| after_type
| after_modifier
| after_name.

(** [popParams] and [ParamType.from] together: the tokens after an opening
    parenthesis, up to the parenthesis that closes it.  Returns the number of
    parameters at the top level and the tokens left.  [depth] counts the
    tuples that are open; [allowIndexed] holds for the inputs of an event,
    outside tuples. *)
Fixpoint popParams (tokens : list Token) (allowIndexed : bool) (depth : nat)
    (expect : Expect) (count : nat) : option (nat * list Token) :=
  match tokens with
  | [] => None
  | token :: rest =>
      match expect, token with
      | a_type _, TYPE text =>
          if verifyBasicType text then popParams rest allowIndexed depth after_type count
          else None
      | a_type _, KEYWORD text =>
          if String.eqb text "tuple" then popParams rest allowIndexed depth a_tuple count
          else None
      | a_type _, OPEN_PAREN | a_tuple, OPEN_PAREN =>
          popParams rest allowIndexed (S depth) (a_type true) count
      | a_type true, CLOSE_PAREN =>
          match depth with
          | O => Some (count, rest)
          | S depth' => popParams rest allowIndexed depth' after_type count
          end
      | after_type, OPEN_BRACKET => popParams rest allowIndexed depth (in_bracket false) count
      | in_bracket false, NUMBER _ =>
          popParams rest allowIndexed depth (in_bracket true) count
      | in_bracket _, CLOSE_BRACKET => popParams rest allowIndexed depth after_type count
      | after_type, KEYWORD text | after_modifier, KEYWORD text =>
          if has KwModifiers text
             && (negb (String.eqb text "indexed")
                 || (allowIndexed && match depth with O => true | S _ => false end))
          then popParams rest allowIndexed depth after_modifier count
          else None
      | after_type, ID _ | after_modifier, ID _ =>
          popParams rest allowIndexed depth after_name count
      | after_type, COMMA | after_modifier, COMMA | after_name, COMMA =>
          popParams rest allowIndexed depth (a_type false)
            (match depth with O => S count | S _ => count end)
      | after_type, CLOSE_PAREN | after_modifier, CLOSE_PAREN | after_name, CLOSE_PAREN =>
          match depth with
          | O => Some (S count, rest)
          | S depth' => popParams rest allowIndexed depth' after_type count
          end
      | _, _ => None
      end
  end.

Definition consumeParams (tokens : list Token) (allowIndexed : bool)
  : option (nat * list Token) :=
  match tokens with
  | OPEN_PAREN :: rest => popParams rest allowIndexed 0 (a_type true) 0
  | _ => None
  end.

(** The keywords of [allowed] at the head of [tokens], and the tokens after
    them. *)
Fixpoint consumeKeywords (allowed : list string) (tokens : list Token)
  : list string * list Token :=
  match tokens with
  | KEYWORD text :: rest =>
      if has allowed text then
        let '(keywords, rest') := consumeKeywords allowed rest in (text :: keywords, rest')
      else ([], tokens)
  | _ => ([], tokens)
  end.

(** Whether [consumeMutability] gives [view] or [pure]. *)
Definition is_constant (modifiers : list string) : bool :=
  has modifiers "view" || has modifiers "pure"
  || (negb (has modifiers "payable") && has modifiers "constant").

Definition consumeGas (tokens : list Token) : option (list Token) :=
  match tokens with
  | AT :: NUMBER _ :: rest => Some rest
  | AT :: _ => None
  | _ => Some tokens
  end.

Definition consumeEoi {A} (tokens : list Token) (a : A) : option A :=
  match tokens with
  | [] => Some a
  | _ :: _ => None
  end.

(** *** Fragments *)

Definition function_from (name : string) (tokens : list Token) : option t :=
  '(n, tokens) ← consumeParams tokens false;
  let '(modifiers, tokens) := consumeKeywords KwVisib tokens in
  tokens ← match consumeKeywords [ "returns"%string ] tokens with
           | ([], _) => Some tokens
           | (_, tokens') => snd <$> consumeParams tokens' false
           end;
  tokens ← consumeGas tokens;
  consumeEoi tokens (mk FunctionFragment name n (is_constant modifiers)).

Definition event_from (name : string) (tokens : list Token) : option t :=
  '(n, tokens) ← consumeParams tokens true;
  consumeEoi tokens (mk EventFragment name n false).

Definition parse (s : string) : option t :=
  match lex s with
  | Some (KEYWORD keyword :: ID name :: tokens) =>
      if String.eqb keyword "function" then function_from name tokens
      else if String.eqb keyword "event" then event_from name tokens
      else None
  | _ => None
  end.

Definition is_function (f : t) : bool :=
  match kind f with FunctionFragment => true | EventFragment => false end.

Definition is_event (f : t) : bool := negb (is_function f).

End Fragment.

(** [contract.method(...args)]: the contract object has a method for every
    function that its interface kept.  Any other name reads as [undefined],
    and calling it is a TypeError before any request is made. *)
Definition not_a_function (method : string) : Error :=
  newTypeError ("this.contract." +:+ method +:+ " is not a function").

Definition declares (abi : list string) (method : string) : bool :=
  existsb (fun f => Fragment.is_function f && String.eqb (Fragment.name f) method)
    (omap Fragment.parse abi).

Definition call_method (abi : list string) (self : Contract) (method : string)
    (args : list JsValue) : Async JsValue :=
  if declares abi method then await (ContractCall self method args)
  else Ret (Throw (not_a_function method)).

(** ** contracts/MarketplaceV2.ts *)

Definition ZERO_ADDRESS : jsstring := js "0x0000000000000000000000000000000000000000".

Module MarketplaceV2Contract.

(** [MARKETPLACE_V2_ABI], fragment by fragment. *)
Definition abi : list string :=
  [ "function jobs(uint256) view returns (tuple(uint8 state, bool whitelistWorkers, bool multipleApplicants, bool disputed, tuple(address creator, address worker, address arbitrator) roles, string title, string[] tags, bytes32 contentHash, address token, uint256 amount, uint32 timestamp, uint32 maxTime, string deliveryMethod, uint256 escrowId, bytes32 resultHash, uint8 rating, uint256 collateralOwed))";
    "function jobsLength() view returns (uint256)";
    "function getJob(uint256 jobId) view returns (tuple(uint8 state, bool whitelistWorkers, tuple(address creator, address arbitrator, address worker) roles, string title, string[] tags, bytes32 contentHash, bool multipleApplicants, uint256 amount, address token, uint32 timestamp, uint32 maxTime, string deliveryMethod, uint256 collateralOwed, uint256 escrowId, bytes32 resultHash, uint8 rating, bool disputed))";
    "function whitelistWorkers(uint256 jobId, address worker) view returns (bool)";
    "function version() view returns (uint256)";
    "function unicrowAddress() view returns (address)";
    "function treasuryAddress() view returns (address)";
    "function unicrowMarketplaceFee() view returns (uint16)";
    "function eaccToken() view returns (address)";
    "function eaccRewardTokensEnabled(address token) view returns (uint256)";
    "function eaccTokensPerToken() view returns (uint256)";
    "function marketplaceData() view returns (address)";
    "function publishJobPost(string title, bytes32 contentHash, bool multipleApplicants, string[] tags, address token, uint256 amount, uint32 maxTime, string deliveryMethod, address arbitrator, address[] allowedWorkers) returns (uint256)";
    "function updateJobPost(uint256 jobId, string title, bytes32 contentHash, string[] tags, uint256 amount, uint32 maxTime, address arbitrator, bool whitelistWorkers)";
    "function updateJobWhitelist(uint256 jobId, address[] allowedWorkers, address[] disallowedWorkers)";
    "function closeJob(uint256 jobId)";
    "function withdrawCollateral(uint256 jobId)";
    "function reopenJob(uint256 jobId)";
    "function takeJob(uint256 jobId, bytes signature)";
    "function payStartJob(uint256 jobId, address worker) payable";
    "function deliverResult(uint256 jobId, bytes32 resultHash)";
    "function approveResult(uint256 jobId, uint8 reviewRating, string reviewText)";
    "function refund(uint256 jobId)";
    "function dispute(uint256 jobId, bytes sessionKey, bytes content)";
    "function arbitrate(uint256 jobId, uint16 buyerShare, uint16 workerShare, bytes32 reasonHash)";
    "function refuseArbitration(uint256 jobId)";
    "function postThreadMessage(uint256 jobId, bytes32 contentHash, address recipient)";
    "function review(uint256 jobId, uint8 reviewRating, string reviewText)";
    "function pause()";
    "function unpause()";
    "function setTreasuryAddress(address treasuryAddress)";
    "function setUnicrowMarketplaceFee(uint16 unicrowMarketplaceFee)";
    "function updateUnicrowAddresses(address unicrowAddress, address unicrowDisputeAddress, address unicrowArbitratorAddress)";
    "function setEACCRewardTokensEnabled(address token, uint256 reward)";
    "event UnicrowAddressesChanged(address unicrowAddress, address unicrowDisputeAddress, address unicrowArbitratorAddress)";
    "event UnicrowMarketplaceFeeChanged(uint16 unicrowMarketplaceFee)";
    "event TreasuryAddressChanged(address treasuryAddress)";
    "event EACCRewardTokensEnabledChanged(address indexed token, uint256 amount)";
    "event EACCRewardsDistributed(uint256 indexed jobId, address indexed worker, address indexed creator, uint256 rewardAmount)" ]%string.

Definition new (address : jsstring) (signerOrProvider : Runner) : Contract :=
  mkContract address MARKETPLACE_V2_ABI signerOrProvider.

Definition getJob (self : Contract) (jobId : BigNumberish) : Async JsValue :=
  await (ContractCall self "getJob" [VBigNumberish jobId]).

Definition getJobsLength (self : Contract) : Async JsValue :=
  await (ContractCall self "jobsLength" []).

Definition isWorkerWhitelisted (self : Contract) (jobId : BigNumberish) (worker : jsstring)
  : Async JsValue :=
  await (ContractCall self "whitelistWorkers" [VBigNumberish jobId; VString worker]).

Definition getVersion (self : Contract) : Async JsValue :=
  await (ContractCall self "version" []).

Definition getUnicrowAddress (self : Contract) : Async JsValue :=
  await (ContractCall self "unicrowAddress" []).

Definition getTreasuryAddress (self : Contract) : Async JsValue :=
  await (ContractCall self "treasuryAddress" []).

Definition getMarketplaceFee (self : Contract) : Async JsValue :=
  await (ContractCall self "unicrowMarketplaceFee" []).

Definition getEACCToken (self : Contract) : Async JsValue :=
  await (ContractCall self "eaccToken" []).

Definition getEACCRewardTokensEnabled (self : Contract) (token : jsstring) : Async JsValue :=
  await (ContractCall self "eaccRewardTokensEnabled" [VString token]).

Definition getEACCTokensPerToken (self : Contract) : Async JsValue :=
  await (ContractCall self "eaccTokensPerToken" []).

Definition publishJobPost (self : Contract) (params : PublishJobParams) : Async JsValue :=
  let arbitrator := default ZERO_ADDRESS (pj_arbitrator params) in
  let allowedWorkers := default [] (pj_allowedWorkers params) in
  await (ContractCall self "publishJobPost"
    [ VString (pj_title params); VString (pj_contentHash params);
      VBool (pj_multipleApplicants params); VStrings (pj_tags params);
      VString (pj_token params); VBigNumberish (pj_amount params);
      VNumber (pj_maxTime params); VString (pj_deliveryMethod params);
      VString arbitrator; VStrings allowedWorkers ]).

Definition updateJobPost (self : Contract) (params : UpdateJobParams) : Async JsValue :=
  let arbitrator := default ZERO_ADDRESS (uj_arbitrator params) in
  await (ContractCall self "updateJobPost"
    [ VBigNumberish (uj_jobId params); VString (uj_title params);
      VString (uj_contentHash params); VStrings (uj_tags params);
      VBigNumberish (uj_amount params); VNumber (uj_maxTime params);
      VString arbitrator; VBool (uj_whitelistWorkers params) ]).

Definition updateJobWhitelist (self : Contract) (jobId : BigNumberish)
    (allowedWorkers disallowedWorkers : list jsstring) : Async JsValue :=
  await (ContractCall self "updateJobWhitelist"
    [VBigNumberish jobId; VStrings allowedWorkers; VStrings disallowedWorkers]).

Definition closeJob (self : Contract) (jobId : BigNumberish) : Async JsValue :=
  await (ContractCall self "closeJob" [VBigNumberish jobId]).

Definition withdrawCollateral (self : Contract) (jobId : BigNumberish) : Async JsValue :=
  await (ContractCall self "withdrawCollateral" [VBigNumberish jobId]).

Definition reopenJob (self : Contract) (jobId : BigNumberish) : Async JsValue :=
  await (ContractCall self "reopenJob" [VBigNumberish jobId]).

Definition takeJob (self : Contract) (jobId : BigNumberish) (signature : jsstring)
  : Async JsValue :=
  await (ContractCall self "takeJob" [VBigNumberish jobId; VString signature]).

Definition payStartJob (self : Contract) (jobId : BigNumberish) (worker : jsstring)
    (value : option BigNumberish) : Async JsValue :=
  await (ContractCall self "payStartJob"
    [ VBigNumberish jobId; VString worker;
      VObject [("value"%string, from_option VBigNumberish VUndefined value)] ]).

Definition deliverResult (self : Contract) (jobId : BigNumberish) (resultHash : jsstring)
  : Async JsValue :=
  await (ContractCall self "deliverResult" [VBigNumberish jobId; VString resultHash]).

Definition approveResult (self : Contract) (jobId : BigNumberish) (reviewRating : Z)
    (reviewText : jsstring) : Async JsValue :=
  await (ContractCall self "approveResult"
    [VBigNumberish jobId; VNumber reviewRating; VString reviewText]).

Definition refund (self : Contract) (jobId : BigNumberish) : Async JsValue :=
  await (ContractCall self "refund" [VBigNumberish jobId]).

Definition dispute (self : Contract) (jobId : BigNumberish) (sessionKey content : jsstring)
  : Async JsValue :=
  await (ContractCall self "dispute"
    [VBigNumberish jobId; VString sessionKey; VString content]).

Definition arbitrate (self : Contract) (jobId : BigNumberish) (buyerShare workerShare : Z)
    (reasonHash : jsstring) : Async JsValue :=
  await (ContractCall self "arbitrate"
    [VBigNumberish jobId; VNumber buyerShare; VNumber workerShare; VString reasonHash]).

Definition refuseArbitration (self : Contract) (jobId : BigNumberish) : Async JsValue :=
  await (ContractCall self "refuseArbitration" [VBigNumberish jobId]).

Definition postThreadMessage (self : Contract) (jobId : BigNumberish)
    (contentHash recipient : jsstring) : Async JsValue :=
  await (ContractCall self "postThreadMessage"
    [VBigNumberish jobId; VString contentHash; VString recipient]).

Definition review (self : Contract) (jobId : BigNumberish) (reviewRating : Z)
    (reviewText : jsstring) : Async JsValue :=
  await (ContractCall self "review"
    [VBigNumberish jobId; VNumber reviewRating; VString reviewText]).

Definition getMarketplaceDataAddress (self : Contract) : Async JsValue :=
  await (ContractCall self "marketplaceData" []).

Definition pause (self : Contract) : Async JsValue :=
  await (ContractCall self "pause" []).

Definition unpause (self : Contract) : Async JsValue :=
  await (ContractCall self "unpause" []).

Definition setTreasuryAddress (self : Contract) (treasuryAddress : jsstring)
  : Async JsValue :=
  await (ContractCall self "setTreasuryAddress" [VString treasuryAddress]).

Definition setUnicrowMarketplaceFee (self : Contract) (fee : Z) : Async JsValue :=
  await (ContractCall self "setUnicrowMarketplaceFee" [VNumber fee]).

Definition updateUnicrowAddresses (self : Contract)
    (unicrowAddress unicrowDisputeAddress unicrowArbitratorAddress : jsstring)
  : Async JsValue :=
  await (ContractCall self "updateUnicrowAddresses"
    [VString unicrowAddress; VString unicrowDisputeAddress;
     VString unicrowArbitratorAddress]).

Definition setEACCRewardTokensEnabled (self : Contract) (token : jsstring)
    (reward : BigNumberish) : Async JsValue :=
  await (ContractCall self "setEACCRewardTokensEnabled"
    [VString token; VBigNumberish reward]).

Definition onJobCreated (self : Contract) : Subscription :=
  mkSubscription self "JobCreated" direct.

Definition onJobTaken (self : Contract) : Subscription :=
  mkSubscription self "JobTaken" direct.

Definition onJobCompleted (self : Contract) : Subscription :=
  mkSubscription self "JobCompleted" direct.

Definition onJobDisputed (self : Contract) : Subscription :=
  mkSubscription self "JobDisputed" direct.

Definition onEACCRewardsDistributed (self : Contract) : Subscription :=
  mkSubscription self "EACCRewardsDistributed" direct.

Definition onUnicrowAddressesChanged (self : Contract) : Subscription :=
  mkSubscription self "UnicrowAddressesChanged" direct.

Definition onUnicrowMarketplaceFeeChanged (self : Contract) : Subscription :=
  mkSubscription self "UnicrowMarketplaceFeeChanged" direct.

Definition onTreasuryAddressChanged (self : Contract) : Subscription :=
  mkSubscription self "TreasuryAddressChanged" direct.

Definition onEACCRewardTokensEnabledChanged (self : Contract) : Subscription :=
  mkSubscription self "EACCRewardTokensEnabledChanged" direct.

(** The methods of the class that subscribe a callback. *)
Inductive Subscriber : Type :=
| onJobCreated_ | onJobTaken_ | onJobCompleted_ | onJobDisputed_
| onEACCRewardsDistributed_ | onUnicrowAddressesChanged_
| onUnicrowMarketplaceFeeChanged_ | onTreasuryAddressChanged_
| onEACCRewardTokensEnabledChanged_.

Definition subscribe (m : Subscriber) (self : Contract) : Subscription :=
  match m with
  | onJobCreated_ => onJobCreated self
  | onJobTaken_ => onJobTaken self
  | onJobCompleted_ => onJobCompleted self
  | onJobDisputed_ => onJobDisputed self
  | onEACCRewardsDistributed_ => onEACCRewardsDistributed self
  | onUnicrowAddressesChanged_ => onUnicrowAddressesChanged self
  | onUnicrowMarketplaceFeeChanged_ => onUnicrowMarketplaceFeeChanged self
  | onTreasuryAddressChanged_ => onTreasuryAddressChanged self
  | onEACCRewardTokensEnabledChanged_ => onEACCRewardTokensEnabledChanged self
  end.

(** The methods of the class that call a function of the contract, with
    their arguments. *)
Inductive Wrapper : Type :=
| getJob_ (jobId : BigNumberish)
| getJobsLength_
| isWorkerWhitelisted_ (jobId : BigNumberish) (worker : jsstring)
| getVersion_
| getUnicrowAddress_
| getTreasuryAddress_
| getMarketplaceFee_
| getEACCToken_
| getEACCRewardTokensEnabled_ (token : jsstring)
| getEACCTokensPerToken_
| getMarketplaceDataAddress_
| publishJobPost_ (params : PublishJobParams)
| updateJobPost_ (params : UpdateJobParams)
| updateJobWhitelist_ (jobId : BigNumberish) (allowedWorkers disallowedWorkers : list jsstring)
| closeJob_ (jobId : BigNumberish)
| withdrawCollateral_ (jobId : BigNumberish)
| reopenJob_ (jobId : BigNumberish)
| takeJob_ (jobId : BigNumberish) (signature : jsstring)
| payStartJob_ (jobId : BigNumberish) (worker : jsstring) (value : option BigNumberish)
| deliverResult_ (jobId : BigNumberish) (resultHash : jsstring)
| approveResult_ (jobId : BigNumberish) (reviewRating : Z) (reviewText : jsstring)
| refund_ (jobId : BigNumberish)
| dispute_ (jobId : BigNumberish) (sessionKey content : jsstring)
| arbitrate_ (jobId : BigNumberish) (buyerShare workerShare : Z) (reasonHash : jsstring)
| refuseArbitration_ (jobId : BigNumberish)
| postThreadMessage_ (jobId : BigNumberish) (contentHash recipient : jsstring)
| review_ (jobId : BigNumberish) (reviewRating : Z) (reviewText : jsstring)
| pause_
| unpause_
| setTreasuryAddress_ (treasuryAddress : jsstring)
| setUnicrowMarketplaceFee_ (fee : Z)
| updateUnicrowAddresses_ (unicrowAddress unicrowDisputeAddress unicrowArbitratorAddress : jsstring)
| setEACCRewardTokensEnabled_ (token : jsstring) (reward : BigNumberish).

Definition invoke (m : Wrapper) (self : Contract) : Async JsValue :=
  match m with
  | getJob_ j => getJob self j
  | getJobsLength_ => getJobsLength self
  | isWorkerWhitelisted_ j w => isWorkerWhitelisted self j w
  | getVersion_ => getVersion self
  | getUnicrowAddress_ => getUnicrowAddress self
  | getTreasuryAddress_ => getTreasuryAddress self
  | getMarketplaceFee_ => getMarketplaceFee self
  | getEACCToken_ => getEACCToken self
  | getEACCRewardTokensEnabled_ t => getEACCRewardTokensEnabled self t
  | getEACCTokensPerToken_ => getEACCTokensPerToken self
  | getMarketplaceDataAddress_ => getMarketplaceDataAddress self
  | publishJobPost_ p => publishJobPost self p
  | updateJobPost_ p => updateJobPost self p
  | updateJobWhitelist_ j a d => updateJobWhitelist self j a d
  | closeJob_ j => closeJob self j
  | withdrawCollateral_ j => withdrawCollateral self j
  | reopenJob_ j => reopenJob self j
  | takeJob_ j s => takeJob self j s
  | payStartJob_ j w v => payStartJob self j w v
  | deliverResult_ j h => deliverResult self j h
  | approveResult_ j r t => approveResult self j r t
  | refund_ j => refund self j
  | dispute_ j k c => dispute self j k c
  | arbitrate_ j b w r => arbitrate self j b w r
  | refuseArbitration_ j => refuseArbitration self j
  | postThreadMessage_ j h r => postThreadMessage self j h r
  | review_ j r t => review self j r t
  | pause_ => pause self
  | unpause_ => unpause self
  | setTreasuryAddress_ a => setTreasuryAddress self a
  | setUnicrowMarketplaceFee_ f => setUnicrowMarketplaceFee self f
  | updateUnicrowAddresses_ a b c => updateUnicrowAddresses self a b c
  | setEACCRewardTokensEnabled_ t r => setEACCRewardTokensEnabled self t r
  end.

End MarketplaceV2Contract.

(** ** contracts/MarketplaceDataV1.ts *)

Module MarketplaceDataV1Contract.

(** [MARKETPLACE_DATA_V1_ABI], fragment by fragment. *)
Definition abi : list string :=
  [ "function users(address) view returns (tuple(address address_, bytes publicKey, string name, string bio, string avatar, uint16 reputationUp, uint16 reputationDown))";
    "function arbitrators(address) view returns (tuple(address address_, bytes publicKey, string name, string bio, string avatar, uint16 fee, uint16 settledCount, uint16 refusedCount))";
    "function userRatings(address) view returns (tuple(uint16 averageRating, uint256 numberOfReviews))";
    "function userReviews(address, uint256) view returns (tuple(address reviewer, uint256 jobId, uint8 rating, string text, uint32 timestamp))";
    "function jobEvents(uint256, uint256) view returns (tuple(uint8 type_, bytes address_, bytes data_, uint32 timestamp_))";
    "function meceTags(string) view returns (string)";
    "function getUsers(uint256 index, uint256 limit) view returns (tuple(address address_, bytes publicKey, string name, string bio, string avatar, uint16 reputationUp, uint16 reputationDown)[])";
    "function getArbitrators(uint256 index, uint256 limit) view returns (tuple(address address_, bytes publicKey, string name, string bio, string avatar, uint16 fee, uint16 settledCount, uint16 refusedCount)[])";
    "function getReviews(address target, uint256 index, uint256 limit) view returns (tuple(address reviewer, uint256 jobId, uint8 rating, string text, uint32 timestamp)[])";
    "function getEvents(uint256 jobId, uint256 index, uint256 limit) view returns (tuple(uint8 type_, bytes address_, bytes data_, uint32 timestamp_)[])";
    "function getJobs(uint256 index, uint256 limit) view returns (tuple(uint8 state, bool whitelistWorkers, tuple(address creator, address arbitrator, address worker) roles, string title, string[] tags, bytes32 contentHash, bool multipleApplicants, uint256 amount, address token, uint32 timestamp, uint32 maxTime, string deliveryMethod, uint256 collateralOwed, uint256 escrowId, bytes32 resultHash, uint8 rating, bool disputed)[])";
    "function getJob(uint256 jobId) view returns (tuple(uint8 state, bool whitelistWorkers, bool multipleApplicants, bool disputed, tuple(address creator, address worker, address arbitrator) roles, string title, string[] tags, bytes32 contentHash, address token, uint256 amount, uint32 timestamp, uint32 maxTime, string deliveryMethod, uint256 escrowId, bytes32 resultHash, uint8 rating, uint256 collateralOwed))";
    "function eventsLength(uint256 jobId) view returns (uint256)";
    "function usersLength() view returns (uint256)";
    "function arbitratorsLength() view returns (uint256)";
    "function jobsLength() view returns (uint256)";
    "function userRegistered(address) view returns (bool)";
    "function arbitratorRegistered(address) view returns (bool)";
    "function getUser(address userAddress) view returns (tuple(address address_, bytes publicKey, string name, string bio, string avatar, uint16 reputationUp, uint16 reputationDown))";
    "function getArbitrator(address arbitratorAddress) view returns (tuple(address address_, bytes publicKey, string name, string bio, string avatar, uint16 fee, uint16 settledCount, uint16 refusedCount))";
    "function getUserRating(address userAddress) view returns (tuple(uint16 averageRating, uint256 numberOfReviews))";
    "function readMeceTag(string shortForm) view returns (string)";
    "function publicKeys(address userAddress) view returns (bytes)";
    "function getArbitratorFee(address) view returns (uint16)";
    "function registerUser(bytes pubkey, string name, string bio, string avatar)";
    "function updateUser(string name, string bio, string avatar)";
    "function registerArbitrator(bytes pubkey, string name, string bio, string avatar, uint16 fee)";
    "function updateArbitrator(string name, string bio, string avatar)";
    "function updateMeceTag(string shortForm, string longForm)";
    "function removeMeceTag(string shortForm)";
    "function publishJobEvent(uint256 jobId, tuple(uint8 type_, bytes address_, bytes data_, uint32 timestamp_) event)";
    "function userRefunded(address)";
    "function userDelivered(address)";
    "function arbitratorRefused(address)";
    "function arbitratorSettled(address)";
    "function updateUserRating(address userAddress, uint8 reviewRating)";
    "function addReview(address target, address reviewer, uint256 jobId, uint8 rating, string text)";
    "event UserRegistered(address indexed addr, bytes pubkey, string name, string bio, string avatar)";
    "event UserUpdated(address indexed addr, string name, string bio, string avatar)";
    "event ArbitratorRegistered(address indexed addr, bytes pubkey, string name, string bio, string avatar, uint16 fee)";
    "event ArbitratorUpdated(address indexed addr, string name, string bio, string avatar)";
    "event JobEvent(uint256 indexed jobId, tuple(uint8 type_, bytes address_, bytes data_, uint32 timestamp_) eventData)";
    "event MarketplaceAddressChanged(address marketplaceAddress)" ]%string.

Definition new (address : jsstring) (signerOrProvider : Runner) : Contract :=
  mkContract address MARKETPLACE_DATA_V1_ABI signerOrProvider.

Definition getUser (self : Contract) (address : jsstring) : Async JsValue :=
  await (ContractCall self "getUser" [VString address]).

Definition getUsers (self : Contract) (index limit : Z) : Async JsValue :=
  await (ContractCall self "getUsers" [VNumber index; VNumber limit]).

Definition getUsersLength (self : Contract) : Async JsValue :=
  await (ContractCall self "usersLength" []).

Definition isUserRegistered (self : Contract) (address : jsstring) : Async JsValue :=
  await (ContractCall self "userRegistered" [VString address]).

Definition getUserRating (self : Contract) (address : jsstring) : Async JsValue :=
  await (ContractCall self "getUserRating" [VString address]).

Definition registerUser (self : Contract) (pubkey name bio avatar : jsstring)
  : Async JsValue :=
  await (ContractCall self "registerUser"
    [VString pubkey; VString name; VString bio; VString avatar]).

Definition updateUser (self : Contract) (name bio avatar : jsstring) : Async JsValue :=
  await (ContractCall self "updateUser" [VString name; VString bio; VString avatar]).

Definition getArbitrator (self : Contract) (address : jsstring) : Async JsValue :=
  await (ContractCall self "getArbitrator" [VString address]).

Definition getArbitrators (self : Contract) (index limit : Z) : Async JsValue :=
  await (ContractCall self "getArbitrators" [VNumber index; VNumber limit]).

Definition getArbitratorsLength (self : Contract) : Async JsValue :=
  await (ContractCall self "arbitratorsLength" []).

Definition isArbitratorRegistered (self : Contract) (address : jsstring) : Async JsValue :=
  await (ContractCall self "arbitratorRegistered" [VString address]).

Definition registerArbitrator (self : Contract) (pubkey name bio avatar : jsstring)
    (fee : Z) : Async JsValue :=
  await (ContractCall self "registerArbitrator"
    [VString pubkey; VString name; VString bio; VString avatar; VNumber fee]).

Definition updateArbitrator (self : Contract) (name bio avatar : jsstring) : Async JsValue :=
  await (ContractCall self "updateArbitrator" [VString name; VString bio; VString avatar]).

Definition getJobs (self : Contract) (index limit : Z) : Async JsValue :=
  await (ContractCall self "getJobs" [VNumber index; VNumber limit]).

Definition getReviews (self : Contract) (target_ : jsstring) (index limit : Z)
  : Async JsValue :=
  await (ContractCall self "getReviews" [VString target_; VNumber index; VNumber limit]).

Definition getEvents (self : Contract) (jobId : BigNumberish) (index limit : Z)
  : Async JsValue :=
  await (ContractCall self "getEvents" [VBigNumberish jobId; VNumber index; VNumber limit]).

Definition getEventsLength (self : Contract) (jobId : BigNumberish) : Async JsValue :=
  await (ContractCall self "eventsLength" [VBigNumberish jobId]).

Definition readMeceTag (self : Contract) (shortForm : jsstring) : Async JsValue :=
  await (ContractCall self "readMeceTag" [VString shortForm]).

Definition updateMeceTag (self : Contract) (shortForm longForm : jsstring) : Async JsValue :=
  await (ContractCall self "updateMeceTag" [VString shortForm; VString longForm]).

Definition removeMeceTag (self : Contract) (shortForm : jsstring) : Async JsValue :=
  await (ContractCall self "removeMeceTag" [VString shortForm]).

Definition getUserPublicKey (self : Contract) (address : jsstring) : Async JsValue :=
  await (ContractCall self "publicKeys" [VString address]).

Definition getArbitratorFee (self : Contract) (address : jsstring) : Async JsValue :=
  await (ContractCall self "getArbitratorFee" [VString address]).

Definition getJob (self : Contract) (jobId : BigNumberish) : Async JsValue :=
  await (ContractCall self "getJob" [VBigNumberish jobId]).

Definition getJobsLength (self : Contract) : Async JsValue :=
  await (ContractCall self "jobsLength" []).

(** The interface keeps no [publishJobEvent]: the fragment names a parameter
    [event], which is a keyword, and does not parse. *)
Definition publishJobEvent (self : Contract) (jobId : BigNumberish)
    (eventData : JobEventData) : Async JsValue :=
  call_method abi self "publishJobEvent"
    [VBigNumberish jobId; VJobEventData eventData].

Definition getMeceTag (self : Contract) (shortForm : jsstring) : Async JsValue :=
  await (ContractCall self "meceTags" [VString shortForm]).

Definition userRefunded (self : Contract) (address : jsstring) : Async JsValue :=
  await (ContractCall self "userRefunded" [VString address]).

Definition userDelivered (self : Contract) (address : jsstring) : Async JsValue :=
  await (ContractCall self "userDelivered" [VString address]).

Definition arbitratorRefused (self : Contract) (address : jsstring) : Async JsValue :=
  await (ContractCall self "arbitratorRefused" [VString address]).

Definition arbitratorSettled (self : Contract) (address : jsstring) : Async JsValue :=
  await (ContractCall self "arbitratorSettled" [VString address]).

Definition updateUserRating (self : Contract) (userAddress : jsstring)
    (reviewRating : Z) : Async JsValue :=
  await (ContractCall self "updateUserRating" [VString userAddress; VNumber reviewRating]).

Definition addReview (self : Contract) (target_ reviewer : jsstring)
    (jobId : BigNumberish) (rating : Z) (text_ : jsstring) : Async JsValue :=
  await (ContractCall self "addReview"
    [VString target_; VString reviewer; VBigNumberish jobId; VNumber rating;
     VString text_]).

Definition onUserRegistered (self : Contract) : Subscription :=
  mkSubscription self "UserRegistered" direct.

Definition onUserUpdated (self : Contract) : Subscription :=
  mkSubscription self "UserUpdated" direct.

Definition onArbitratorRegistered (self : Contract) : Subscription :=
  mkSubscription self "ArbitratorRegistered" direct.

Definition onArbitratorUpdated (self : Contract) : Subscription :=
  mkSubscription self "ArbitratorUpdated" direct.

Definition onJobEvent (self : Contract) : Subscription :=
  mkSubscription self "JobEvent" direct.

Definition onMarketplaceAddressChanged (self : Contract) : Subscription :=
  mkSubscription self "MarketplaceAddressChanged" direct.

(** [(jobId, eventData) => { if (eventData.type_ === n) callback(jobId, eventData) }] *)
Definition when_type_is (n : Z) : Listener :=
  fun args =>
    let jobId := nth 0 args VUndefined in
    let eventData := nth 1 args VUndefined in
    let* type_ := get_property eventData "type_" in
    if strictly_equals_number type_ n then Normal (Some [jobId; eventData])
    else Normal None.

Definition onJobCreated (self : Contract) : Subscription :=
  mkSubscription self "JobEvent" (when_type_is 0).

Definition onJobTaken (self : Contract) : Subscription :=
  mkSubscription self "JobEvent" (when_type_is 1).

Definition onJobCompleted (self : Contract) : Subscription :=
  mkSubscription self "JobEvent" (when_type_is 5).

Definition onJobDisputed (self : Contract) : Subscription :=
  mkSubscription self "JobEvent" (when_type_is 11).

(** The methods of the class that subscribe a callback. *)
Inductive Subscriber : Type :=
| onUserRegistered_ | onUserUpdated_ | onArbitratorRegistered_
| onArbitratorUpdated_ | onJobEvent_ | onMarketplaceAddressChanged_
| onJobCreated_ | onJobTaken_ | onJobCompleted_ | onJobDisputed_.

Definition subscribe (m : Subscriber) (self : Contract) : Subscription :=
  match m with
  | onUserRegistered_ => onUserRegistered self
  | onUserUpdated_ => onUserUpdated self
  | onArbitratorRegistered_ => onArbitratorRegistered self
  | onArbitratorUpdated_ => onArbitratorUpdated self
  | onJobEvent_ => onJobEvent self
  | onMarketplaceAddressChanged_ => onMarketplaceAddressChanged self
  | onJobCreated_ => onJobCreated self
  | onJobTaken_ => onJobTaken self
  | onJobCompleted_ => onJobCompleted self
  | onJobDisputed_ => onJobDisputed self
  end.

(** The methods of the class that call a function of the contract, with
    their arguments. *)
Inductive Wrapper : Type :=
| getUser_ (address : jsstring)
| getUsers_ (index limit : Z)
| getUsersLength_
| isUserRegistered_ (address : jsstring)
| getUserRating_ (address : jsstring)
| getUserPublicKey_ (address : jsstring)
| registerUser_ (pubkey name bio avatar : jsstring)
| updateUser_ (name bio avatar : jsstring)
| getArbitrator_ (address : jsstring)
| getArbitrators_ (index limit : Z)
| getArbitratorsLength_
| isArbitratorRegistered_ (address : jsstring)
| getArbitratorFee_ (address : jsstring)
| registerArbitrator_ (pubkey name bio avatar : jsstring) (fee : Z)
| updateArbitrator_ (name bio avatar : jsstring)
| getJob_ (jobId : BigNumberish)
| getJobs_ (index limit : Z)
| getJobsLength_
| getReviews_ (target_ : jsstring) (index limit : Z)
| getEvents_ (jobId : BigNumberish) (index limit : Z)
| getEventsLength_ (jobId : BigNumberish)
| publishJobEvent_ (jobId : BigNumberish) (eventData : JobEventData)
| readMeceTag_ (shortForm : jsstring)
| getMeceTag_ (shortForm : jsstring)
| updateMeceTag_ (shortForm longForm : jsstring)
| removeMeceTag_ (shortForm : jsstring)
| userRefunded_ (address : jsstring)
| userDelivered_ (address : jsstring)
| arbitratorRefused_ (address : jsstring)
| arbitratorSettled_ (address : jsstring)
| updateUserRating_ (userAddress : jsstring) (reviewRating : Z)
| addReview_ (target_ reviewer : jsstring) (jobId : BigNumberish) (rating : Z)
    (text_ : jsstring).

Definition invoke (m : Wrapper) (self : Contract) : Async JsValue :=
  match m with
  | getUser_ a => getUser self a
  | getUsers_ i l => getUsers self i l
  | getUsersLength_ => getUsersLength self
  | isUserRegistered_ a => isUserRegistered self a
  | getUserRating_ a => getUserRating self a
  | getUserPublicKey_ a => getUserPublicKey self a
  | registerUser_ k n b a => registerUser self k n b a
  | updateUser_ n b a => updateUser self n b a
  | getArbitrator_ a => getArbitrator self a
  | getArbitrators_ i l => getArbitrators self i l
  | getArbitratorsLength_ => getArbitratorsLength self
  | isArbitratorRegistered_ a => isArbitratorRegistered self a
  | getArbitratorFee_ a => getArbitratorFee self a
  | registerArbitrator_ k n b a f => registerArbitrator self k n b a f
  | updateArbitrator_ n b a => updateArbitrator self n b a
  | getJob_ j => getJob self j
  | getJobs_ i l => getJobs self i l
  | getJobsLength_ => getJobsLength self
  | getReviews_ t i l => getReviews self t i l
  | getEvents_ j i l => getEvents self j i l
  | getEventsLength_ j => getEventsLength self j
  | publishJobEvent_ j e => publishJobEvent self j e
  | readMeceTag_ s => readMeceTag self s
  | getMeceTag_ s => getMeceTag self s
  | updateMeceTag_ s l => updateMeceTag self s l
  | removeMeceTag_ s => removeMeceTag self s
  | userRefunded_ a => userRefunded self a
  | userDelivered_ a => userDelivered self a
  | arbitratorRefused_ a => arbitratorRefused self a
  | arbitratorSettled_ a => arbitratorSettled self a
  | updateUserRating_ a r => updateUserRating self a r
  | addReview_ t r j n x => addReview self t r j n x
  end.

End MarketplaceDataV1Contract.

(** The interface of a contract: the fragments of its ABI. *)
Definition fragments (abi : Abi) : list Fragment.t :=
  omap Fragment.parse
    (match abi with
     | MARKETPLACE_V2_ABI => MarketplaceV2Contract.abi
     | MARKETPLACE_DATA_V1_ABI => MarketplaceDataV1Contract.abi
     end).

(** [interface.getFunction(name)] and [interface.getEvent(name)] *)
Definition getFunction (abi : Abi) (name : string) : option Fragment.t :=
  find (fun f => Fragment.is_function f && String.eqb (Fragment.name f) name)
       (fragments abi).

Definition getEvent (abi : Abi) (name : string) : option Fragment.t :=
  find (fun f => Fragment.is_event f && String.eqb (Fragment.name f) name)
       (fragments abi).

Definition is_object (v : JsValue) : bool :=
  match v with VObject _ => true | _ => false end.

(** Whether [contract.method(...args)] finds a function to encode the call
    with: the ABI declares [method], and [args] are its inputs, with or without
    an overrides object after them. *)
Definition accepts (c : Contract) (method : string) (args : list JsValue) : bool :=
  match getFunction (interface c) method with
  | Some f =>
      (length args =? Fragment.inputs f)%nat
      || ((length args =? S (Fragment.inputs f))%nat
          && is_object (List.last args VUndefined))
  | None => false
  end.

(** Whether the function [method] of the contract is declared [view]. *)
Definition is_view (c : Contract) (method : string) : bool :=
  match getFunction (interface c) method with
  | Some f => Fragment.constant f
  | None => false
  end.

(** ** utils/wallet.ts and client.ts: the client object *)

Record WalletConnector := mkWalletConnector {
  provider : option Ethers.Provider;
  signer : option Ethers.Signer
}.

Record EACCClientConfig := mkEACCClientConfig {
  marketplaceV2Address : jsstring;
  marketplaceDataV1Address : jsstring;
  chainId : option Z;
  ipfsConfig : option IPFSConfig
}.

Record EACCClient := mkEACCClient {
  marketplaceV2 : option Contract;
  marketplaceData : option Contract;
  wallet : WalletConnector;
  ipfs : IPFSConfig;
  config : EACCClientConfig
}.

(** A method of the client: it reads and may assign the fields of [this],
    awaits effects, and returns or throws. *)
Definition Method (A : Type) : Type :=
  EACCClient -> Prog (Completion A * EACCClient).

Definition mret {A} (a : A) : Method A := fun this => Ret (Normal a, this).

Definition mthrow {A} (e : Error) : Method A := fun this => Ret (Throw e, this).

Definition mbind {A B} (m : Method A) (f : A -> Method B) : Method B :=
  fun this =>
    prog_bind (m this) (fun '(r, this') =>
      match r with
      | Normal a => f a this'
      | Throw e => Ret (Throw e, this')
      end).

Definition get_this : Method EACCClient := fun this => Ret (Normal this, this).

Definition set_this (this' : EACCClient) : Method unit :=
  fun _ => Ret (Normal tt, this').

Definition mawait {A} (p : Async A) : Method A :=
  fun this => prog_bind p (fun r => Ret (r, this)).

Definition mlift {A} (c : Completion A) : Method A := fun this => Ret (c, this).

(** [try { body } catch (error) { handler }] in a method. *)
Definition mcatch {A} (body : Method A) (handler : Error -> Method A) : Method A :=
  fun this =>
    prog_bind (body this) (fun '(r, this') =>
      match r with
      | Normal a => Ret (Normal a, this')
      | Throw e => handler e this'
      end).

Declare Scope method_scope.
Delimit Scope method_scope with method.
Notation "x <- m ;; k" := (mbind m (fun x => k))
  (at level 100, m at next level, right associativity) : method_scope.
Notation "m ;; k" := (mbind m (fun _ => k))
  (at level 100, right associativity) : method_scope.

(** What [connectWithPrivateKey] takes from ethers and the runtime, and the
    model does not interpret: the wallet that [new ethers.Wallet(key,
    provider)] derives from a key (or its exception), what
    [provider.getNetwork()] settles to (the chain id), and [console.log]. *)
Record Runtime := mkRuntime {
  new_Wallet : jsstring -> Ethers.Provider -> Completion Ethers.Signer;
  getNetwork : Ethers.Provider -> Async Z;
  console_log : jsstring -> Async unit
}.

(** Reading a method off a field that is still [undefined]. *)
Definition undefined_property (method : string) : Error :=
  newTypeError ("Cannot read properties of undefined (reading '" +:+ method +:+ "')").

Module WalletConnector.

Definition new : WalletConnector := mkWalletConnector None None.

Definition set_wallet (w : WalletConnector) : Method unit :=
  fun this =>
    Ret (Normal tt,
         mkEACCClient (marketplaceV2 this) (marketplaceData this) w (ipfs this)
           (config this)).

Definition connectWithSigner (s : Ethers.Signer) : Method Ethers.Signer :=
  (set_wallet (mkWalletConnector (Ethers.signer_provider s) (Some s)) ;;
   mret s)%method.

Definition connectWithProvider (p : Ethers.Provider) : Method Ethers.Signer :=
  (this <- get_this ;;
   set_wallet (mkWalletConnector (Some p) (signer (wallet this))) ;;
   s <- mawait (await (GetSigner p)) ;;
   set_wallet (mkWalletConnector (Some p) (Some s)) ;;
   mret s)%method.

Definition invalid_private_key_length : Error :=
  newError "Invalid private key length. Must be 64 hex characters (32 bytes).".

Definition connectWithPrivateKey (rt : Runtime) (privateKey rpcUrl : jsstring)
  : Method Ethers.Signer :=
  mcatch
    (let privateKey :=
       if negb (IPFSUtils.startsWith privateKey (js "0x")) then js "0x" ++ privateKey
       else privateKey in
     if negb (length privateKey =? 66)%nat then mthrow invalid_private_key_length
     else
       let p := Ethers.JsonRpcProvider rpcUrl in
       this <- get_this ;;
       set_wallet (mkWalletConnector (Some p) (signer (wallet this))) ;;
       s <- mlift (new_Wallet rt privateKey p) ;;
       set_wallet (mkWalletConnector (Some p) (Some s)) ;;
       let address := Ethers.signer_address s in
       network <- mawait (getNetwork rt p) ;;
       mawait (console_log rt
                 (js "Connected with private key: " ++ address
                  ++ js " on network " ++ Ethers.decimal_digits network)) ;;
       mret s)%method
    (fun error =>
       mthrow (newError ("Failed to connect with private key: " +:+ err_message error))).

(** The key as [connectWithPrivateKey] goes on with it. *)
Definition with_0x (privateKey : jsstring) : jsstring :=
  if IPFSUtils.startsWith privateKey (js "0x") then privateKey else js "0x" ++ privateKey.

Definition connection_failed (e : Error) : Error :=
  newError ("Failed to connect with private key: " +:+ err_message e).

Definition getSigner : Method (option Ethers.Signer) :=
  (this <- get_this ;; mret (signer (wallet this)))%method.

Definition getProvider : Method (option Ethers.Provider) :=
  (this <- get_this ;; mret (provider (wallet this)))%method.

Definition getAddress : Method jsstring :=
  (this <- get_this ;;
   match signer (wallet this) with
   | None => mthrow (newError "Wallet not connected")
   | Some s => mret (Ethers.signer_address s)
   end)%method.

Definition removeAllListeners : Method unit :=
  mawait (await (ConsoleWarn "Remove all listeners not implemented for this provider type")).

Definition disconnect : Method unit :=
  (removeAllListeners ;;
   set_wallet (mkWalletConnector None None))%method.

Definition isConnected : Method bool :=
  (this <- get_this ;; mret (bool_decide (is_Some (signer (wallet this)))))%method.

(** [[0-9a-fA-F]] *)
Definition hex_char (c : Z) : bool :=
  ((48 <=? c) && (c <=? 57)) || ((97 <=? c) && (c <=? 102))
  || ((65 <=? c) && (c <=? 70)).

(** [WalletConnector.isValidPrivateKey]; nothing in its [try] block throws on
    a string. *)
Definition isValidPrivateKey (privateKey : jsstring) : bool :=
  let privateKey :=
    if negb (IPFSUtils.startsWith privateKey (js "0x")) then js "0x" ++ privateKey
    else privateKey in
  (length privateKey =? 66)%nat
  (* /^0x[0-9a-fA-F]{64}$/ *)
  && (IPFSUtils.startsWith privateKey (js "0x")
      && forallb hex_char (skipn 2 privateKey)
      && (length (skipn 2 privateKey) =? 64)%nat).

End WalletConnector.

Module EACCClient.

Definition wallet_not_connected : Error :=
  newError "Wallet not connected. Call connectMetaMask() or connectWithPrivateKey() first.".

(** [initializeContracts] assigns the two contract fields of [this]. *)
Definition initializeContracts (signerOrProvider : Runner) (this : EACCClient)
  : EACCClient :=
  mkEACCClient
    (Some (MarketplaceV2Contract.new
             (marketplaceV2Address (config this)) signerOrProvider))
    (Some (MarketplaceDataV1Contract.new
             (marketplaceDataV1Address (config this)) signerOrProvider))
    (wallet this) (ipfs this) (config this).

(** Whether a number is truthy: every one but 0. *)
Definition truthy (n : Z) : bool := negb (n =? 0).

(** [new EACCClient(config, signerOrProvider)] *)
Definition new (config : EACCClientConfig) (signerOrProvider : option Runner)
  : Completion EACCClient :=
  let this := mkEACCClient None None WalletConnector.new
                (IPFSUtils.new (ipfsConfig config)) config in
  let initialized :=
    match signerOrProvider with
    | Some r => Normal (initializeContracts r this)
    | None => Normal this
    end in
  match chainId config with
  | Some c =>
      if truthy c && negb (isNetworkSupported c) then Throw (unsupported_network c)
      else initialized
  | None => initialized
  end.

Definition checkConnection : Method unit :=
  (s <- WalletConnector.getSigner ;;
   match s with
   | None => mthrow wallet_not_connected
   | Some _ => mret tt
   end)%method.

(** [this.marketplaceV2.<method>]: a TypeError while the field is unset. *)
Definition this_marketplaceV2 (method : string) : Method Contract :=
  (this <- get_this ;;
   match marketplaceV2 this with
   | Some c => mret c
   | None => mthrow (undefined_property method)
   end)%method.

Definition this_marketplaceData (method : string) : Method Contract :=
  (this <- get_this ;;
   match marketplaceData this with
   | Some c => mret c
   | None => mthrow (undefined_property method)
   end)%method.

Definition connectProvider (p : Ethers.Provider) : Method unit :=
  (s <- WalletConnector.connectWithProvider p ;;
   this <- get_this ;;
   set_this (initializeContracts (RunnerSigner s) this))%method.

Definition connectWithPrivateKey (rt : Runtime) (privateKey rpcUrl : jsstring)
  : Method unit :=
  (s <- WalletConnector.connectWithPrivateKey rt privateKey rpcUrl ;;
   this <- get_this ;;
   set_this (initializeContracts (RunnerSigner s) this))%method.

Definition getAddress : Method jsstring := WalletConnector.getAddress.

Definition registerUser (params : RegisterUserParams) : Method JsValue :=
  (checkConnection ;;
   c <- this_marketplaceData "registerUser" ;;
   mawait (MarketplaceDataV1Contract.registerUser c
             (ru_pubkey params) (ru_name params) (ru_bio params) (ru_avatar params)))%method.

Definition updateUser (params : UpdateUserParams) : Method JsValue :=
  (checkConnection ;;
   c <- this_marketplaceData "updateUser" ;;
   mawait (MarketplaceDataV1Contract.updateUser c
             (uu_name params) (uu_bio params) (uu_avatar params)))%method.

Definition getUser (address : jsstring) : Method JsValue :=
  (c <- this_marketplaceData "getUser" ;;
   mawait (MarketplaceDataV1Contract.getUser c address))%method.

Definition getUsers (index limit : Z) : Method JsValue :=
  (c <- this_marketplaceData "getUsers" ;;
   mawait (MarketplaceDataV1Contract.getUsers c index limit))%method.

Definition getUsersLength : Method JsValue :=
  (c <- this_marketplaceData "getUsersLength" ;;
   mawait (MarketplaceDataV1Contract.getUsersLength c))%method.

Definition isUserRegistered (address : jsstring) : Method JsValue :=
  (c <- this_marketplaceData "isUserRegistered" ;;
   mawait (MarketplaceDataV1Contract.isUserRegistered c address))%method.

Definition getUserRating (address : jsstring) : Method JsValue :=
  (c <- this_marketplaceData "getUserRating" ;;
   mawait (MarketplaceDataV1Contract.getUserRating c address))%method.

Definition getUserReviews (address : jsstring) (index limit : Z) : Method JsValue :=
  (c <- this_marketplaceData "getReviews" ;;
   mawait (MarketplaceDataV1Contract.getReviews c address index limit))%method.

Definition registerArbitrator (params : RegisterArbitratorParams) : Method JsValue :=
  (checkConnection ;;
   c <- this_marketplaceData "registerArbitrator" ;;
   mawait (MarketplaceDataV1Contract.registerArbitrator c
             (ra_pubkey params) (ra_name params) (ra_bio params) (ra_avatar params)
             (ra_fee params)))%method.

Definition updateArbitrator (params : UpdateUserParams) : Method JsValue :=
  (checkConnection ;;
   c <- this_marketplaceData "updateArbitrator" ;;
   mawait (MarketplaceDataV1Contract.updateArbitrator c
             (uu_name params) (uu_bio params) (uu_avatar params)))%method.

Definition getArbitrator (address : jsstring) : Method JsValue :=
  (c <- this_marketplaceData "getArbitrator" ;;
   mawait (MarketplaceDataV1Contract.getArbitrator c address))%method.

Definition getArbitrators (index limit : Z) : Method JsValue :=
  (c <- this_marketplaceData "getArbitrators" ;;
   mawait (MarketplaceDataV1Contract.getArbitrators c index limit))%method.

Definition getArbitratorsLength : Method JsValue :=
  (c <- this_marketplaceData "getArbitratorsLength" ;;
   mawait (MarketplaceDataV1Contract.getArbitratorsLength c))%method.

Definition isArbitratorRegistered (address : jsstring) : Method JsValue :=
  (c <- this_marketplaceData "isArbitratorRegistered" ;;
   mawait (MarketplaceDataV1Contract.isArbitratorRegistered c address))%method.

Definition publishJob (params : PublishJobParams) : Method JsValue :=
  (checkConnection ;;
   c <- this_marketplaceV2 "publishJobPost" ;;
   mawait (MarketplaceV2Contract.publishJobPost c params))%method.

Definition updateJob (params : UpdateJobParams) : Method JsValue :=
  (checkConnection ;;
   c <- this_marketplaceV2 "updateJobPost" ;;
   mawait (MarketplaceV2Contract.updateJobPost c params))%method.

Definition getJob (jobId : BigNumberish) : Method JsValue :=
  (c <- this_marketplaceV2 "getJob" ;;
   mawait (MarketplaceV2Contract.getJob c jobId))%method.

Definition getJobs (index limit : Z) : Method JsValue :=
  (c <- this_marketplaceData "getJobs" ;;
   mawait (MarketplaceDataV1Contract.getJobs c index limit))%method.

Definition getJobsLength : Method JsValue :=
  (c <- this_marketplaceV2 "getJobsLength" ;;
   mawait (MarketplaceV2Contract.getJobsLength c))%method.

Definition closeJob (jobId : BigNumberish) : Method JsValue :=
  (checkConnection ;;
   c <- this_marketplaceV2 "closeJob" ;;
   mawait (MarketplaceV2Contract.closeJob c jobId))%method.

Definition reopenJob (jobId : BigNumberish) : Method JsValue :=
  (checkConnection ;;
   c <- this_marketplaceV2 "reopenJob" ;;
   mawait (MarketplaceV2Contract.reopenJob c jobId))%method.

Definition withdrawCollateral (jobId : BigNumberish) : Method JsValue :=
  (checkConnection ;;
   c <- this_marketplaceV2 "withdrawCollateral" ;;
   mawait (MarketplaceV2Contract.withdrawCollateral c jobId))%method.

Definition updateJobWhitelist (jobId : BigNumberish)
    (allowedWorkers disallowedWorkers : list jsstring) : Method JsValue :=
  (checkConnection ;;
   c <- this_marketplaceV2 "updateJobWhitelist" ;;
   mawait (MarketplaceV2Contract.updateJobWhitelist c jobId allowedWorkers
             disallowedWorkers))%method.

Definition isWorkerWhitelisted (jobId : BigNumberish) (worker : jsstring) : Method JsValue :=
  (c <- this_marketplaceV2 "isWorkerWhitelisted" ;;
   mawait (MarketplaceV2Contract.isWorkerWhitelisted c jobId worker))%method.

Definition takeJob (jobId : BigNumberish) (signature : jsstring) : Method JsValue :=
  (checkConnection ;;
   c <- this_marketplaceV2 "takeJob" ;;
   mawait (MarketplaceV2Contract.takeJob c jobId signature))%method.

Definition payStartJob (jobId : BigNumberish) (worker : jsstring)
    (value : option BigNumberish) : Method JsValue :=
  (checkConnection ;;
   c <- this_marketplaceV2 "payStartJob" ;;
   mawait (MarketplaceV2Contract.payStartJob c jobId worker value))%method.

Definition deliverResult (jobId : BigNumberish) (resultHash : jsstring) : Method JsValue :=
  (checkConnection ;;
   c <- this_marketplaceV2 "deliverResult" ;;
   mawait (MarketplaceV2Contract.deliverResult c jobId resultHash))%method.

Definition approveResult (jobId : BigNumberish) (reviewRating : Z)
    (reviewText : jsstring) : Method JsValue :=
  (checkConnection ;;
   c <- this_marketplaceV2 "approveResult" ;;
   mawait (MarketplaceV2Contract.approveResult c jobId reviewRating reviewText))%method.

Definition refund (jobId : BigNumberish) : Method JsValue :=
  (checkConnection ;;
   c <- this_marketplaceV2 "refund" ;;
   mawait (MarketplaceV2Contract.refund c jobId))%method.

Definition review (jobId : BigNumberish) (reviewRating : Z)
    (reviewText : jsstring) : Method JsValue :=
  (checkConnection ;;
   c <- this_marketplaceV2 "review" ;;
   mawait (MarketplaceV2Contract.review c jobId reviewRating reviewText))%method.

Definition dispute (jobId : BigNumberish) (sessionKey content : jsstring) : Method JsValue :=
  (checkConnection ;;
   c <- this_marketplaceV2 "dispute" ;;
   mawait (MarketplaceV2Contract.dispute c jobId sessionKey content))%method.

Definition arbitrate (jobId : BigNumberish) (buyerShare workerShare : Z)
    (reasonHash : jsstring) : Method JsValue :=
  (checkConnection ;;
   c <- this_marketplaceV2 "arbitrate" ;;
   mawait (MarketplaceV2Contract.arbitrate c jobId buyerShare workerShare
             reasonHash))%method.

Definition refuseArbitration (jobId : BigNumberish) : Method JsValue :=
  (checkConnection ;;
   c <- this_marketplaceV2 "refuseArbitration" ;;
   mawait (MarketplaceV2Contract.refuseArbitration c jobId))%method.

Definition postMessage (jobId : BigNumberish) (contentHash recipient : jsstring)
  : Method JsValue :=
  (checkConnection ;;
   c <- this_marketplaceV2 "postThreadMessage" ;;
   mawait (MarketplaceV2Contract.postThreadMessage c jobId contentHash recipient))%method.

Definition getEvents (jobId : BigNumberish) (index limit : Z) : Method JsValue :=
  (c <- this_marketplaceData "getEvents" ;;
   mawait (MarketplaceDataV1Contract.getEvents c jobId index limit))%method.

Definition getEventsLength (jobId : BigNumberish) : Method JsValue :=
  (c <- this_marketplaceData "getEventsLength" ;;
   mawait (MarketplaceDataV1Contract.getEventsLength c jobId))%method.

Definition readMeceTag (shortForm : jsstring) : Method JsValue :=
  (c <- this_marketplaceData "readMeceTag" ;;
   mawait (MarketplaceDataV1Contract.readMeceTag c shortForm))%method.

Definition updateMeceTag (shortForm longForm : jsstring) : Method JsValue :=
  (checkConnection ;;
   c <- this_marketplaceData "updateMeceTag" ;;
   mawait (MarketplaceDataV1Contract.updateMeceTag c shortForm longForm))%method.

Definition removeMeceTag (shortForm : jsstring) : Method JsValue :=
  (checkConnection ;;
   c <- this_marketplaceData "removeMeceTag" ;;
   mawait (MarketplaceDataV1Contract.removeMeceTag c shortForm))%method.

Definition fetchFromIPFS (hash : jsstring) : Method jsstring :=
  (this <- get_this ;; mawait (IPFSUtils.fetchFromIPFS (ipfs this) hash))%method.

Definition signMessage (message : jsstring) : Method jsstring :=
  (checkConnection ;;
   s <- WalletConnector.getSigner ;;
   match s with
   | None => mthrow (newError "No signer available")
   | Some signer =>
       mlift (CryptoUtils.signMessage signer (Ethers.MsgString message))
   end)%method.

Definition createJobSignature (eventsLength : Z) (jobId : BigNumberish) : Method jsstring :=
  (checkConnection ;;
   s <- WalletConnector.getSigner ;;
   match s with
   | None => mthrow (newError "No signer available")
   | Some signer =>
       messageHash <- mlift (CryptoUtils.createJobSignatureHash eventsLength jobId) ;;
       mlift (Ethers.signMessage signer (Ethers.MsgString messageHash))
   end)%method.

Definition getMarketplaceInfo : Method JsValue :=
  (c1 <- this_marketplaceV2 "getVersion" ;;
   version <- mawait (MarketplaceV2Contract.getVersion c1) ;;
   c2 <- this_marketplaceV2 "getUnicrowAddress" ;;
   unicrowAddress <- mawait (MarketplaceV2Contract.getUnicrowAddress c2) ;;
   c3 <- this_marketplaceV2 "getTreasuryAddress" ;;
   treasuryAddress <- mawait (MarketplaceV2Contract.getTreasuryAddress c3) ;;
   c4 <- this_marketplaceV2 "getMarketplaceFee" ;;
   marketplaceFee <- mawait (MarketplaceV2Contract.getMarketplaceFee c4) ;;
   c5 <- this_marketplaceV2 "getEACCToken" ;;
   eaccToken <- mawait (MarketplaceV2Contract.getEACCToken c5) ;;
   c6 <- this_marketplaceV2 "getEACCTokensPerToken" ;;
   eaccTokensPerToken <- mawait (MarketplaceV2Contract.getEACCTokensPerToken c6) ;;
   mret (VObject [ ("version", version); ("unicrowAddress", unicrowAddress);
                   ("treasuryAddress", treasuryAddress);
                   ("marketplaceFee", marketplaceFee); ("eaccToken", eaccToken);
                   ("eaccTokensPerToken", eaccTokensPerToken) ]%string))%method.

Definition removeAllListeners : Method unit :=
  (this_marketplaceV2 "removeAllListeners" ;;
   this_marketplaceData "removeAllListeners" ;;
   mret tt)%method.

Definition disconnect : Method unit :=
  (removeAllListeners ;; WalletConnector.disconnect)%method.

(** [EACCClient.createWithPrivateKey]: the constructor may throw, the
    connection may reject. *)
Definition createWithPrivateKey (rt : Runtime) (config : EACCClientConfig)
    (privateKey rpcUrl : jsstring) : Prog (Completion EACCClient) :=
  match new config None with
  | Throw e => Ret (Throw e)
  | Normal client =>
      prog_bind (connectWithPrivateKey rt privateKey rpcUrl client)
        (fun '(r, client') =>
           match r with
           | Normal _ => Ret (Normal client')
           | Throw e => Ret (Throw e)
           end)
  end.

(** [EACCClient.createWithProvider] *)
Definition createWithProvider (config : EACCClientConfig) (signerOrProvider : Runner)
  : Completion EACCClient :=
  new config (Some signerOrProvider).

(** The listener methods; each hands its callback to a method of one of
    the two contracts, which passes it to [contract.on].  A method is
    modelled by the subscription it asks for: the contract, the name of the
    event and the listener, or the TypeError of a contract field that is
    unset.  What ethers and the provider then do with the request is not
    part of the model. *)
Definition contract_of (field : option Contract) (method : string) : Completion Contract :=
  match field with
  | Some c => Normal c
  | None => Throw (undefined_property method)
  end.

Definition onJobCreated (this : EACCClient) : Completion Subscription :=
  let* c := contract_of (marketplaceV2 this) "onJobCreated" in
  Normal (MarketplaceV2Contract.onJobCreated c).

Definition onJobTaken (this : EACCClient) : Completion Subscription :=
  let* c := contract_of (marketplaceV2 this) "onJobTaken" in
  Normal (MarketplaceV2Contract.onJobTaken c).

Definition onJobCompleted (this : EACCClient) : Completion Subscription :=
  let* c := contract_of (marketplaceV2 this) "onJobCompleted" in
  Normal (MarketplaceV2Contract.onJobCompleted c).

Definition onJobDisputed (this : EACCClient) : Completion Subscription :=
  let* c := contract_of (marketplaceV2 this) "onJobDisputed" in
  Normal (MarketplaceV2Contract.onJobDisputed c).

Definition onEACCRewardsDistributed (this : EACCClient) : Completion Subscription :=
  let* c := contract_of (marketplaceV2 this) "onEACCRewardsDistributed" in
  Normal (MarketplaceV2Contract.onEACCRewardsDistributed c).

Definition onUserRegistered (this : EACCClient) : Completion Subscription :=
  let* c := contract_of (marketplaceData this) "onUserRegistered" in
  Normal (MarketplaceDataV1Contract.onUserRegistered c).

Definition onUserUpdated (this : EACCClient) : Completion Subscription :=
  let* c := contract_of (marketplaceData this) "onUserUpdated" in
  Normal (MarketplaceDataV1Contract.onUserUpdated c).

Definition onArbitratorRegistered (this : EACCClient) : Completion Subscription :=
  let* c := contract_of (marketplaceData this) "onArbitratorRegistered" in
  Normal (MarketplaceDataV1Contract.onArbitratorRegistered c).

Definition onJobEvent (this : EACCClient) : Completion Subscription :=
  let* c := contract_of (marketplaceData this) "onJobEvent" in
  Normal (MarketplaceDataV1Contract.onJobEvent c).

(** The listener methods that reach a contract, by name. *)
Inductive Subscriber : Type :=
| onJobCreated_ | onJobTaken_ | onJobCompleted_ | onJobDisputed_
| onEACCRewardsDistributed_ | onUserRegistered_ | onUserUpdated_
| onArbitratorRegistered_ | onJobEvent_.

Definition subscribe (m : Subscriber) (this : EACCClient) : Completion Subscription :=
  match m with
  | onJobCreated_ => onJobCreated this
  | onJobTaken_ => onJobTaken this
  | onJobCompleted_ => onJobCompleted this
  | onJobDisputed_ => onJobDisputed this
  | onEACCRewardsDistributed_ => onEACCRewardsDistributed this
  | onUserRegistered_ => onUserRegistered this
  | onUserUpdated_ => onUserUpdated this
  | onArbitratorRegistered_ => onArbitratorRegistered this
  | onJobEvent_ => onJobEvent this
  end.

Definition getEACCRewardForToken (token : jsstring) : Method JsValue :=
  (c <- this_marketplaceV2 "getEACCRewardTokensEnabled" ;;
   mawait (MarketplaceV2Contract.getEACCRewardTokensEnabled c token))%method.

(** [fetchJobContent]: the parsed content, or the text of a second fetch when
    anything in the first attempt throws.  [JSON_parse] is [JSON.parse] of the
    runtime. *)
Definition fetchJobContent (JSON_parse : jsstring -> Completion JsValue)
    (contentHash : jsstring) : Method JsValue :=
  mcatch
    (this <- get_this ;;
     ipfsHash <- mlift (IPFSUtils.bytes32ToHash contentHash) ;;
     content <- mawait (IPFSUtils.fetchFromIPFS (ipfs this) ipfsHash) ;;
     mlift (JSON_parse content))%method
    (fun error =>
       (this <- get_this ;;
        content <- mawait (IPFSUtils.fetchFromIPFS (ipfs this) contentHash) ;;
        mret (VString content))%method).

End EACCClient.

(** ** The public operations by name

    One constructor per public method of [EACCClient] that reaches a contract
    or the signer, with its arguments; [invoke] calls the method. *)

Module Op.

Inductive t : Type :=
| registerUser (params : RegisterUserParams)
| updateUser (params : UpdateUserParams)
| registerArbitrator (params : RegisterArbitratorParams)
| updateArbitrator (params : UpdateUserParams)
| publishJob (params : PublishJobParams)
| updateJob (params : UpdateJobParams)
| closeJob (jobId : BigNumberish)
| reopenJob (jobId : BigNumberish)
| withdrawCollateral (jobId : BigNumberish)
| updateJobWhitelist (jobId : BigNumberish) (allowedWorkers disallowedWorkers : list jsstring)
| takeJob (jobId : BigNumberish) (signature : jsstring)
| payStartJob (jobId : BigNumberish) (worker : jsstring) (value : option BigNumberish)
| deliverResult (jobId : BigNumberish) (resultHash : jsstring)
| approveResult (jobId : BigNumberish) (reviewRating : Z) (reviewText : jsstring)
| refund (jobId : BigNumberish)
| review (jobId : BigNumberish) (reviewRating : Z) (reviewText : jsstring)
| dispute (jobId : BigNumberish) (sessionKey content : jsstring)
| arbitrate (jobId : BigNumberish) (buyerShare workerShare : Z) (reasonHash : jsstring)
| refuseArbitration (jobId : BigNumberish)
| postMessage (jobId : BigNumberish) (contentHash recipient : jsstring)
| updateMeceTag (shortForm longForm : jsstring)
| removeMeceTag (shortForm : jsstring)
| signMessage (message : jsstring)
| createJobSignature (eventsLength : Z) (jobId : BigNumberish)
| getUser (address : jsstring)
| getUsers (index limit : Z)
| getUsersLength
| isUserRegistered (address : jsstring)
| getUserRating (address : jsstring)
| getUserReviews (address : jsstring) (index limit : Z)
| getArbitrator (address : jsstring)
| getArbitrators (index limit : Z)
| getArbitratorsLength
| isArbitratorRegistered (address : jsstring)
| getJob (jobId : BigNumberish)
| getJobs (index limit : Z)
| getJobsLength
| isWorkerWhitelisted (jobId : BigNumberish) (worker : jsstring)
| getEvents (jobId : BigNumberish) (index limit : Z)
| getEventsLength (jobId : BigNumberish)
| readMeceTag (shortForm : jsstring).

(** The operations whose contract function is not a [view] in the ABI: they
    send a transaction. *)
Definition sends_transaction (op : t) : bool :=
  match op with
  | registerUser _ | updateUser _ | registerArbitrator _ | updateArbitrator _
  | publishJob _ | updateJob _ | closeJob _ | reopenJob _ | withdrawCollateral _
  | updateJobWhitelist _ _ _ | takeJob _ _ | payStartJob _ _ _
  | deliverResult _ _ | approveResult _ _ _ | refund _ | review _ _ _
  | dispute _ _ _ | arbitrate _ _ _ _ | refuseArbitration _ | postMessage _ _ _
  | updateMeceTag _ _ | removeMeceTag _ => true
  | _ => false
  end.

(** The operations that ask the wallet's signer for a signature. *)
Definition signs (op : t) : bool :=
  match op with
  | signMessage _ | createJobSignature _ _ => true
  | _ => false
  end.

Definition state_changing (op : t) : bool := sends_transaction op || signs op.

(** The read accessors: the [view] functions of the two ABIs. *)
Definition read_accessor (op : t) : bool := negb (state_changing op).

(** The contract field an operation goes through. *)
Definition contract_field (op : t) (this : EACCClient) : option Contract :=
  match op with
  | publishJob _ | updateJob _ | closeJob _ | reopenJob _ | withdrawCollateral _
  | updateJobWhitelist _ _ _ | takeJob _ _ | payStartJob _ _ _
  | deliverResult _ _ | approveResult _ _ _ | refund _ | review _ _ _
  | dispute _ _ _ | arbitrate _ _ _ _ | refuseArbitration _ | postMessage _ _ _
  | getJob _ | getJobsLength | isWorkerWhitelisted _ _ => marketplaceV2 this
  | signMessage _ | createJobSignature _ _ => None
  | _ => marketplaceData this
  end.

Definition invoke (op : t) : Method JsValue :=
  match op with
  | registerUser p => EACCClient.registerUser p
  | updateUser p => EACCClient.updateUser p
  | registerArbitrator p => EACCClient.registerArbitrator p
  | updateArbitrator p => EACCClient.updateArbitrator p
  | publishJob p => EACCClient.publishJob p
  | updateJob p => EACCClient.updateJob p
  | closeJob j => EACCClient.closeJob j
  | reopenJob j => EACCClient.reopenJob j
  | withdrawCollateral j => EACCClient.withdrawCollateral j
  | updateJobWhitelist j a d => EACCClient.updateJobWhitelist j a d
  | takeJob j s => EACCClient.takeJob j s
  | payStartJob j w v => EACCClient.payStartJob j w v
  | deliverResult j h => EACCClient.deliverResult j h
  | approveResult j r t => EACCClient.approveResult j r t
  | refund j => EACCClient.refund j
  | review j r t => EACCClient.review j r t
  | dispute j k c => EACCClient.dispute j k c
  | arbitrate j b w r => EACCClient.arbitrate j b w r
  | refuseArbitration j => EACCClient.refuseArbitration j
  | postMessage j h r => EACCClient.postMessage j h r
  | updateMeceTag s l => EACCClient.updateMeceTag s l
  | removeMeceTag s => EACCClient.removeMeceTag s
  | signMessage m => mbind (EACCClient.signMessage m) (fun s => mret (VString s))
  | createJobSignature n j =>
      mbind (EACCClient.createJobSignature n j) (fun s => mret (VString s))
  | getUser a => EACCClient.getUser a
  | getUsers i l => EACCClient.getUsers i l
  | getUsersLength => EACCClient.getUsersLength
  | isUserRegistered a => EACCClient.isUserRegistered a
  | getUserRating a => EACCClient.getUserRating a
  | getUserReviews a i l => EACCClient.getUserReviews a i l
  | getArbitrator a => EACCClient.getArbitrator a
  | getArbitrators i l => EACCClient.getArbitrators i l
  | getArbitratorsLength => EACCClient.getArbitratorsLength
  | isArbitratorRegistered a => EACCClient.isArbitratorRegistered a
  | getJob j => EACCClient.getJob j
  | getJobs i l => EACCClient.getJobs i l
  | getJobsLength => EACCClient.getJobsLength
  | isWorkerWhitelisted j w => EACCClient.isWorkerWhitelisted j w
  | getEvents j i l => EACCClient.getEvents j i l
  | getEventsLength j => EACCClient.getEventsLength j
  | readMeceTag s => EACCClient.readMeceTag s
  end.

End Op.

(** ** A session with the client

    The public methods that may change the client or reach the outside
    world, by name: the operations of [Op], the connection to a provider, the
    reads that go around [Op] and the disconnection.  [perform] runs one and
    gives the client and the world it leaves. *)

Module Session.

Inductive Call : Type :=
| operation (op : Op.t)
| connectProvider (p : Ethers.Provider)
| connectWithPrivateKey (rt : Runtime) (privateKey rpcUrl : jsstring)
| getAddress
| getMarketplaceInfo
| getEACCRewardForToken (token : jsstring)
| fetchFromIPFS (hash : jsstring)
| fetchJobContent (JSON_parse : jsstring -> Completion JsValue) (contentHash : jsstring)
| removeAllListeners
| disconnect.

(** What is left of a run once the returned value is dropped. *)
Definition leaves {E : Env} {A} (r : Completion A * EACCClient * World E * list Event)
  : EACCClient * World E * list Event :=
  let '(_, this, w, tr) := r in (this, w, tr).

Definition perform (E : Env) (c : Call) (this : EACCClient) (w : World E)
  : EACCClient * World E * list Event :=
  match c with
  | operation op => leaves (run E (Op.invoke op this) w)
  | connectProvider p => leaves (run E (EACCClient.connectProvider p this) w)
  | connectWithPrivateKey rt privateKey rpcUrl =>
      leaves (run E (EACCClient.connectWithPrivateKey rt privateKey rpcUrl this) w)
  | getAddress => leaves (run E (EACCClient.getAddress this) w)
  | getMarketplaceInfo => leaves (run E (EACCClient.getMarketplaceInfo this) w)
  | getEACCRewardForToken t => leaves (run E (EACCClient.getEACCRewardForToken t this) w)
  | fetchFromIPFS h => leaves (run E (EACCClient.fetchFromIPFS h this) w)
  | fetchJobContent parse h => leaves (run E (EACCClient.fetchJobContent parse h this) w)
  | removeAllListeners => leaves (run E (EACCClient.removeAllListeners this) w)
  | disconnect => leaves (run E (EACCClient.disconnect this) w)
  end.

Definition by_private_key (c : Call) : bool :=
  match c with
  | connectWithPrivateKey _ _ _ => true
  | _ => false
  end.

(** The clients a program can hold: one the constructor returned, after the
    calls listed, the last one first. *)
Inductive Reachable (E : Env) : list Call -> EACCClient -> World E -> Prop :=
| constructed config signerOrProvider this w :
    EACCClient.new config signerOrProvider = Normal this ->
    Reachable E [] this w
| called c calls this w this' w' tr :
    Reachable E calls this w ->
    perform E c this w = (this', w', tr) ->
    Reachable E (c :: calls) this' w'.

(** Both contract fields hold a contract built by [initializeContracts] for
    the runner [r]. *)
Definition bound_to (r : Runner) (this : EACCClient) : Prop :=
  marketplaceV2 this
  = Some (MarketplaceV2Contract.new (marketplaceV2Address (config this)) r)
  /\ marketplaceData this
     = Some (MarketplaceDataV1Contract.new (marketplaceDataV1Address (config this)) r).

(** The contract fields are unset together or bound to one runner, and the
    content store is the one of the configuration. *)
Definition assembled (this : EACCClient) : Prop :=
  ((marketplaceV2 this = None /\ marketplaceData this = None)
   \/ exists r, bound_to r this)
  /\ ipfs this = IPFSUtils.new (ipfsConfig (config this)).

(** The signer of the wallet, if there is one, is the runner of both
    contracts. *)
Definition signer_runs_contracts (this : EACCClient) : Prop :=
  forall s, signer (wallet this) = Some s -> bound_to (RunnerSigner s) this.

Definition wired (this : EACCClient) : Prop :=
  assembled this /\ signer_runs_contracts this.

(** The client with another wallet. *)
Definition with_wallet (wl : WalletConnector) (this : EACCClient) : EACCClient :=
  mkEACCClient (marketplaceV2 this) (marketplaceData this) wl (ipfs this) (config this).

(** The client with the wallet emptied: what a disconnection leaves. *)
Definition unplugged (this : EACCClient) : EACCClient :=
  with_wallet WalletConnector.new this.

End Session.

(** ** Sample collaborators

    A signer and two ledgers to run the client against.  The signer hands the
    digest back as its signature, so that two signatures agree exactly when
    the digests do.  The ledgers answer reads from a table of jobs and settle
    every transaction the same way: the first accepts it, the second reverts
    it. *)

Module Sample.

Definition transparent_signer : Ethers.Signer :=
  {| Ethers.signer_address := js "0x00000000000000000000000000000000000000aa";
     Ethers.signer_provider := None;
     Ethers.sign_digest := fun digest => Normal digest |}.

Record Chain := mkChain {
  job_state : Z -> JobState.t;
  events_length : Z -> Z
}.

Definition job_id (v : JsValue) : Z :=
  match v with
  | VNumber n | VBigInt n => n
  | _ => 0
  end.

Definition state_code (st : JobState.t) : Z :=
  match st with
  | JobState.Open => 0
  | JobState.Taken => 1
  | JobState.Closed => 2
  end.

Definition reverted : Error := newError "execution reverted: invalid signature".

Definition answer (accept : bool) (w : Chain) (method : string) (args : list JsValue)
  : Completion JsValue :=
  let id := job_id (hd VUndefined args) in
  if String.eqb method "eventsLength" then Normal (VBigInt (events_length w id))
  else if String.eqb method "getJob" then
    Normal (VObject [("state"%string, VNumber (state_code (job_state w id)))])
  else if accept then Normal (VObject [("hash"%string, VString (js "0x01"))])
  else Throw reverted.

Definition respond_with (accept : bool) (X : Type) (w : Chain) (e : Effect X)
  : Completion X * Chain :=
  match e in Effect X return Completion X * Chain with
  | ContractCall _ method args => (answer accept w method args, w)
  | GetSigner _ => (Normal transparent_signer, w)
  | Fetch _ => (Normal (mkResponse true 200 "OK" (Normal (js "{}"))), w)
  | ConsoleWarn _ => (Normal tt, w)
  end.

Definition accepting_ledger : Env := mkEnv Chain (respond_with true).
Definition reverting_ledger : Env := mkEnv Chain (respond_with false).

(** Job 7 has been taken and has three events. *)
Definition chain : Chain :=
  mkChain (fun id => if id =? 7 then JobState.Taken else JobState.Open)
          (fun id => if id =? 7 then 3 else 0).

Definition sample_config : EACCClientConfig :=
  {| marketplaceV2Address := js "0x405AcFbD1400A168fDd4aDA2D214e8Ae5FF7a624";
     marketplaceDataV1Address := js "0x0191ae69d05F11C7978cCCa2DE15653BaB509d9a";
     chainId := Some 42161;
     ipfsConfig := None |}.

Definition provider : Ethers.Provider :=
  Ethers.JsonRpcProvider (js "https://arbitrum.drpc.org").

(** [new EACCClient(config)], no signer or provider given. *)
Definition fresh_client : EACCClient :=
  mkEACCClient None None WalletConnector.new (IPFSUtils.new None) sample_config.

(** [EACCClient.createWithProvider(config, provider)]: contracts bound to a
    provider, no signer in the wallet. *)
Definition reading_client : EACCClient :=
  EACCClient.initializeContracts (RunnerProvider provider) fresh_client.

(** The client after [connectProvider(provider)] has resolved. *)
Definition connected_client : EACCClient :=
  EACCClient.initializeContracts (RunnerSigner transparent_signer)
    (mkEACCClient None None
       (mkWalletConnector (Some provider) (Some transparent_signer))
       (IPFSUtils.new None) sample_config).

(** Two runtimes whose wallets hand the digest back, at the address the key
    spells.  The first reaches Arbitrum One; the network of the second cannot
    be reached. *)
Definition wallet_of (privateKey : jsstring) (p : Ethers.Provider) : Ethers.Signer :=
  {| Ethers.signer_address := firstn 42 privateKey;
     Ethers.signer_provider := Some p;
     Ethers.sign_digest := fun digest => Normal digest |}.

Definition reachable_network : Runtime :=
  {| new_Wallet := fun privateKey p => Normal (wallet_of privateKey p);
     getNetwork := fun _ => Ret (Normal 42161);
     console_log := fun _ => Ret (Normal tt) |}.

Definition unreachable_network : Runtime :=
  {| new_Wallet := fun privateKey p => Normal (wallet_of privateKey p);
     getNetwork := fun _ => Ret (Throw (newError "could not detect network"));
     console_log := fun _ => Ret (Normal tt) |}.

(** The key of the examples: [0x] and 64 times the digit 1. *)
Definition example_key : jsstring := js "0x" ++ repeat 49 64.

(** A signature for job 7 made when its event log was empty. *)
Definition stale_signature : jsstring :=
  Eval vm_compute in
    match CryptoUtils.signJobTaking transparent_signer 0 (BNumber 7) with
    | Normal signature => signature
    | Throw _ => []
    end.

End Sample.

(** ** The job lifecycle

    Modelled from the spec: the JobLifecycle state machine of sections 3 and
    4.1, which the SDK leaves to the on-chain contract; only the enumerations
    [JobState] and [JobEventType] and the [JobPost] record are declared in
    types/index.ts.  The transition table is given twice: as the relation
    [Step], one constructor per row, and as the function [apply] that a
    client would run.  What the table leaves open, when a refund's timeout
    has elapsed, is a parameter. *)

Module JobLifecycle.

Definition Address := jsstring.

Inductive Role : Type := Creator | Worker | Arbitrator | Stranger.

Record TakeSignature := mkTakeSignature {
  signed_hash : jsstring;
  signed_by : Address
}.

Inductive EventType : Type :=
| Take (signature : TakeSignature) (escrow : Z)
| Deliver (result : jsstring)
| Approve (stars : Z)
| Refund
| Dispute
| Arbitrate (buyerShare workerShare : Z)
| RefuseArbitration
| Close
| Reopen
| WhitelistedWorkerAdded (who : Address)
| WhitelistedWorkerRemoved (who : Address).

Record JobEvent := mkJobEvent {
  type : EventType;
  actorAddress : Address;
  timestamp : Z
}.

(** The job with the book-keeping its fold needs: the whitelist, the number
    of events folded so far, whether it was completed, and the refusals of
    its arbitrator. *)
Record Job := mkJob {
  id : Z;
  state : JobState.t;
  creator : Address;
  worker : option Address;
  arbitrator : Address;
  multipleApplicants : bool;
  whitelistWorkers : bool;
  amount : Z;
  token : Address;
  contentHash : jsstring;
  resultHash : option jsstring;
  disputed : bool;
  rating : Z;
  collateralOwed : Z;
  escrowId : Z;
  whitelist : gset Address;
  eventsLength : Z;
  completed : bool;
  refusals : Z
}.

Inductive Failure : Type :=
| InvalidTransition (st : JobState.t) (ev : EventType) (role : Role)
| StaleSignature.

(** The fields an event can change; every event lengthens the log by one. *)
Definition evolve (j : Job) (st : JobState.t) (w : option Address)
    (res : option jsstring) (d : bool) (r e : Z) (wl : gset Address)
    (done : bool) (refused : Z) : Job :=
  {| id := id j; state := st; creator := creator j; worker := w;
     arbitrator := arbitrator j; multipleApplicants := multipleApplicants j;
     whitelistWorkers := whitelistWorkers j; amount := amount j;
     token := token j; contentHash := contentHash j; resultHash := res;
     disputed := d; rating := r; collateralOwed := collateralOwed j;
     escrowId := e; whitelist := wl; eventsLength := eventsLength j + 1;
     completed := done; refusals := refused |}.

Definition role_of (j : Job) (caller : Address) : Role :=
  if bool_decide (caller = creator j) then Creator
  else if bool_decide (worker j = Some caller) then Worker
  else if bool_decide (caller = arbitrator j) then Arbitrator
  else Stranger.

(** The signature matches [hash(eventsLength, jobId)] and is the caller's. *)
Definition signature_matches (j : Job) (caller : Address) (sig : TakeSignature) : bool :=
  match CryptoUtils.createJobSignatureHash (eventsLength j) (BBigInt (id j)) with
  | Normal h => bool_decide (signed_hash sig = h) && bool_decide (signed_by sig = caller)
  | Throw _ => false
  end.

(** Whitelist gating: it applies when both flags are set. *)
Definition may_take (j : Job) (caller : Address) : bool :=
  negb (multipleApplicants j && whitelistWorkers j) || bool_decide (caller ∈ whitelist j).

Section Table.

Variable timeoutElapsed : Job -> JobEvent -> bool.

Inductive Step : Job -> JobEvent -> Job -> Prop :=
| StepTake j caller t sig e :
    state j = JobState.Open -> caller <> creator j ->
    may_take j caller = true -> signature_matches j caller sig = true ->
    Step j (mkJobEvent (Take sig e) caller t)
      (evolve j JobState.Taken (Some caller) (resultHash j) (disputed j) (rating j) e
         (whitelist j) (completed j) (refusals j))
| StepDeliver j caller t res :
    state j = JobState.Taken -> worker j = Some caller ->
    Step j (mkJobEvent (Deliver res) caller t)
      (evolve j JobState.Taken (worker j) (Some res) (disputed j) (rating j) (escrowId j)
         (whitelist j) (completed j) (refusals j))
| StepApprove j caller t stars res :
    state j = JobState.Taken -> caller = creator j -> resultHash j = Some res ->
    Step j (mkJobEvent (Approve stars) caller t)
      (evolve j JobState.Closed (worker j) (resultHash j) (disputed j) stars (escrowId j)
         (whitelist j) true (refusals j))
| StepRefund j caller t w :
    state j = JobState.Taken -> worker j = Some w ->
    (caller = w \/ timeoutElapsed j (mkJobEvent Refund caller t) = true) ->
    Step j (mkJobEvent Refund caller t)
      (evolve j JobState.Open None (resultHash j) (disputed j) (rating j) (escrowId j)
         (whitelist j ∖ {[w]}) (completed j) (refusals j))
| StepDispute j caller t :
    state j = JobState.Taken -> (caller = creator j \/ worker j = Some caller) ->
    Step j (mkJobEvent Dispute caller t)
      (evolve j JobState.Taken (worker j) (resultHash j) true (rating j) (escrowId j)
         (whitelist j) (completed j) (refusals j))
| StepArbitrate j caller t b w :
    state j = JobState.Taken -> disputed j = true -> caller = arbitrator j ->
    Step j (mkJobEvent (Arbitrate b w) caller t)
      (evolve j JobState.Closed (worker j) (resultHash j) false (rating j) (escrowId j)
         (whitelist j) true (refusals j))
| StepRefuse j caller t :
    state j = JobState.Taken -> disputed j = true -> caller = arbitrator j ->
    Step j (mkJobEvent RefuseArbitration caller t)
      (evolve j JobState.Taken (worker j) (resultHash j) false (rating j) (escrowId j)
         (whitelist j) (completed j) (refusals j + 1))
| StepClose j caller t :
    state j = JobState.Open -> caller = creator j ->
    Step j (mkJobEvent Close caller t)
      (evolve j JobState.Closed None (resultHash j) (disputed j) (rating j) (escrowId j)
         (whitelist j) (completed j) (refusals j))
| StepReopen j caller t :
    state j = JobState.Closed -> caller = creator j ->
    (worker j = None \/ completed j = false) ->
    Step j (mkJobEvent Reopen caller t)
      (evolve j JobState.Open (worker j) (resultHash j) (disputed j) (rating j) (escrowId j)
         (whitelist j) (completed j) (refusals j))
| StepWhitelistAdd j caller t who :
    state j = JobState.Open -> caller = creator j ->
    Step j (mkJobEvent (WhitelistedWorkerAdded who) caller t)
      (evolve j JobState.Open (worker j) (resultHash j) (disputed j) (rating j) (escrowId j)
         (whitelist j ∪ {[who]}) (completed j) (refusals j))
| StepWhitelistRemove j caller t who :
    state j = JobState.Open -> caller = creator j ->
    Step j (mkJobEvent (WhitelistedWorkerRemoved who) caller t)
      (evolve j JobState.Open (worker j) (resultHash j) (disputed j) (rating j) (escrowId j)
         (whitelist j ∖ {[who]}) (completed j) (refusals j)).

(** Replaying a sequence of events, in order. *)
Inductive Replay : Job -> list JobEvent -> Job -> Prop :=
| ReplayNil j : Replay j [] j
| ReplayCons j ev j1 evs j2 :
    Step j ev j1 -> Replay j1 evs j2 -> Replay j (ev :: evs) j2.

Definition invalid (j : Job) (ev : JobEvent) : Job + Failure :=
  inr (InvalidTransition (state j) (type ev) (role_of j (actorAddress ev))).

(** The table as a function. *)
Definition apply (j : Job) (ev : JobEvent) : Job + Failure :=
  let caller := actorAddress ev in
  let keep st w res d r e wl done refused :=
    inl (evolve j st w res d r e wl done refused) in
  match state j, type ev with
  | JobState.Open, Take sig e =>
      if bool_decide (caller = creator j) then invalid j ev
      else if negb (may_take j caller) then invalid j ev
      else if negb (signature_matches j caller sig) then inr StaleSignature
      else keep JobState.Taken (Some caller) (resultHash j) (disputed j) (rating j) e
             (whitelist j) (completed j) (refusals j)
  | JobState.Taken, Deliver res =>
      if bool_decide (worker j = Some caller) then
        keep JobState.Taken (worker j) (Some res) (disputed j) (rating j) (escrowId j)
          (whitelist j) (completed j) (refusals j)
      else invalid j ev
  | JobState.Taken, Approve stars =>
      if bool_decide (caller = creator j) && bool_decide (is_Some (resultHash j)) then
        keep JobState.Closed (worker j) (resultHash j) (disputed j) stars (escrowId j)
          (whitelist j) true (refusals j)
      else invalid j ev
  | JobState.Taken, Refund =>
      match worker j with
      | Some w =>
          if bool_decide (caller = w) || timeoutElapsed j ev then
            keep JobState.Open None (resultHash j) (disputed j) (rating j) (escrowId j)
              (whitelist j ∖ {[w]}) (completed j) (refusals j)
          else invalid j ev
      | None => invalid j ev
      end
  | JobState.Taken, Dispute =>
      if bool_decide (caller = creator j) || bool_decide (worker j = Some caller) then
        keep JobState.Taken (worker j) (resultHash j) true (rating j) (escrowId j)
          (whitelist j) (completed j) (refusals j)
      else invalid j ev
  | JobState.Taken, Arbitrate _ _ =>
      if disputed j && bool_decide (caller = arbitrator j) then
        keep JobState.Closed (worker j) (resultHash j) false (rating j) (escrowId j)
          (whitelist j) true (refusals j)
      else invalid j ev
  | JobState.Taken, RefuseArbitration =>
      if disputed j && bool_decide (caller = arbitrator j) then
        keep JobState.Taken (worker j) (resultHash j) false (rating j) (escrowId j)
          (whitelist j) (completed j) (refusals j + 1)
      else invalid j ev
  | JobState.Open, Close =>
      if bool_decide (caller = creator j) then
        keep JobState.Closed None (resultHash j) (disputed j) (rating j) (escrowId j)
          (whitelist j) (completed j) (refusals j)
      else invalid j ev
  | JobState.Closed, Reopen =>
      if bool_decide (caller = creator j)
         && (bool_decide (worker j = None) || negb (completed j)) then
        keep JobState.Open (worker j) (resultHash j) (disputed j) (rating j) (escrowId j)
          (whitelist j) (completed j) (refusals j)
      else invalid j ev
  | JobState.Open, WhitelistedWorkerAdded who =>
      if bool_decide (caller = creator j) then
        keep JobState.Open (worker j) (resultHash j) (disputed j) (rating j) (escrowId j)
          (whitelist j ∪ {[who]}) (completed j) (refusals j)
      else invalid j ev
  | JobState.Open, WhitelistedWorkerRemoved who =>
      if bool_decide (caller = creator j) then
        keep JobState.Open (worker j) (resultHash j) (disputed j) (rating j) (escrowId j)
          (whitelist j ∖ {[who]}) (completed j) (refusals j)
      else invalid j ev
  | _, _ => invalid j ev
  end.

(** The fold: the derived job, or the first failure. *)
Fixpoint replay (j : Job) (evs : list JobEvent) : Job + Failure :=
  match evs with
  | [] => inl j
  | ev :: rest =>
      match apply j ev with
      | inl j1 => replay j1 rest
      | inr f => inr f
      end
  end.

End Table.

(** The signature a worker makes for a Take on [j] as it stands. *)
Definition sign_take (j : Job) (caller : Address) : TakeSignature :=
  match CryptoUtils.createJobSignatureHash (eventsLength j) (BBigInt (id j)) with
  | Normal h => mkTakeSignature h caller
  | Throw _ => mkTakeSignature [] caller
  end.

(** The scenario of section 8: an open job of 2 ETH, taken by worker A with
    a signature for events length 0, disputed by its creator and settled by
    its arbitrator. *)
Definition alice : Address := js "0xA".
Definition creator_address : Address := js "0xC".
Definition arbitrator_address : Address := js "0xF".

Definition open_job : Job :=
  {| id := 1; state := JobState.Open; creator := creator_address; worker := None;
     arbitrator := arbitrator_address; multipleApplicants := true;
     whitelistWorkers := false; amount := 2 * 10 ^ 18; token := ZERO_ADDRESS;
     contentHash := []; resultHash := None; disputed := false; rating := 0;
     collateralOwed := 0; escrowId := 0; whitelist := ∅; eventsLength := 0;
     completed := false; refusals := 0 |}.

Definition scenario : list JobEvent :=
  [ mkJobEvent (Take (sign_take open_job alice) 1) alice 100;
    mkJobEvent Dispute creator_address 200;
    mkJobEvent (Arbitrate 50 50) arbitrator_address 300 ].

Definition settled_job : Job :=
  {| id := 1; state := JobState.Closed; creator := creator_address;
     worker := Some alice; arbitrator := arbitrator_address;
     multipleApplicants := true; whitelistWorkers := false;
     amount := 2 * 10 ^ 18; token := ZERO_ADDRESS; contentHash := [];
     resultHash := None; disputed := false; rating := 0; collateralOwed := 0;
     escrowId := 1; whitelist := ∅; eventsLength := 3; completed := true;
     refusals := 0 |}.

(** A taken job and two deliveries. *)
Definition taken_job : Job :=
  evolve open_job JobState.Taken (Some alice) None false 0 1 ∅ false 0.

Definition first_delivery : JobEvent := mkJobEvent (Deliver (js "0x01")) alice 400.
Definition second_delivery : JobEvent := mkJobEvent (Deliver (js "0x02")) alice 500.

Definition never (j : Job) (ev : JobEvent) : bool := false.

End JobLifecycle.

(** ** The Take payload in the claim's words

    The solidity-packed encoding of a [uint256] is the 32 big-endian bytes of
    the value.  The payload of a pair is the Keccak-256 hash of the encoding
    of the events length followed by the encoding of the job id. *)

Definition uint256_be (v : Z) : bytes :=
  map (fun i => (v / 256 ^ Z.of_nat (31 - i)) mod 256) (seq 0 32).

Definition take_payload (eventsLength jobId : Z) : jsstring :=
  Ethers.keccak256 (uint256_be eventsLength ++ uint256_be jobId).

(** The integer a [BigNumberish] stands for.  A number or a bigint stands for
    itself, a string of decimal digits for the number it spells, and the hex
    string of some bytes for the number these spell in base 256. *)

Definition numeral (ds : list Z) : jsstring := map (fun d => 48 + d) ds.

Definition decimal_value (ds : list Z) : Z := fold_left (fun a d => a * 10 + d) ds 0.

Definition decimal_digit (d : Z) : Prop := 0 <= d <= 9.

Definition base256_value (bs : bytes) : Z := fold_left (fun a b => a * 256 + b) bs 0.

Inductive denotes : BigNumberish -> Z -> Prop :=
| number_denotes n : denotes (BNumber n) n
| bigint_denotes n : denotes (BBigInt n) n
| decimal_denotes ds :
    ds <> [] -> Forall decimal_digit ds ->
    denotes (BString (numeral ds)) (decimal_value ds)
| hex_denotes bs :
    bs <> [] -> Forall is_byte bs ->
    denotes (BString (Ethers.hexlify bs)) (base256_value bs).

(** A number that JavaScript holds exactly: its magnitude is at most
    [Number.MAX_SAFE_INTEGER].  Bigints and strings have no such limit. *)
Definition safe_integer (v : BigNumberish) : Prop :=
  match v with
  | BNumber n => - 2 ^ 53 < n < 2 ^ 53
  | _ => True
  end.

(** What [Ethers.pack] does at [uint256], in one step. *)
Definition encode_uint256 (v : BigNumberish) : Completion bytes :=
  let* n := Ethers.getUint v in
  if n <? 2 ^ 256 then Normal (uint256_be n)
  else Throw (newRangeError "padding exceeds data length").

(** ** The outcome of a call that is handed on

    The single call [c.method(args)] and its settlement, returned unchanged
    together with the untouched client. *)

Definition forwarded (E : Env) (this : EACCClient) (w : World E) (c : Contract)
    (method : string) (args : list JsValue)
  : Completion JsValue * EACCClient * World E * list Event :=
  (fst (respond E JsValue w (ContractCall c method args)), this,
   snd (respond E JsValue w (ContractCall c method args)),
   [Called (ContractCall c method args)]).

(** Calling the functions [methods] of the contract [c] one after the other,
    with no arguments, up to the first call that fails: the answers in the
    order of the calls, or the error of the failed call, with the calls
    made. *)
Fixpoint read_in_turn (E : Env) (c : Contract) (methods : list string) (w : World E)
  : Completion (list JsValue) * World E * list Event :=
  match methods with
  | [] => (Normal [], w, [])
  | method :: rest =>
      let call := ContractCall c method [] in
      match respond E JsValue w call with
      | (Normal answer, w1) =>
          let '(answers, w2, tr) := read_in_turn E c rest w1 in
          (let* others := answers in Normal (answer :: others), w2, Called call :: tr)
      | (Throw e, w1) => (Throw e, w1, [Called call])
      end
  end.

(** A character of the ASCII range other than NUL. *)
Definition is_ascii (c : Z) : Prop := 0 < c < 128.

(** A UTF-16 code unit. *)
Definition code_unit (c : Z) : Prop := 0 <= c < 65536.

(** A character other than [/] and [:]. *)
Definition plain_char (c : Z) : bool := negb ((c =? 47) || (c =? 58)).

(** What is left of a byte string once it has been read as a number. *)
Fixpoint drop_leading_zeros (bs : bytes) : bytes :=
  match bs with
  | 0 :: rest => drop_leading_zeros rest
  | _ => bs
  end.

(** The number of bytes [toBeArray] produces. *)
Definition byte_length (n : Z) : nat := Z.to_nat (Z.log2 n / 8 + 1).

Definition be_value (bs : bytes) : Z := fold_left (fun a b => a * 256 + b) bs 0.

(** * Properties *)

(** ** The model of Keccak-256 and of the ethers helpers on known values *)

Example keccak256_empty :
  be_value (Keccak.keccak256 []) =
  0xc5d2460186f7233c927e7db2dcc703c0e500b653ca82273b7bfad8045d85a470.
Proof. vm_compute. reflexivity. Qed.

Example keccak256_abc :
  Ethers.keccak256 [97; 98; 99] =
  js "0x4e03657aea45a94fc7d47ba826c8d667c0d1e6e33a64a036ec44f58fa12d6c45".
Proof. vm_compute. reflexivity. Qed.

Example keccak256_two_blocks :
  be_value (Keccak.keccak256 (map Z.of_nat (seq 0 200))) =
  0xbfb0aa97863e797943cf7c33bb7e880bb4543f3d2703c0923c6901c2af57b890.
Proof. vm_compute. reflexivity. Qed.

Example hashMessage_hello_world :
  Ethers.hashMessage (Ethers.MsgString (js "Hello World")) =
  Normal (js "0xa1de988600a42c4b4ab089b619297c17d53cffae5d5120d82d8a92d0bb3b78f2").
Proof. vm_compute. reflexivity. Qed.

Example solidityPackedKeccak256_int16_uint48 :
  Ethers.solidityPackedKeccak256 [Ethers.int 16; Ethers.uint 48]
    [BNumber (-1); BNumber 12] =
  Normal (js "0x81da7abb5c9c7515f57dab2fc946f01217ab52f3bd8958bc36bd55894451a93c").
Proof. vm_compute. reflexivity. Qed.

Example encodeBytes32String_example :
  Ethers.encodeBytes32String (js "QmMessageHash123") =
  Normal (js "0x516d4d65737361676548617368313233000000000000000000000000000000" ++ js "00").
Proof. vm_compute. reflexivity. Qed.

(** ** Hex strings and bytes *)

Section HexBytes.

Lemma hex_value_hexdigit n :
  0 <= n < 16 -> Ethers.hex_value (Ethers.hexdigit n) = Some n.
Proof.
  intros Hn. rewrite <- (Z2Nat.id n) by lia.
  assert (Z.to_nat n < 16)%nat as Hk by lia.
  revert Hk. generalize (Z.to_nat n) as k. intros k Hk.
  do 16 (destruct k as [| k]; [reflexivity |]). lia.
Qed.

Lemma hex_pairs_digits (bs : bytes) :
  Forall is_byte bs ->
  Ethers.hex_pairs
    (flat_map (fun b => [Ethers.hexdigit (b / 16); Ethers.hexdigit (b mod 16)]) bs)
  = Some bs.
Proof.
  induction 1 as [| b bs Hb _ IH]; [reflexivity |].
  cbn [flat_map app Ethers.hex_pairs].
  unfold is_byte in Hb.
  rewrite !hex_value_hexdigit, IH.
  - f_equal. f_equal. pose proof (Z.div_mod b 16). lia.
  - apply Z.mod_pos_bound. lia.
  - split; [apply Z.div_pos; lia | apply Z.div_lt_upper_bound; lia].
Qed.

Lemma getBytes_hexlify (bs : bytes) :
  Forall is_byte bs -> Ethers.getBytes (Ethers.hexlify bs) = Normal bs.
Proof.
  intros H. unfold Ethers.hexlify, Ethers.getBytes. cbn [js list_ascii_of_string map app].
  change (Z.of_N (N_of_ascii "0")) with 48.
  change (Z.of_N (N_of_ascii "x")) with 120.
  cbn [Z.eqb Pos.eqb orb]. now rewrite hex_pairs_digits.
Qed.

Lemma length_hexlify (bs : bytes) :
  length (Ethers.hexlify bs) = (2 + 2 * length bs)%nat.
Proof.
  unfold Ethers.hexlify. rewrite length_app. cbn [js list_ascii_of_string map length].
  f_equal. induction bs as [| b bs IH]; [reflexivity |].
  cbn [flat_map app length]. lia.
Qed.

End HexBytes.

(** ** Strings of ASCII characters *)

Section AsciiStrings.

Lemma toUtf8Bytes_ascii (s : jsstring) :
  Forall is_ascii s -> Ethers.toUtf8Bytes s = Normal s.
Proof.
  induction 1 as [| c s Hc _ IH]; [reflexivity |].
  cbn [Ethers.toUtf8Bytes]. unfold is_ascii in Hc.
  destruct (Z.ltb_spec c 128); [| lia]. now rewrite IH.
Qed.

Lemma toUtf8String_ascii (b : bytes) :
  Forall is_ascii b -> Ethers.toUtf8String b = Normal b.
Proof.
  intros H. unfold Ethers.toUtf8String.
  assert (Ethers.getUtf8CodePoints b = Normal b) as ->.
  { induction H as [| c b Hc _ IH]; [reflexivity |].
    cbn [Ethers.getUtf8CodePoints]. unfold is_ascii in Hc.
    rewrite Z.shiftr_div_pow2 by lia. rewrite Z.div_small by lia.
    cbn [Z.eqb]. now rewrite IH. }
  cbn [cbind]. f_equal.
  induction H as [| c b Hc _ IH]; [reflexivity |].
  cbn [flat_map]. rewrite IH. unfold Ethers.fromCodePoint, is_ascii in *.
  destruct (Z.leb_spec c 65535); [reflexivity | lia].
Qed.

Lemma is_ascii_is_byte (s : list Z) : Forall is_ascii s -> Forall is_byte s.
Proof. apply List.Forall_impl. unfold is_ascii, is_byte. lia. Qed.

Lemma check_codepoint_head res mask k cps :
  Ethers.check_codepoint res mask k = Normal cps ->
  exists r, cps = res :: r /\ mask < res.
Proof.
  unfold Ethers.check_codepoint.
  destruct (0x10ffff <? res); [discriminate |].
  destruct ((0xd800 <=? res) && (res <=? 0xdfff)); [discriminate |].
  destruct (Z.leb_spec res mask); [discriminate |].
  destruct k as [r | e]; cbn [cbind]; [| discriminate].
  intros [= <-]. eauto.
Qed.

Lemma fromCodePoint_not_ascii cp rest :
  128 <= cp -> ~ Forall is_ascii (Ethers.fromCodePoint cp ++ rest).
Proof.
  intros Hcp H. unfold Ethers.fromCodePoint in H.
  destruct (Z.leb_spec cp 65535); cbn [app] in H; apply Forall_inv in H;
    unfold is_ascii in H; [lia |].
  assert (0 <= Z.land (Z.shiftr (cp - 65536) 10) 1023) by (apply Z.land_nonneg; lia).
  lia.
Qed.

(** Bytes that decode to ASCII text are that text: a character of more than
    one byte is never in the ASCII range. *)
Lemma getUtf8CodePoints_ascii_inv (b : bytes) cps :
  Ethers.getUtf8CodePoints b = Normal cps ->
  Forall is_ascii (flat_map Ethers.fromCodePoint cps) ->
  b = flat_map Ethers.fromCodePoint cps.
Proof.
  revert cps. induction b as [| c rest IH]; intros cps.
  - intros [= <-] _. reflexivity.
  - cbn [Ethers.getUtf8CodePoints].
    destruct (Z.shiftr c 7 =? 0) eqn:Hc.
    + destruct (Ethers.getUtf8CodePoints rest) as [r |]; cbn [cbind]; [| discriminate].
      intros [= <-]. cbn [flat_map].
      apply Z.eqb_eq in Hc. rewrite Z.shiftr_div_pow2 in Hc by lia.
      assert (0 <= c < 128) as Hrange.
      { change (2 ^ 7) with 128 in Hc.
        pose proof (Z.div_mod c 128). pose proof (Z.mod_pos_bound c 128). lia. }
      unfold Ethers.fromCodePoint at 1 3.
      destruct (Z.leb_spec c 65535); [| lia]. cbn [app].
      intros Hall. inversion Hall; subst. f_equal. now apply IH.
    + intros H Hascii. exfalso.
      repeat match type of H with
             | (if ?x then _ else _) = _ => destruct x; try discriminate H
             | match ?l with [] => _ | _ :: _ => _ end = _ =>
                 destruct l; try discriminate H
             end.
      all: apply check_codepoint_head in H as (r & -> & Hm);
        cbn [flat_map] in Hascii;
        apply fromCodePoint_not_ascii in Hascii; [exact Hascii | lia].
Qed.

Lemma toUtf8String_ascii_inv (b : bytes) (s : jsstring) :
  Ethers.toUtf8String b = Normal s -> Forall is_ascii s -> b = s.
Proof.
  unfold Ethers.toUtf8String.
  destruct (Ethers.getUtf8CodePoints b) as [cps |] eqn:Hb; cbn [cbind]; [| discriminate].
  intros [= <-]. now apply getUtf8CodePoints_ascii_inv.
Qed.

End AsciiStrings.

(** ** Packing two [uint256] values *)

Section TakePayload.

Lemma getUint_nonneg v n : Ethers.getUint v = Normal n -> 0 <= n.
Proof.
  unfold Ethers.getUint, cbind. destruct (Ethers.getBigInt v) as [m | e]; [| discriminate].
  destruct (0 <=? m) eqn:Hm; [| discriminate].
  intros [= <-]. lia.
Qed.

Lemma be_bytes_bytes n : Forall is_byte (Ethers.be_bytes n).
Proof.
  unfold Ethers.be_bytes. apply List.Forall_forall. intros b Hb.
  apply in_map_iff in Hb as (i & <- & _). apply Z.mod_pos_bound. lia.
Qed.

Lemma uint256_be_bytes n : Forall is_byte (uint256_be n).
Proof.
  unfold uint256_be. apply List.Forall_forall. intros b Hb.
  apply in_map_iff in Hb as (i & <- & _). apply Z.mod_pos_bound. lia.
Qed.

Lemma length_uint256_be n : length (uint256_be n) = 32%nat.
Proof. unfold uint256_be. now rewrite length_map, length_seq. Qed.

Lemma length_be_bytes n : length (Ethers.be_bytes n) = byte_length n.
Proof. unfold Ethers.be_bytes, byte_length. now rewrite length_map, length_seq. Qed.

Lemma below_power_of_byte_length n : 0 < n -> n < 256 ^ Z.of_nat (byte_length n).
Proof.
  intros Hn. unfold byte_length.
  pose proof (Z.log2_nonneg n) as Hl.
  pose proof (Z.log2_spec n Hn) as [_ Hup].
  assert (0 <= Z.log2 n / 8) by (apply Z.div_pos; lia).
  rewrite Z2Nat.id by lia.
  change 256 with (2 ^ 8). rewrite <- Z.pow_mul_r by lia.
  eapply Z.lt_le_trans; [exact Hup |].
  apply Z.pow_le_mono_r; [lia |].
  pose proof (Z.div_mod (Z.log2 n) 8). pose proof (Z.mod_pos_bound (Z.log2 n) 8). lia.
Qed.

Lemma byte_length_le_32 n : 0 < n -> n < 2 ^ 256 -> (byte_length n <= 32)%nat.
Proof.
  intros Hn Hlt. unfold byte_length.
  assert (Z.log2 n < 256) by (apply Z.log2_lt_pow2; lia).
  pose proof (Z.log2_nonneg n).
  assert (Z.log2 n / 8 < 32) by (apply Z.div_lt_upper_bound; lia).
  assert (0 <= Z.log2 n / 8) by (apply Z.div_pos; lia).
  lia.
Qed.

Lemma byte_length_gt_32 n : 2 ^ 256 <= n -> (32 < byte_length n)%nat.
Proof.
  intros Hn. unfold byte_length.
  assert (256 <= Z.log2 n) by (apply Z.log2_le_pow2; lia).
  assert (32 <= Z.log2 n / 8) by (apply Z.div_le_lower_bound; lia).
  lia.
Qed.

Lemma map_seq_zero (f : nat -> Z) (a m : nat) :
  (forall i, (a <= i < a + m)%nat -> f i = 0) -> map f (seq a m) = repeat 0 m.
Proof.
  revert a. induction m as [| m IH]; intros a Hf; [reflexivity |].
  cbn [seq map repeat]. rewrite Hf by lia. f_equal. apply IH. intros i Hi. apply Hf. lia.
Qed.

Lemma map_seq_shift {A} (f g : nat -> A) (a b n : nat) :
  (forall i, (i < n)%nat -> f (a + i)%nat = g (b + i)%nat) ->
  map f (seq a n) = map g (seq b n).
Proof.
  revert a b. induction n as [| n IH]; intros a b Hfg; [reflexivity |].
  cbn [seq map]. f_equal.
  - specialize (Hfg 0%nat). rewrite !Nat.add_0_r in Hfg. apply Hfg. lia.
  - apply IH. intros i Hi. specialize (Hfg (S i)).
    rewrite !Nat.add_succ_r in Hfg. apply Hfg. lia.
Qed.

(** Left-padding the minimal big-endian bytes with zeros gives the 32-byte
    encoding. *)
Lemma zero_padded_be_bytes n :
  0 < n -> n < 2 ^ 256 ->
  repeat 0 (32 - byte_length n) ++ Ethers.be_bytes n = uint256_be n.
Proof.
  intros Hn Hlt.
  pose proof (byte_length_le_32 n Hn Hlt) as Hk.
  pose proof (below_power_of_byte_length n Hn) as Hpow.
  unfold uint256_be, Ethers.be_bytes. fold (byte_length n).
  set (k := byte_length n) in *.
  replace 32%nat with ((32 - k) + k)%nat at 2 by lia.
  rewrite seq_app, map_app. f_equal.
  - symmetry. apply map_seq_zero. intros i Hi.
    rewrite Z.div_small; [reflexivity |]. split; [lia |].
    eapply Z.lt_le_trans; [exact Hpow |].
    apply Z.pow_le_mono_r; lia.
  - apply map_seq_shift. intros i Hi. do 3 f_equal. lia.
Qed.

Lemma pack_uint256 v : Ethers.pack Ethers.uint256 v = encode_uint256 v.
Proof.
  unfold Ethers.pack, Ethers.uint256, encode_uint256, Ethers.toBeArray.
  change (Ethers.valid_size 256) with true. cbn iota.
  change (Z.to_nat (256 / 8)) with 32%nat.
  destruct (Ethers.getUint v) as [n | e] eqn:Hv; cbn [cbind]; [| reflexivity].
  apply getUint_nonneg in Hv.
  destruct (n =? 0) eqn:H0; cbn [cbind].
  - apply Z.eqb_eq in H0. subst n. reflexivity.
  - apply Z.eqb_neq in H0. unfold Ethers.zeroPadValue. rewrite length_be_bytes.
    destruct (n <? 2 ^ 256) eqn:Hlt.
    + apply Z.ltb_lt in Hlt.
      pose proof (byte_length_le_32 n ltac:(lia) Hlt) as Hk.
      apply Nat.leb_le in Hk. rewrite Hk. f_equal.
      apply zero_padded_be_bytes; lia.
    + apply Z.ltb_ge in Hlt.
      pose proof (byte_length_gt_32 n Hlt) as Hk.
      apply Nat.leb_gt in Hk. rewrite Hk. reflexivity.
Qed.

Lemma encode_uint256_bytes v b : encode_uint256 v = Normal b -> Forall is_byte b.
Proof.
  unfold encode_uint256, cbind. destruct (Ethers.getUint v); [| discriminate].
  destruct (_ <? _); [| discriminate]. intros [= <-]. apply uint256_be_bytes.
Qed.

(** Packing and hashing two [uint256] values. *)
Lemma solidityPackedKeccak256_uint256_pair (x y : BigNumberish) :
  Ethers.solidityPackedKeccak256 [Ethers.uint256; Ethers.uint256]
    [x; y]
  = (let* a := encode_uint256 x in
     let* b := encode_uint256 y in
     Normal (Ethers.keccak256 (a ++ b))).
Proof.
  unfold Ethers.solidityPackedKeccak256, Ethers.solidityPacked.
  cbn [length Nat.eqb Ethers.pack_all].
  rewrite !pack_uint256.
  destruct (encode_uint256 x) as [a | e] eqn:Ha; cbn [cbind]; [| reflexivity].
  destruct (encode_uint256 y) as [b | e] eqn:Hb; cbn [cbind]; [| reflexivity].
  rewrite app_nil_r, getBytes_hexlify; [reflexivity |].
  apply Forall_app; split; eauto using encode_uint256_bytes.
Qed.

(** The payload computed in examples/take-job.ts, from two bigints, is the
    same one. *)
Lemma take_job_example_payload (eventsLength targetJobId : Z) :
  Ethers.solidityPackedKeccak256 [Ethers.uint256; Ethers.uint256]
    [BBigInt eventsLength; BBigInt targetJobId]
  = (let* a := encode_uint256 (BBigInt eventsLength) in
     let* b := encode_uint256 (BBigInt targetJobId) in
     Normal (Ethers.keccak256 (a ++ b))).
Proof. apply solidityPackedKeccak256_uint256_pair. Qed.

Example createJobSignatureHash_0_1 :
  CryptoUtils.createJobSignatureHash 0 (BNumber 1) =
  Normal (Ethers.keccak256 (repeat 0 63%nat ++ [1])).
Proof. vm_compute. reflexivity. Qed.

End TakePayload.

(** ** The shape of a Keccak-256 hash *)

Section KeccakShape.

Lemma length_iota rc st : length (Keccak.iota rc st) = length st.
Proof. destruct st; reflexivity. Qed.

Lemma length_round st rc : length (Keccak.round st rc) = 25%nat.
Proof.
  unfold Keccak.round. rewrite length_iota. unfold Keccak.chi, Keccak.lanes.
  now rewrite length_map, length_seq.
Qed.

Lemma length_keccak_f st : length (Keccak.keccak_f st) = 25%nat.
Proof.
  unfold Keccak.keccak_f.
  change Keccak.round_constants
    with (removelast Keccak.round_constants ++ [0x8000000080008008]).
  rewrite fold_left_app. cbn [fold_left]. apply length_round.
Qed.

Lemma length_absorb n st msg :
  length st = 25%nat -> length (Keccak.absorb n st msg) = 25%nat.
Proof.
  revert st msg. induction n as [| n IH]; intros st msg Hst; cbn [Keccak.absorb].
  - exact Hst.
  - apply IH. unfold Keccak.absorb_block. apply length_keccak_f.
Qed.

Lemma lane_bytes_bytes n l : Forall is_byte (Keccak.lane_bytes n l).
Proof.
  revert l. induction n as [| n IH]; intros l; cbn [Keccak.lane_bytes]; constructor.
  - apply Z.mod_pos_bound. lia.
  - apply IH.
Qed.

Lemma length_lane_bytes n l : length (Keccak.lane_bytes n l) = n.
Proof. revert l. induction n as [| n IH]; intros l; cbn; [reflexivity | now rewrite IH]. Qed.

(** A Keccak-256 hash is 32 bytes. *)
Lemma keccak256_shape msg :
  length (Keccak.keccak256 msg) = 32%nat /\ Forall is_byte (Keccak.keccak256 msg).
Proof.
  unfold Keccak.keccak256.
  set (st := Keccak.absorb _ _ _).
  assert (length st = 25%nat) as Hst by (apply length_absorb; reflexivity).
  destruct st as [| a [| b [| c [| d rest]]]]; try discriminate Hst.
  cbn [firstn flat_map]. rewrite app_nil_r. split.
  - rewrite !length_app, !length_lane_bytes. reflexivity.
  - repeat (apply Forall_app; split); apply lane_bytes_bytes.
Qed.

End KeccakShape.

(** ** Reading a hex string as a number *)

Section HexNumbers.

Lemma digit_value_hexdigit n :
  0 <= n < 16 -> Ethers.digit_value (Ethers.hexdigit n) = Some n.
Proof.
  intros Hn. pose proof (hex_value_hexdigit n Hn) as H.
  unfold Ethers.hex_value in H.
  destruct (Ethers.digit_value (Ethers.hexdigit n)) as [d |]; [| discriminate].
  destruct (d <? 16); [exact H | discriminate].
Qed.

Lemma hexdigit_not_white_space n :
  0 <= n < 16 -> Ethers.is_white_space (Ethers.hexdigit n) = false.
Proof.
  intros Hn. rewrite <- (Z2Nat.id n) by lia.
  assert (Z.to_nat n < 16)%nat as Hk by lia.
  revert Hk. generalize (Z.to_nat n) as k. intros k Hk.
  do 16 (destruct k as [| k]; [reflexivity |]). lia.
Qed.

Lemma be_value_from acc (bs : bytes) :
  fold_left (fun a b => a * 256 + b) bs acc
  = acc * 256 ^ Z.of_nat (length bs) + be_value bs.
Proof.
  unfold be_value. revert acc. induction bs as [| b bs IH]; intros acc.
  - cbn. lia.
  - cbn [fold_left length]. rewrite IH, (IH (0 * 256 + b)).
    rewrite Nat2Z.inj_succ, Z.pow_succ_r by lia. lia.
Qed.

Lemma be_value_cons b (bs : bytes) :
  be_value (b :: bs) = b * 256 ^ Z.of_nat (length bs) + be_value bs.
Proof. unfold be_value at 1. cbn [fold_left]. now rewrite be_value_from. Qed.

Lemma be_value_bound (bs : bytes) :
  Forall is_byte bs -> 0 <= be_value bs < 256 ^ Z.of_nat (length bs).
Proof.
  induction 1 as [| b bs Hb _ IH]; [cbn; lia |].
  rewrite be_value_cons. cbn [length]. rewrite Nat2Z.inj_succ, Z.pow_succ_r by lia.
  unfold is_byte in Hb. nia.
Qed.

Lemma parse_digits_hex acc (bs : bytes) :
  Forall is_byte bs ->
  Ethers.parse_digits 16 acc (IPFSUtils.toHex bs)
  = Some (fold_left (fun a b => a * 256 + b) bs acc).
Proof.
  intros H. revert acc. induction H as [| b bs Hb _ IH]; intros acc; [reflexivity |].
  unfold is_byte in Hb.
  assert (0 <= b / 16 < 16)
    by (split; [apply Z.div_pos; lia | apply Z.div_lt_upper_bound; lia]).
  assert (0 <= b mod 16 < 16) by (apply Z.mod_pos_bound; lia).
  cbn [IPFSUtils.toHex flat_map app Ethers.parse_digits fold_left].
  rewrite !digit_value_hexdigit by assumption.
  destruct (Z.ltb_spec (b / 16) 16); [| lia].
  destruct (Z.ltb_spec (b mod 16) 16); [| lia].
  fold (IPFSUtils.toHex bs). rewrite IH. do 2 f_equal.
  pose proof (Z.div_mod b 16). lia.
Qed.

Lemma trim_start_head c (s : jsstring) :
  Ethers.is_white_space c = false -> Ethers.trim_start (c :: s) = c :: s.
Proof. intros H. cbn [Ethers.trim_start]. now rewrite H. Qed.

Lemma trim_no_white_space c (mid : jsstring) d :
  Ethers.is_white_space c = false -> Ethers.is_white_space d = false ->
  Ethers.trim (c :: mid ++ [d]) = c :: mid ++ [d].
Proof.
  intros Hc Hd. unfold Ethers.trim. rewrite trim_start_head by assumption.
  change (c :: mid ++ [d]) with ((c :: mid) ++ [d]).
  rewrite rev_app_distr. cbn [rev app]. rewrite trim_start_head by assumption.
  cbn [rev]. rewrite rev_app_distr, rev_involutive. reflexivity.
Qed.

(** A hex string has no white space to trim. *)
Lemma trim_hexlify b (bs : bytes) :
  Forall is_byte (b :: bs) -> Ethers.trim (Ethers.hexlify (b :: bs)) = Ethers.hexlify (b :: bs).
Proof.
  intros H.
  destruct (exists_last (l := b :: bs) ltac:(discriminate)) as (front & z & Hz).
  assert (Ethers.hexlify (b :: bs)
          = 48 :: (120 :: IPFSUtils.toHex front ++ [Ethers.hexdigit (z / 16)])
               ++ [Ethers.hexdigit (z mod 16)]) as ->.
  { change (Ethers.hexlify (b :: bs)) with (48 :: 120 :: IPFSUtils.toHex (b :: bs)).
    rewrite Hz. unfold IPFSUtils.toHex. rewrite flat_map_app. cbn [flat_map app].
    now rewrite <- app_assoc. }
  apply trim_no_white_space; [reflexivity |].
  rewrite Hz in H. apply Forall_app in H as [_ Hlast]. apply Forall_inv in Hlast.
  apply hexdigit_not_white_space. unfold is_byte in Hlast. apply Z.mod_pos_bound. lia.
Qed.

Lemma getBigInt_hexlify (bs : bytes) :
  Forall is_byte bs -> bs <> [] ->
  Ethers.getBigInt (BString (Ethers.hexlify bs)) = Normal (be_value bs).
Proof.
  intros H Hne. destruct bs as [| b bs]; [congruence |].
  unfold Ethers.getBigInt, Ethers.StringToBigInt.
  rewrite trim_hexlify by assumption.
  change (Ethers.hexlify (b :: bs)) with (48 :: 120 :: IPFSUtils.toHex (b :: bs)).
  cbn [Z.eqb Pos.eqb andb orb negb].
  unfold Ethers.parse_literal.
  change (IPFSUtils.toHex (b :: bs))
    with (Ethers.hexdigit (b / 16) :: Ethers.hexdigit (b mod 16) :: IPFSUtils.toHex bs) at 1.
  cbv iota. now rewrite parse_digits_hex.
Qed.

(** The digits of a number written in base 256 are its bytes. *)
Lemma digits_be_value (bs : bytes) :
  Forall is_byte bs ->
  map (fun i => (be_value bs / 256 ^ Z.of_nat (length bs - 1 - i)) mod 256)
      (seq 0 (length bs))
  = bs.
Proof.
  induction 1 as [| b bs Hb Hbs IH]; [reflexivity |].
  pose proof (be_value_bound bs Hbs) as Hr. unfold is_byte in Hb.
  set (n := length bs) in *. cbn [length]. fold n. cbn [seq map]. f_equal.
  - replace (S n - 1 - 0)%nat with n by lia. rewrite be_value_cons. fold n.
    rewrite Z.div_add_l by lia. rewrite (Z.div_small (be_value bs)) by lia.
    rewrite Z.add_0_r. apply Z.mod_small. lia.
  - etransitivity; [| exact IH]. apply map_seq_shift. intros i Hi.
    replace (S n - 1 - (1 + i))%nat with (n - 1 - i)%nat by lia.
    replace (n - 1 - (0 + i))%nat with (n - 1 - i)%nat by lia.
    rewrite be_value_cons. fold n.
    replace (Z.of_nat n) with (Z.of_nat (S i) + Z.of_nat (n - 1 - i)) by lia.
    rewrite Z.pow_add_r by lia. rewrite Z.mul_assoc.
    rewrite Z.div_add_l by lia.
    rewrite Nat2Z.inj_succ, Z.pow_succ_r by lia.
    replace (b * (256 * 256 ^ Z.of_nat i)) with ((b * 256 ^ Z.of_nat i) * 256) by lia.
    rewrite Z.add_comm. apply Z_mod_plus_full.
Qed.

Lemma byte_length_be_value b (bs : bytes) :
  Forall is_byte (b :: bs) -> b <> 0 ->
  byte_length (be_value (b :: bs)) = length (b :: bs).
Proof.
  intros H Hb. pose proof (be_value_bound _ H) as Hup.
  inversion H as [| ? ? Hb' Hbs]; subst. pose proof (be_value_bound _ Hbs) as Hr.
  unfold is_byte in Hb'. rewrite be_value_cons in *. cbn [length] in *.
  set (n := length bs) in *. set (v := b * 256 ^ Z.of_nat n + be_value bs) in *.
  assert (256 ^ Z.of_nat n <= v) as Hlow by (subst v; nia).
  assert (0 < v) as Hpos by (pose proof (Z.pow_pos_nonneg 256 (Z.of_nat n)); lia).
  assert (8 * Z.of_nat n <= Z.log2 v) as Hl1.
  { apply Z.log2_le_pow2; [lia |]. rewrite Z.pow_mul_r by lia. exact Hlow. }
  assert (Z.log2 v < 8 * Z.of_nat (S n)) as Hl2.
  { apply Z.log2_lt_pow2; [lia |]. rewrite Z.pow_mul_r by lia. apply Hup. }
  unfold byte_length.
  assert (Z.log2 v / 8 = Z.of_nat n) as ->; [| lia].
  symmetry. apply Z.div_unique with (r := Z.log2 v - 8 * Z.of_nat n); lia.
Qed.

Lemma be_bytes_be_value b (bs : bytes) :
  Forall is_byte (b :: bs) -> b <> 0 ->
  Ethers.be_bytes (be_value (b :: bs)) = b :: bs.
Proof.
  intros H Hb. unfold Ethers.be_bytes. fold (byte_length (be_value (b :: bs))).
  rewrite byte_length_be_value by assumption. now apply digits_be_value.
Qed.

Lemma be_value_drop_leading_zeros (bs : bytes) :
  be_value (drop_leading_zeros bs) = be_value bs.
Proof.
  induction bs as [| b bs IH]; [reflexivity |].
  destruct b; cbn [drop_leading_zeros]; try reflexivity.
  rewrite IH, be_value_cons. lia.
Qed.

Lemma drop_leading_zeros_bytes (bs : bytes) :
  Forall is_byte bs -> Forall is_byte (drop_leading_zeros bs).
Proof.
  induction 1 as [| b bs Hb Hbs IH]; [constructor |].
  destruct b; cbn [drop_leading_zeros]; auto.
Qed.

Lemma length_drop_leading_zeros (bs : bytes) :
  (length (drop_leading_zeros bs) <= length bs)%nat.
Proof.
  induction bs as [| b bs IH]; [reflexivity |].
  destruct b; cbn [drop_leading_zeros length]; lia.
Qed.

(** [toBeArray] on a hex string: the bytes it denotes, less the leading
    zero bytes; the string "0x" is rejected. *)
Lemma toBeArray_hexlify (bs : bytes) :
  Forall is_byte bs -> bs <> [] ->
  Ethers.toBeArray (BString (Ethers.hexlify bs)) = Normal (drop_leading_zeros bs).
Proof.
  intros H Hne. unfold Ethers.toBeArray, Ethers.getUint.
  rewrite getBigInt_hexlify by assumption. cbn [cbind].
  pose proof (be_value_bound bs H) as [Hnn _].
  destruct (Z.leb_spec 0 (be_value bs)); [| lia]. cbn [cbind].
  rewrite <- be_value_drop_leading_zeros.
  pose proof (drop_leading_zeros_bytes bs H) as Hd.
  destruct (drop_leading_zeros bs) as [| b rest] eqn:Hdrop; [reflexivity |].
  assert (b <> 0) as Hb.
  { intros ->. clear - Hdrop. induction bs as [| c bs IH]; [discriminate |].
    destruct c; cbn [drop_leading_zeros] in Hdrop; try discriminate; auto. }
  assert (0 < be_value (b :: rest)).
  { rewrite be_value_cons. inversion Hd as [| ? ? Hb' Hrest]; subst.
    pose proof (be_value_bound rest Hrest). unfold is_byte in Hb'.
    pose proof (Z.pow_pos_nonneg 256 (Z.of_nat (length rest))). nia. }
  destruct (Z.eqb_spec (be_value (b :: rest)) 0); [lia |].
  now rewrite be_bytes_be_value.
Qed.

Lemma toBeArray_0x : Ethers.toBeArray (BString (Ethers.hexlify []))
                     = Throw (newTypeError "invalid BigNumberish string").
Proof. reflexivity. Qed.

End HexNumbers.

(** ** C1: the hash of a Take, value by value

    What [createJobSignatureHash] returns is stated on the integers its
    arguments stand for, without going through the parsing of ethers. *)

Section TakeHash.

Lemma digit_value_decimal d : decimal_digit d -> Ethers.digit_value (48 + d) = Some d.
Proof.
  unfold decimal_digit, Ethers.digit_value. intros Hd.
  destruct (Z.leb_spec 48 (48 + d)); [| lia].
  destruct (Z.leb_spec (48 + d) 57); [| lia]. cbn [andb]. f_equal. lia.
Qed.

Lemma decimal_digit_not_white_space d :
  decimal_digit d -> Ethers.is_white_space (48 + d) = false.
Proof.
  unfold decimal_digit. intros Hd.
  assert (d = 0 \/ d = 1 \/ d = 2 \/ d = 3 \/ d = 4 \/ d = 5 \/ d = 6 \/ d = 7 \/ d = 8
          \/ d = 9) as H by lia.
  repeat (destruct H as [-> | H]; [reflexivity |]). now subst.
Qed.

Lemma parse_digits_numeral acc (ds : list Z) :
  Forall decimal_digit ds ->
  Ethers.parse_digits 10 acc (numeral ds) = Some (fold_left (fun a d => a * 10 + d) ds acc).
Proof.
  intros H. revert acc. induction H as [| d ds Hd _ IH]; intros acc; [reflexivity |].
  cbn [numeral map Ethers.parse_digits fold_left]. rewrite digit_value_decimal by assumption.
  unfold decimal_digit in Hd. destruct (Z.ltb_spec d 10); [| lia]. apply IH.
Qed.

Lemma trim_single c : Ethers.is_white_space c = false -> Ethers.trim [c] = [c].
Proof.
  intros H. unfold Ethers.trim. rewrite trim_start_head by assumption. cbn [rev app].
  now rewrite trim_start_head.
Qed.

Lemma trim_numeral (ds : list Z) :
  ds <> [] -> Forall decimal_digit ds -> Ethers.trim (numeral ds) = numeral ds.
Proof.
  intros Hne H. destruct ds as [| d ds]; [congruence |].
  apply Forall_cons in H as [Hd H].
  destruct ds as [| d' ds'].
  - apply trim_single. now apply decimal_digit_not_white_space.
  - destruct (exists_last (l := d' :: ds') ltac:(discriminate)) as (mid & z & Hz).
    rewrite Hz in *. apply Forall_app in H as [_ Hlast]. apply List.Forall_inv in Hlast.
    unfold numeral. cbn [map]. rewrite map_app. cbn [map].
    apply trim_no_white_space; now apply decimal_digit_not_white_space.
Qed.

Lemma StringToBigInt_numeral (ds : list Z) :
  ds <> [] -> Forall decimal_digit ds ->
  Ethers.StringToBigInt (numeral ds) = Some (decimal_value ds).
Proof.
  intros Hne H. unfold Ethers.StringToBigInt. rewrite trim_numeral by assumption.
  pose proof (parse_digits_numeral 0 ds H) as Hparse. fold (decimal_value ds) in Hparse.
  destruct ds as [| d ds]; [congruence |].
  pose proof H as Hall. apply Forall_cons in H as [Hd H]. unfold decimal_digit in Hd.
  assert (d = 0 \/ d = 1 \/ d = 2 \/ d = 3 \/ d = 4 \/ d = 5 \/ d = 6 \/ d = 7 \/ d = 8
          \/ d = 9) as Hcase by lia.
  destruct Hcase as [-> | Hcase].
  - destruct ds as [| d' ds']; [exact Hparse |].
    apply Forall_cons in H as [Hd' _]. unfold decimal_digit in Hd'.
    change (numeral (0 :: d' :: ds')) with (48 :: (48 + d') :: numeral ds') in *.
    cbv iota.
    destruct (Z.eqb_spec (48 + d') 120); [lia |].
    destruct (Z.eqb_spec (48 + d') 88); [lia |].
    destruct (Z.eqb_spec (48 + d') 111); [lia |].
    destruct (Z.eqb_spec (48 + d') 79); [lia |].
    destruct (Z.eqb_spec (48 + d') 98); [lia |].
    destruct (Z.eqb_spec (48 + d') 66); [lia |].
    cbn [orb]. exact Hparse.
  - repeat (destruct Hcase as [-> | Hcase]; [exact Hparse |]). subst. exact Hparse.
Qed.

Lemma getBigInt_numeral (ds : list Z) :
  ds <> [] -> Forall decimal_digit ds ->
  Ethers.getBigInt (BString (numeral ds)) = Normal (decimal_value ds).
Proof.
  intros Hne H. pose proof (StringToBigInt_numeral ds Hne H) as Hs.
  destruct ds as [| d ds]; [congruence |].
  unfold Ethers.getBigInt. change (numeral (d :: ds)) with (48 + d :: numeral ds) in *.
  apply Forall_cons in H as [Hd _]. unfold decimal_digit in Hd.
  destruct (Z.eqb_spec (48 + d) 45); [lia |]. cbn [andb]. now rewrite Hs.
Qed.

Lemma decimal_value_nonneg (ds : list Z) : Forall decimal_digit ds -> 0 <= decimal_value ds.
Proof.
  intros H. unfold decimal_value.
  assert (forall acc, 0 <= acc -> 0 <= fold_left (fun a d => a * 10 + d) ds acc) as Hacc.
  { induction H as [| d ds Hd _ IH]; intros acc Hacc; [exact Hacc |].
    cbn [fold_left]. apply IH. unfold decimal_digit in Hd. lia. }
  apply Hacc. lia.
Qed.

(** A value that stands for an integer is read as that integer, unless it is
    a number that is not safe. *)
Lemma getBigInt_denotes (v : BigNumberish) (j : Z) :
  denotes v j -> safe_integer v -> Ethers.getBigInt v = Normal j.
Proof.
  intros [n | n | ds Hne Hds | bs Hne Hbs] Hsafe.
  - cbn [safe_integer] in Hsafe. unfold Ethers.getBigInt.
    destruct (Z.leb_spec (- Ethers.maxValue) n), (Z.leb_spec n Ethers.maxValue);
      unfold Ethers.maxValue in *; (reflexivity || lia).
  - reflexivity.
  - now apply getBigInt_numeral.
  - now apply getBigInt_hexlify.
Qed.

Lemma getBigInt_unsafe (n : Z) :
  ~ safe_integer (BNumber n) ->
  Ethers.getBigInt (BNumber n) = Throw (newTypeError "overflow").
Proof.
  cbn [safe_integer]. intros Hn. unfold Ethers.getBigInt.
  destruct (Z.leb_spec (- Ethers.maxValue) n), (Z.leb_spec n Ethers.maxValue);
    unfold Ethers.maxValue in *; (reflexivity || lia).
Qed.

(** The encoding of a value that stands for [j]: the 32 bytes of [j] when it
    is a safe value in the range of [uint256], and no encoding otherwise. *)
Lemma encode_uint256_denotes (v : BigNumberish) (j : Z) :
  denotes v j ->
  (safe_integer v /\ 0 <= j < 2 ^ 256 -> encode_uint256 v = Normal (uint256_be j))
  /\ (~ (safe_integer v /\ 0 <= j < 2 ^ 256) -> exists e, encode_uint256 v = Throw e).
Proof.
  intros Hv. unfold encode_uint256, Ethers.getUint. split.
  - intros (Hsafe & H0 & Hlt). rewrite (getBigInt_denotes v j Hv Hsafe). cbn [cbind].
    destruct (Z.leb_spec 0 j); [| lia]. cbn [cbind].
    destruct (Z.ltb_spec j (2 ^ 256)); [reflexivity | lia].
  - intros Hno.
    assert (safe_integer v \/ ~ safe_integer v) as [Hsafe | Hunsafe]
      by (destruct v; cbn [safe_integer]; [lia | now left | now left]).
    + rewrite (getBigInt_denotes v j Hv Hsafe). cbn [cbind].
      destruct (Z.leb_spec 0 j); cbn [cbind]; [| eauto].
      destruct (Z.ltb_spec j (2 ^ 256)); [| eauto]. tauto.
    + destruct v as [n | n | s]; try (now destruct Hunsafe).
      rewrite (getBigInt_unsafe n Hunsafe). cbn [cbind]. eauto.
Qed.

End TakeHash.

(** C1, as the code has it.  For every events length that is a safe
    non-negative integer and every job id that stands for an integer in the
    range of [uint256] (a safe number, a bigint, a string of decimal digits
    or a hex string), [createJobSignatureHash] returns the Keccak-256 hash of
    the 32 big-endian bytes of the events length followed by the 32
    big-endian bytes of the job id.  For any other events length or job id it
    throws. *)
Theorem createJobSignatureHash_is_packed_keccak256
    (eventsLength : Z) (jobId : BigNumberish) (j : Z) :
  denotes jobId j ->
  (0 <= eventsLength < 2 ^ 53 /\ safe_integer jobId /\ 0 <= j < 2 ^ 256 ->
   CryptoUtils.createJobSignatureHash eventsLength jobId
   = Normal (take_payload eventsLength j))
  /\ (~ (0 <= eventsLength < 2 ^ 53 /\ safe_integer jobId /\ 0 <= j < 2 ^ 256) ->
      exists e, CryptoUtils.createJobSignatureHash eventsLength jobId = Throw e).
Proof.
  intros Hj. unfold CryptoUtils.createJobSignatureHash.
  rewrite solidityPackedKeccak256_uint256_pair.
  destruct (encode_uint256_denotes (BNumber eventsLength) eventsLength
              (number_denotes eventsLength)) as [He He'].
  destruct (encode_uint256_denotes jobId j Hj) as [Hv Hv'].
  cbn [safe_integer] in He, He'. split.
  - intros (Hlen & Hsafe & Hrange). rewrite He by lia. cbn [cbind].
    rewrite Hv by tauto. reflexivity.
  - intros Hno.
    assert (0 <= eventsLength < 2 ^ 53 \/ ~ 0 <= eventsLength < 2 ^ 53) as [Hlen | Hlen] by lia.
    + rewrite He by lia. cbn [cbind].
      destruct Hv' as [e ->]; [tauto | eauto].
    + destruct He' as [e ->]; [lia | eauto].
Qed.

Lemma createJobSignatureHash_is_packed_keccak256_witness :
  CryptoUtils.createJobSignatureHash 3 (BNumber 7) = Normal (take_payload 3 7).
Proof.
  apply (createJobSignatureHash_is_packed_keccak256 3 (BNumber 7) 7 (number_denotes 7)).
  cbn [safe_integer]. lia.
Defined.

(** C1 at [eventsLength = 2 ^ 53], [jobId = 1].  The pair has a [uint256]
    encoding, and the claim's hash with it; the code throws, because ethers
    refuses a number above [Number.MAX_SAFE_INTEGER]. *)
Lemma createJobSignatureHash_throws_at_unsafe_events_length :
  denotes (BNumber (2 ^ 53)) (2 ^ 53) /\ denotes (BNumber 1) 1
  /\ 0 <= 2 ^ 53 < 2 ^ 256 /\ 0 <= 1 < 2 ^ 256
  /\ CryptoUtils.createJobSignatureHash (2 ^ 53) (BNumber 1)
     = Throw (newTypeError "overflow")
  /\ CryptoUtils.createJobSignatureHash (2 ^ 53) (BNumber 1)
     <> Normal (take_payload (2 ^ 53) 1).
Proof.
  assert (CryptoUtils.createJobSignatureHash (2 ^ 53) (BNumber 1)
          = Throw (newTypeError "overflow")) as H by reflexivity.
  split; [constructor |]. split; [constructor |]. split; [lia |]. split; [lia |].
  split; [exact H |]. rewrite H. discriminate.
Qed.

(** ** What the two signing paths hand to the signer *)

Section SignedMessages.

Lemma hexdigit_ascii n : 0 <= n < 16 -> is_ascii (Ethers.hexdigit n).
Proof. intros Hn. unfold Ethers.hexdigit, is_ascii. destruct (n <? 10); lia. Qed.

Lemma hexlify_ascii (bs : bytes) : Forall is_byte bs -> Forall is_ascii (Ethers.hexlify bs).
Proof.
  intros H. unfold Ethers.hexlify. apply Forall_app. split.
  - repeat constructor; unfold is_ascii; cbn; lia.
  - induction H as [| b bs Hb _ IH]; [constructor |]. unfold is_byte in Hb.
    cbn [flat_map app]. constructor; [| constructor; [| exact IH]]; apply hexdigit_ascii.
    + split; [apply Z.div_pos; lia | apply Z.div_lt_upper_bound; lia].
    + apply Z.mod_pos_bound. lia.
Qed.

Lemma decimal_aux_ascii fuel n acc :
  0 <= n -> Forall is_ascii acc ->
  Forall is_ascii (Ethers.decimal_aux fuel n acc)
  /\ (length (Ethers.decimal_aux fuel n acc) <= fuel + length acc)%nat.
Proof.
  revert n acc. induction fuel as [| fuel IH]; intros n acc Hn Hacc; cbn [Ethers.decimal_aux].
  - split; [exact Hacc | lia].
  - assert (is_ascii (48 + n mod 10))
      by (unfold is_ascii; pose proof (Z.mod_pos_bound n 10); lia).
    destruct (n <? 10).
    + split; [now constructor | cbn [length]; lia].
    + destruct (IH (n / 10) ((48 + n mod 10) :: acc)) as [Ha Hl].
      * apply Z.div_pos; lia.
      * now constructor.
      * split; [exact Ha | cbn [length] in Hl; lia].
Qed.

Lemma hash_shape (eventsLength : Z) (jobId : BigNumberish) h :
  CryptoUtils.createJobSignatureHash eventsLength jobId = Normal h ->
  exists bs, h = Ethers.hexlify bs /\ length bs = 32%nat /\ Forall is_byte bs.
Proof.
  unfold CryptoUtils.createJobSignatureHash.
  rewrite solidityPackedKeccak256_uint256_pair. unfold cbind.
  destruct (encode_uint256 (BNumber eventsLength)); [| discriminate].
  destruct (encode_uint256 jobId); [| discriminate].
  intros [= <-]. eexists. split; [reflexivity |]. apply keccak256_shape.
Qed.

(** For every events length and job id, the client's [createJobSignature]
    has the 66 characters of the hash's text signed, a message of 94 bytes,
    and [signJobTaking] the bytes of the hash, a message of at most 64
    bytes. *)
Lemma signed_messages_differ (eventsLength : Z) (jobId : BigNumberish) h :
  CryptoUtils.createJobSignatureHash eventsLength jobId = Normal h ->
  exists arr text_message bytes_message,
    Ethers.toBeArray (BString h) = Normal arr
    /\ Ethers.messageBytes (Ethers.MsgString h) = Normal text_message
    /\ Ethers.messageBytes (Ethers.MsgBytes arr) = Normal bytes_message
    /\ length text_message = 94%nat
    /\ (length bytes_message <= 64)%nat.
Proof.
  intros Hh. apply hash_shape in Hh as (bs & -> & Hlen & Hbytes).
  assert (bs <> []) as Hne by (intros ->; discriminate Hlen).
  rewrite toBeArray_hexlify by assumption.
  pose proof (length_drop_leading_zeros bs) as Hdrop. rewrite Hlen in Hdrop.
  set (arr := drop_leading_zeros bs) in *.
  destruct (decimal_aux_ascii (S (Z.to_nat (Z.log2 (Z.of_nat (length arr)))))
              (Z.of_nat (length arr)) [] ltac:(lia) ltac:(constructor)) as [Hascii Hdigits].
  fold (Ethers.decimal_digits (Z.of_nat (length arr))) in Hascii, Hdigits.
  exists arr, (Ethers.MessagePrefix ++ [54; 54] ++ Ethers.hexlify bs),
    (Ethers.MessagePrefix ++ Ethers.decimal_digits (Z.of_nat (length arr)) ++ arr).
  split; [reflexivity |]. split; [| split; [| split]].
  - unfold Ethers.messageBytes.
    rewrite (toUtf8Bytes_ascii (Ethers.hexlify bs)) by now apply hexlify_ascii.
    cbn [cbind]. rewrite length_hexlify, Hlen. reflexivity.
  - unfold Ethers.messageBytes. cbn [cbind].
    change (Ethers.toUtf8Bytes Ethers.MessagePrefix) with (Normal Ethers.MessagePrefix).
    cbn [cbind]. now rewrite (toUtf8Bytes_ascii _ Hascii).
  - rewrite !length_app, length_hexlify, Hlen. reflexivity.
  - rewrite !length_app. change (length Ethers.MessagePrefix) with 26%nat.
    cbn [length] in Hdigits.
    assert (Z.log2 (Z.of_nat (length arr)) <= 5).
    { destruct (Z.eq_dec (Z.of_nat (length arr)) 0) as [-> | ?]; [cbn; lia |].
      apply Z.lt_succ_r. apply Z.log2_lt_pow2; lia. }
    pose proof (Z.log2_nonneg (Z.of_nat (length arr))). lia.
Qed.

Lemma createJobSignature_signs_text (this : EACCClient) (s : Ethers.Signer)
    (eventsLength : Z) (jobId : BigNumberish) h :
  signer (wallet this) = Some s ->
  CryptoUtils.createJobSignatureHash eventsLength jobId = Normal h ->
  EACCClient.createJobSignature eventsLength jobId this
  = Ret (Ethers.signMessage s (Ethers.MsgString h), this).
Proof.
  intros Hs Hh. unfold EACCClient.createJobSignature.
  cbn -[CryptoUtils.createJobSignatureHash Ethers.signMessage].
  rewrite Hs. cbn -[CryptoUtils.createJobSignatureHash Ethers.signMessage].
  rewrite Hs. cbn -[CryptoUtils.createJobSignatureHash Ethers.signMessage].
  rewrite Hh. reflexivity.
Qed.

Lemma signJobTaking_signs_bytes (s : Ethers.Signer)
    (eventsLength : Z) (jobId : BigNumberish) h arr :
  CryptoUtils.createJobSignatureHash eventsLength jobId = Normal h ->
  Ethers.toBeArray (BString h) = Normal arr ->
  CryptoUtils.signJobTaking s eventsLength jobId
  = CryptoUtils.signMessage s (Ethers.MsgBytes arr).
Proof.
  intros Hh Harr. unfold CryptoUtils.signJobTaking. rewrite Hh. cbn [cbind].
  now rewrite Harr.
Qed.

End SignedMessages.

(** ** C3: the two ways to sign a Take *)

(** C3 at [eventsLength = 0], [jobId = 1].  Both paths start from the same
    hash.  The client hands the signer the hash as text, so the 66
    characters of the hex string are signed; [signJobTaking] hands it the 32
    bytes the string denotes.  The two signed messages differ, and so do the
    signatures of a signer that signs what it is given. *)
Theorem createJobSignature_differs_from_signJobTaking :
  let hash := Keccak.keccak256 (repeat 0 63%nat ++ [1]) in
  CryptoUtils.createJobSignatureHash 0 (BNumber 1) = Normal (Ethers.hexlify hash)
  /\ EACCClient.createJobSignature 0 (BNumber 1) Sample.connected_client
     = Ret (Ethers.signMessage Sample.transparent_signer
              (Ethers.MsgString (Ethers.hexlify hash)),
            Sample.connected_client)
  /\ CryptoUtils.signJobTaking Sample.transparent_signer 0 (BNumber 1)
     = Ethers.signMessage Sample.transparent_signer (Ethers.MsgBytes hash)
  /\ Ethers.signMessage Sample.transparent_signer (Ethers.MsgString (Ethers.hexlify hash))
     <> Ethers.signMessage Sample.transparent_signer (Ethers.MsgBytes hash).
Proof.
  cbv zeta. split; [| split; [| split]].
  - vm_compute. reflexivity.
  - vm_compute. reflexivity.
  - vm_compute. reflexivity.
  - vm_compute. discriminate.
Qed.

(** ** The XOR key stream *)

Section KeyStream.

Lemma lxor_byte a b : is_byte a -> is_byte b -> is_byte (Z.lxor a b).
Proof.
  unfold is_byte. intros [Ha Ha'] [Hb Hb']. split.
  - apply Z.lxor_nonneg. lia.
  - assert (forall x, 0 <= x < 256 -> Z.log2 x < 8) as Hlog.
    { intros x Hx. destruct (Z.eq_dec x 0) as [-> | ?]; [cbn; lia |].
      apply Z.log2_lt_pow2; lia. }
    destruct (Z.eq_dec (Z.lxor a b) 0) as [-> | Hne]; [lia |].
    assert (0 <= Z.lxor a b) by (apply Z.lxor_nonneg; lia).
    apply (Z.log2_lt_pow2 _ 8); [lia |].
    pose proof (Z.log2_lxor a b Ha Hb). pose proof (Hlog a). pose proof (Hlog b). lia.
Qed.

Lemma nth_is_byte (l : bytes) i : Forall is_byte l -> is_byte (nth i l 0).
Proof.
  intros H. revert i. induction H as [| b l Hb _ IH]; intros [| i]; cbn [nth];
    auto; unfold is_byte; lia.
Qed.

Lemma nth_map_seq (g : nat -> Z) n i : (i < n)%nat -> nth i (map g (seq 0 n)) 0 = g i.
Proof.
  intros Hi. rewrite (nth_indep _ 0 (g 0%nat)) by (rewrite length_map, length_seq; lia).
  rewrite map_nth, seq_nth by lia. reflexivity.
Qed.

Lemma length_xor_with_key (d k : bytes) :
  length (CryptoUtils.xor_with_key d k) = length d.
Proof. unfold CryptoUtils.xor_with_key. now rewrite length_map, length_seq. Qed.

Lemma xor_with_key_bytes (d k : bytes) :
  Forall is_byte d -> Forall is_byte k -> Forall is_byte (CryptoUtils.xor_with_key d k).
Proof.
  intros Hd Hk. unfold CryptoUtils.xor_with_key. apply List.Forall_forall.
  intros x Hx. apply in_map_iff in Hx as (i & <- & _).
  apply lxor_byte; now apply nth_is_byte.
Qed.

(** Applying the key stream twice gives the bytes back. *)
Lemma xor_with_key_involutive (d k : bytes) :
  CryptoUtils.xor_with_key (CryptoUtils.xor_with_key d k) k = d.
Proof.
  apply (nth_ext _ _ 0 0).
  - now rewrite !length_xor_with_key.
  - intros i Hi. rewrite !length_xor_with_key in Hi.
    unfold CryptoUtils.xor_with_key at 1. rewrite length_xor_with_key.
    rewrite nth_map_seq by exact Hi.
    unfold CryptoUtils.xor_with_key. rewrite nth_map_seq by exact Hi.
    now rewrite Z.lxor_assoc, Z.lxor_nilpotent, Z.lxor_0_r.
Qed.

Lemma drop_leading_zeros_nonzero_head b (bs : bytes) :
  b <> 0 -> drop_leading_zeros (b :: bs) = b :: bs.
Proof. intros Hb. destruct b; [congruence | reflexivity | reflexivity]. Qed.

(** The key stream of [simpleEncrypt] and [simpleDecrypt]: the Keccak-256
    hash of the key, read as a number. *)
Lemma key_stream (key : jsstring) (kb : bytes) :
  Ethers.toUtf8Bytes key = Normal kb ->
  CryptoUtils.keccak256 key = Normal (Ethers.hexlify (Keccak.keccak256 kb))
  /\ Ethers.toBeArray (BString (Ethers.hexlify (Keccak.keccak256 kb)))
     = Normal (drop_leading_zeros (Keccak.keccak256 kb)).
Proof.
  intros Hk. unfold CryptoUtils.keccak256. rewrite Hk. split; [reflexivity |].
  destruct (keccak256_shape kb) as [Hlen Hb].
  apply toBeArray_hexlify; [exact Hb |]. intros Hnil. now rewrite Hnil in Hlen.
Qed.

(** On ASCII text that is not empty and whose first character differs from
    the first byte of the key stream, [simpleDecrypt] inverts
    [simpleEncrypt]. *)
Lemma simpleDecrypt_simpleEncrypt_ascii (data key : jsstring) (kb : bytes) :
  Ethers.toUtf8Bytes key = Normal kb ->
  Forall is_ascii data -> data <> [] ->
  nth 0 data 0 <> nth 0 (drop_leading_zeros (Keccak.keccak256 kb)) 0 ->
  (let* e := CryptoUtils.simpleEncrypt data key in CryptoUtils.simpleDecrypt e key)
  = Normal data.
Proof.
  intros Hk Hdata Hne Hfirst.
  destruct (key_stream key kb Hk) as [Hhash Hkey].
  set (K := drop_leading_zeros (Keccak.keccak256 kb)) in *.
  assert (Forall is_byte K) as HK
    by (apply drop_leading_zeros_bytes, keccak256_shape).
  unfold CryptoUtils.simpleEncrypt. rewrite Hhash. cbn [cbind].
  rewrite (toUtf8Bytes_ascii data Hdata). cbn [cbind]. rewrite Hkey. cbn [cbind].
  unfold CryptoUtils.simpleDecrypt. rewrite Hhash. cbn [cbind].
  pose proof (xor_with_key_bytes data K (is_ascii_is_byte _ Hdata) HK) as HC.
  pose proof (xor_with_key_involutive data K) as Hinv.
  destruct data as [| d0 rest]; [congruence |].
  assert (exists c0 crest, CryptoUtils.xor_with_key (d0 :: rest) K = c0 :: crest
                           /\ c0 <> 0) as (c0 & crest & HCeq & Hc0).
  { unfold CryptoUtils.xor_with_key. cbn [length seq map nth]. do 2 eexists.
    split; [reflexivity |]. rewrite Nat.Div0.mod_0_l. cbn [nth] in Hfirst.
    intros Hx. apply Z.lxor_eq in Hx. congruence. }
  rewrite HCeq in *.
  rewrite toBeArray_hexlify by (exact HC || discriminate).
  rewrite drop_leading_zeros_nonzero_head by exact Hc0. cbn [cbind].
  rewrite Hkey. cbn [cbind]. rewrite Hinv. now apply toUtf8String_ascii.
Qed.

Lemma drop_leading_zeros_zero_head (bs : bytes) :
  (length (drop_leading_zeros (0%Z :: bs)) <= length bs)%nat.
Proof. cbn [drop_leading_zeros]. apply length_drop_leading_zeros. Qed.

(** On the empty text, and on ASCII text whose first character is the first
    byte of the key stream, [simpleDecrypt] does not give the text back. *)
Lemma simpleDecrypt_simpleEncrypt_ascii_fails (data key : jsstring) (kb : bytes) :
  Ethers.toUtf8Bytes key = Normal kb ->
  Forall is_ascii data ->
  data = [] \/ nth 0 data 0 = nth 0 (drop_leading_zeros (Keccak.keccak256 kb)) 0 ->
  (let* e := CryptoUtils.simpleEncrypt data key in CryptoUtils.simpleDecrypt e key)
  <> Normal data.
Proof.
  intros Hk Hdata Hcase.
  destruct (key_stream key kb Hk) as [Hhash Hkey].
  set (K := drop_leading_zeros (Keccak.keccak256 kb)) in *.
  assert (Forall is_byte K) as HK
    by (apply drop_leading_zeros_bytes, keccak256_shape).
  unfold CryptoUtils.simpleEncrypt. rewrite Hhash. cbn [cbind].
  rewrite (toUtf8Bytes_ascii data Hdata). cbn [cbind]. rewrite Hkey. cbn [cbind].
  unfold CryptoUtils.simpleDecrypt. rewrite Hhash. cbn [cbind].
  pose proof (xor_with_key_bytes data K (is_ascii_is_byte _ Hdata) HK) as HC.
  destruct data as [| d0 rest].
  - cbn [CryptoUtils.xor_with_key length seq map]. rewrite toBeArray_0x. discriminate.
  - destruct Hcase as [? | Hfirst]; [discriminate |].
    assert (exists crest, CryptoUtils.xor_with_key (d0 :: rest) K = 0 :: crest
                          /\ length crest = length rest) as (crest & HCeq & Hlen).
    { pose proof (length_xor_with_key (d0 :: rest) K) as Hl.
      unfold CryptoUtils.xor_with_key in *. cbn [length seq map nth] in *.
      eexists. split; [| injection Hl as Hl; exact Hl].
      f_equal. rewrite Nat.Div0.mod_0_l. cbn [nth] in Hfirst.
      rewrite Hfirst. apply Z.lxor_nilpotent. }
    rewrite HCeq in *.
    rewrite toBeArray_hexlify by (exact HC || discriminate). cbn [cbind].
    rewrite Hkey. cbn [cbind]. intros Hback.
    apply toUtf8String_ascii_inv in Hback; [| exact Hdata].
    apply (f_equal (@length Z)) in Hback.
    rewrite length_xor_with_key in Hback.
    pose proof (drop_leading_zeros_zero_head crest). cbn [length] in Hback. lia.
Qed.

End KeyStream.

(** ** C10: the XOR cipher *)

(** C10 at [data = "No"], [key = "abc"].  The key stream starts with the
    byte of "N", so the first cipher byte is zero; [simpleDecrypt] reads the
    cipher text as a number, the zero byte is gone, and one wrong character
    comes back.  The empty string does not come back either: its cipher
    text "0x" is no number. *)
Theorem simpleDecrypt_simpleEncrypt_differs :
  CryptoUtils.simpleEncrypt (js "No") (js "abc") = Normal (js "0x006c")
  /\ CryptoUtils.simpleDecrypt (js "0x006c") (js "abc") = Normal [34]
  /\ [34] <> js "No"
  /\ CryptoUtils.simpleEncrypt (js "") (js "abc") = Normal (js "0x")
  /\ CryptoUtils.simpleDecrypt (js "0x") (js "abc")
     = Throw (newTypeError "invalid BigNumberish string").
Proof.
  split; [| split; [| split; [| split]]]; vm_compute; try reflexivity; discriminate.
Qed.

(** Where no cipher byte is lost the pair is a round trip. *)
Example simpleDecrypt_simpleEncrypt_yes :
  (let* e := CryptoUtils.simpleEncrypt (js "Yes") (js "abc") in
   CryptoUtils.simpleDecrypt e (js "abc")) = Normal (js "Yes").
Proof. vm_compute. reflexivity. Qed.

(** ** C6: the compact form of an IPFS hash *)

Section CompactHash.

Lemma base58_char_ascii c : IPFSUtils.base58_char c = true -> is_ascii c.
Proof.
  unfold IPFSUtils.base58_char, is_ascii.
  rewrite !orb_true_iff, !andb_true_iff, !Z.leb_le. lia.
Qed.

Lemma base32_char_ascii c : IPFSUtils.base32_char c = true -> is_ascii c.
Proof.
  unfold IPFSUtils.base32_char, is_ascii.
  rewrite !orb_true_iff, !andb_true_iff, !Z.leb_le. lia.
Qed.

Lemma forallb_ascii (p : Z -> bool) (s : jsstring) :
  (forall c, p c = true -> is_ascii c) -> forallb p s = true -> Forall is_ascii s.
Proof.
  intros Hp Hs. apply List.Forall_forall. intros c Hc.
  apply Hp. rewrite forallb_forall in Hs. now apply Hs.
Qed.

(** A valid IPFS hash is made of ASCII characters and is longer than the 31
    characters a bytes32 string holds. *)
Lemma valid_hash_shape (h : jsstring) :
  IPFSUtils.isValidIPFSHash h = true -> Forall is_ascii h /\ (31 < length h)%nat.
Proof.
  unfold IPFSUtils.isValidIPFSHash.
  destruct (IPFSUtils.startsWith h (js "Qm") && _ && _) eqn:H1.
  { intros _. apply andb_true_iff in H1 as [H1 Hlen].
    apply andb_true_iff in H1 as [Hqm Hrest].
    apply Nat.eqb_eq in Hlen. split; [| lia].
    destruct h as [| a [| b rest]]; try (cbn in Hlen; lia).
    cbn in Hqm. apply andb_true_iff in Hqm as [Ha Hb].
    apply andb_true_iff in Hb as [Hb _].
    apply Z.eqb_eq in Ha, Hb. subst a b.
    repeat constructor; try (unfold is_ascii; lia).
    eapply forallb_ascii; [apply base58_char_ascii | exact Hrest]. }
  destruct (forallb IPFSUtils.base32_char h && _) eqn:H2.
  { intros _. apply andb_true_iff in H2 as [Hall Hlen].
    apply Nat.eqb_eq in Hlen. split; [| lia].
    eapply forallb_ascii; [apply base32_char_ascii | exact Hall]. }
  destruct (IPFSUtils.startsWith h (js "b") && _ && _) eqn:H3; [| discriminate].
  intros _. apply andb_true_iff in H3 as [H3 Hlen].
  apply andb_true_iff in H3 as [Hb Hrest].
  apply Nat.eqb_eq in Hlen. split; [| lia].
  destruct h as [| a rest]; try (cbn in Hlen; lia).
  cbn in Hb. apply andb_true_iff in Hb as [Ha _].
  apply Z.eqb_eq in Ha. subst a.
  constructor; [unfold is_ascii; lia |].
  eapply forallb_ascii; [apply base32_char_ascii | exact Hrest].
Qed.

(** [hashToBytes32] always ends in the fallback: the base58 helper throws. *)
Lemma hashToBytes32_fallback (h : jsstring) :
  IPFSUtils.hashToBytes32 h = Ethers.encodeBytes32String (firstn 31 h).
Proof.
  unfold IPFSUtils.hashToBytes32. destruct (_ && _); reflexivity.
Qed.

Lemma encodeBytes32String_31 (s : jsstring) :
  Forall is_ascii s -> length s = 31%nat ->
  Ethers.encodeBytes32String s = Normal (Ethers.hexlify (s ++ [0])).
Proof.
  intros Hs Hlen. unfold Ethers.encodeBytes32String, Ethers.zeroPadBytes.
  rewrite toUtf8Bytes_ascii by assumption. cbn [cbind]. rewrite Hlen. reflexivity.
Qed.

Lemma decodeBytes32String_31 (s : jsstring) :
  Forall is_ascii s -> length s = 31%nat ->
  Ethers.decodeBytes32String (Ethers.hexlify (s ++ [0])) = Normal s.
Proof.
  intros Hs Hlen. unfold Ethers.decodeBytes32String.
  rewrite getBytes_hexlify.
  2:{ apply Forall_app. split; [now apply is_ascii_is_byte |].
      repeat constructor; unfold is_byte; lia. }
  cbn [cbind]. rewrite length_app, Hlen. cbn [length Nat.add Nat.eqb negb].
  rewrite app_nth2 by lia. rewrite Hlen. cbn [Nat.sub nth Z.eqb negb].
  assert (Ethers.null_terminated_length (s ++ [0]) 31 = 31%nat) as ->.
  { cbn [Ethers.null_terminated_length].
    destruct (nth_error (s ++ [0]) 30) as [c |] eqn:Hc; [| reflexivity].
    rewrite nth_error_app1 in Hc by lia.
    apply nth_error_In in Hc. rewrite List.Forall_forall in Hs.
    apply Hs in Hc. unfold is_ascii in Hc. destruct c; [lia | reflexivity | lia]. }
  rewrite <- Hlen at 1. rewrite firstn_app, firstn_all, Nat.sub_diag. cbn [firstn].
  rewrite app_nil_r. now apply toUtf8String_ascii.
Qed.

(** C6.  For every valid IPFS hash, converting it to bytes32 and back gives
    its first 31 characters, which is not the hash. *)
Theorem bytes32ToHash_hashToBytes32_truncates (h : jsstring) :
  IPFSUtils.isValidIPFSHash h = true ->
  (let* b := IPFSUtils.hashToBytes32 h in IPFSUtils.bytes32ToHash b)
  = Normal (firstn 31 h)
  /\ firstn 31 h <> h.
Proof.
  intros Hvalid. apply valid_hash_shape in Hvalid as [Hascii Hlen].
  assert (length (firstn 31 h) = 31%nat) as Hlen31 by (rewrite length_firstn; lia).
  assert (Forall is_ascii (firstn 31 h)) as Hascii31 by now apply Forall_take.
  split.
  - rewrite hashToBytes32_fallback, encodeBytes32String_31 by assumption.
    cbn [cbind]. unfold IPFSUtils.bytes32ToHash.
    rewrite decodeBytes32String_31 by assumption. now rewrite Hlen31.
  - intros Heq. rewrite Heq in Hlen31. lia.
Qed.

Lemma bytes32ToHash_hashToBytes32_truncates_witness :
  (let* b := IPFSUtils.hashToBytes32 (js "QmYwAPJzv5CZsnA625s3Xf2nemtYgPpHdWEz79ojWnPbdG") in
   IPFSUtils.bytes32ToHash b)
  = Normal (js "QmYwAPJzv5CZsnA625s3Xf2nemtYgPp")
  /\ js "QmYwAPJzv5CZsnA625s3Xf2nemtYgPp"
     <> js "QmYwAPJzv5CZsnA625s3Xf2nemtYgPpHdWEz79ojWnPbdG".
Proof.
  exact (bytes32ToHash_hashToBytes32_truncates
           (js "QmYwAPJzv5CZsnA625s3Xf2nemtYgPpHdWEz79ojWnPbdG") eq_refl).
Defined.

(** A string that fits, such as the hashes of examples/take-job.ts, does
    come back. *)
Example bytes32ToHash_hashToBytes32_short :
  (let* b := IPFSUtils.hashToBytes32 (js "QmMessageHash123") in
   IPFSUtils.bytes32ToHash b) = Normal (js "QmMessageHash123").
Proof. vm_compute. reflexivity. Qed.

End CompactHash.

(** ** C9: supported networks *)

Section Networks.

Lemma isNetworkSupported_lookup (chainId : Z) :
  isNetworkSupported chainId = true <-> is_Some (NETWORK_ADDRESSES !! chainId).
Proof.
  unfold isNetworkSupported, SUPPORTED_NETWORKS.
  rewrite bool_decide_eq_true, list_elem_of_fmap. split.
  - intros ([k a] & -> & Hin). apply elem_of_map_to_list in Hin. eauto.
  - intros [a Ha]. exists (chainId, a). split; [reflexivity |].
    now apply elem_of_map_to_list.
Qed.

(** [isNetworkSupported] holds exactly when [getNetworkAddresses] returns. *)
Lemma isNetworkSupported_iff_getNetworkAddresses (chainId : Z) :
  isNetworkSupported chainId = true
  <-> exists addresses, getNetworkAddresses chainId = Normal addresses.
Proof.
  rewrite isNetworkSupported_lookup. unfold getNetworkAddresses.
  destruct (NETWORK_ADDRESSES !! chainId) as [a |]; split.
  - eauto.
  - eauto.
  - intros [? [=]].
  - intros [? [=]].
Qed.

Lemma isNetworkSupported_42161 (chainId : Z) :
  isNetworkSupported chainId = true <-> chainId = 42161.
Proof.
  rewrite isNetworkSupported_lookup. unfold NETWORK_ADDRESSES. split.
  - intros [a Ha]. apply lookup_singleton_Some in Ha as [-> _]. reflexivity.
  - intros ->. rewrite lookup_singleton_eq. eauto.
Qed.

(** The constructor throws exactly for a chain id that is neither 0 nor in
    the table. *)
Lemma constructor_throws_iff (config : EACCClientConfig) (r : option Runner) :
  (exists e, EACCClient.new config r = Throw e)
  <-> exists c, chainId config = Some c /\ c <> 0 /\ isNetworkSupported c = false.
Proof.
  unfold EACCClient.new, EACCClient.truthy.
  destruct (chainId config) as [c |].
  - destruct (Z.eqb_spec c 0) as [-> | Hc]; cbn [negb andb].
    + split; [destruct r; intros [? [=]] |].
      intros (c & Hc & Hne & _). injection Hc as <-. lia.
    + destruct (isNetworkSupported c) eqn:Hs; cbn [negb].
      * split; [destruct r; intros [? [=]] |].
        intros (c' & Hc' & _ & Hs'). injection Hc' as <-. congruence.
      * split; eauto.
  - split; [destruct r; intros [? [=]] | intros (? & [=] & _)].
Qed.

End Networks.

(** C9 at [chainId = 0].  Chain 0 is not in the table:
    [isNetworkSupported(0)] is false and [getNetworkAddresses(0)] throws.
    The constructor, given a configuration with [chainId: 0], does not
    throw. *)
Theorem constructor_accepts_unsupported_chain_0 :
  let config := mkEACCClientConfig (js "0x405AcFbD1400A168fDd4aDA2D214e8Ae5FF7a624")
                  (js "0x0191ae69d05F11C7978cCCa2DE15653BaB509d9a") (Some 0) None in
  isNetworkSupported 0 = false
  /\ getNetworkAddresses 0 = Throw (unsupported_network 0)
  /\ EACCClient.new config None
     = Normal (mkEACCClient None None WalletConnector.new (IPFSUtils.new None) config).
Proof. cbv zeta. split; [| split]; vm_compute; reflexivity. Qed.

(** ** The client against an arbitrary ledger *)

Section Client.

Variable E : Env.

Lemma run_await (this : EACCClient) (w : World E) (c : Contract)
    (method : string) (args : list JsValue) :
  run E (mawait (await (ContractCall c method args)) this) w
  = forwarded E this w c method args.
Proof.
  unfold forwarded. cbn. destruct (respond E JsValue w _) as [o w1]. reflexivity.
Qed.

(** A transaction without a signer in the wallet: nothing is sent. *)
Lemma state_changing_not_connected (op : Op.t) (this : EACCClient) (w : World E) :
  Op.state_changing op = true -> signer (wallet this) = None ->
  run E (Op.invoke op this) w = (Throw EACCClient.wallet_not_connected, this, w, []).
Proof.
  intros Hop Hs. destruct op; try discriminate Hop;
    cbn -[run respond EACCClient.wallet_not_connected]; rewrite Hs; reflexivity.
Qed.

(** A signer in the wallet but the contract field still unset. *)
Lemma sends_transaction_uninitialised (op : Op.t) (this : EACCClient) (w : World E) s :
  Op.sends_transaction op = true -> signer (wallet this) = Some s ->
  Op.contract_field op this = None ->
  exists method,
    run E (Op.invoke op this) w = (Throw (undefined_property method), this, w, []).
Proof.
  intros Hop Hs Hc. destruct op; try discriminate Hop;
    cbn -[run respond undefined_property] in *; rewrite Hs; cbn -[run respond undefined_property];
    rewrite Hc; eexists; reflexivity.
Qed.

(** A signer in the wallet and the contract field set: one call. *)
Lemma sends_transaction_forwarded (op : Op.t) (this : EACCClient) (w : World E) s c :
  Op.sends_transaction op = true -> signer (wallet this) = Some s ->
  Op.contract_field op this = Some c ->
  exists method args, run E (Op.invoke op this) w = forwarded E this w c method args.
Proof.
  intros Hop Hs Hc. destruct op; try discriminate Hop;
    cbn -[run respond] in *; rewrite Hs; cbn -[run respond]; rewrite Hc;
    do 2 eexists; apply run_await.
Qed.

(** A read on an initialised contract field: one call, signer or not. *)
Lemma read_accessor_forwarded (op : Op.t) (this : EACCClient) (w : World E) c :
  Op.read_accessor op = true -> Op.contract_field op this = Some c ->
  exists method args, run E (Op.invoke op this) w = forwarded E this w c method args.
Proof.
  intros Hop Hc. destruct op; try discriminate Hop;
    cbn -[run respond] in *; rewrite Hc; do 2 eexists; apply run_await.
Qed.

End Client.

(** A content fetch is one request to the content store and no call to the
    ledger; the client is left as it was. *)
Lemma fetchFromIPFS_calls (E : Env) (w : World E) (this : EACCClient) (hash : jsstring) :
  let '(_, this', _, tr) := run E (EACCClient.fetchFromIPFS hash this) w in
  this' = this /\ ledger_calls tr = 0%nat /\ content_store_calls tr = 1%nat.
Proof.
  cbn -[respond IPFSUtils.strip_ipfs_prefix try_catch].
  destruct (respond E Response w _) as [o w1]. repeat split.
Qed.

(** ** C4: the connection check *)

(** C4, as the code has it.  Every state-changing operation throws the
    wallet-not-connected error, sending nothing, when the wallet holds no
    signer.  A read accessor makes no connection check: on a client whose
    contract field is initialised it hands the call to the contract and
    returns its settlement, whether or not a signer is connected. *)
Theorem state_changing_needs_signer_reads_need_contract
    (E : Env) (w : World E) (this : EACCClient) (op : Op.t) :
  (Op.state_changing op = true -> signer (wallet this) = None ->
   run E (Op.invoke op this) w = (Throw EACCClient.wallet_not_connected, this, w, []))
  /\ (Op.read_accessor op = true ->
      forall c, Op.contract_field op this = Some c ->
      exists method args,
        run E (Op.invoke op this) w = forwarded E this w c method args).
Proof.
  split.
  - apply state_changing_not_connected.
  - intros Hop c Hc. eapply read_accessor_forwarded; eassumption.
Qed.

Lemma state_changing_needs_signer_reads_need_contract_witness :
  run Sample.accepting_ledger
    (Op.invoke (Op.takeJob (BNumber 7) (js "0x00")) Sample.fresh_client) Sample.chain
  = (Throw EACCClient.wallet_not_connected, Sample.fresh_client, Sample.chain, [])
  /\ exists method args,
       run Sample.accepting_ledger
         (Op.invoke (Op.getJob (BNumber 7)) Sample.reading_client) Sample.chain
       = forwarded Sample.accepting_ledger Sample.reading_client Sample.chain
           (MarketplaceV2Contract.new (marketplaceV2Address Sample.sample_config)
              (RunnerProvider Sample.provider))
           method args.
Proof.
  split.
  - apply (proj1 (state_changing_needs_signer_reads_need_contract
                    Sample.accepting_ledger Sample.chain Sample.fresh_client
                    (Op.takeJob (BNumber 7) (js "0x00")))); reflexivity.
  - apply (proj2 (state_changing_needs_signer_reads_need_contract
                    Sample.accepting_ledger Sample.chain Sample.reading_client
                    (Op.getJob (BNumber 7)))); reflexivity.
Defined.

(** On a client built without a signer or provider a read accessor does not
    succeed: the contract field is still unset and the call is a TypeError. *)
Lemma read_accessor_fails_on_fresh_client :
  EACCClient.new Sample.sample_config None = Normal Sample.fresh_client
  /\ signer (wallet Sample.fresh_client) = None
  /\ run Sample.accepting_ledger
       (Op.invoke (Op.getJob (BNumber 7)) Sample.fresh_client) Sample.chain
     = (Throw (undefined_property "getJob"), Sample.fresh_client, Sample.chain, []).
Proof. repeat split; vm_compute; reflexivity. Qed.

(** ** C7: outbound calls and the client's fields *)

(** C7, as the code has it.  A domain operation (one that sends a
    transaction) leaves every field of the client as it was and never calls
    the content store; it makes exactly one call to the ledger contract when
    the wallet holds a signer and the contract field is initialised, and none
    otherwise. *)
Theorem domain_operation_calls_and_frame
    (E : Env) (w : World E) (this : EACCClient) (op : Op.t) :
  Op.sends_transaction op = true ->
  let '(_, this', _, tr) := run E (Op.invoke op this) w in
  this' = this
  /\ content_store_calls tr = 0%nat
  /\ ledger_calls tr =
     match signer (wallet this), Op.contract_field op this with
     | Some _, Some _ => 1%nat
     | _, _ => 0%nat
     end.
Proof.
  intros Hop.
  destruct (signer (wallet this)) as [s |] eqn:Hs.
  - destruct (Op.contract_field op this) as [c |] eqn:Hc.
    + destruct (sends_transaction_forwarded E op this w s c Hop Hs Hc)
        as (method & args & ->).
      unfold forwarded. repeat split.
    + destruct (sends_transaction_uninitialised E op this w s Hop Hs Hc) as (method & ->).
      repeat split.
  - rewrite (state_changing_not_connected E op this w); [repeat split | | exact Hs].
    unfold Op.state_changing. now rewrite Hop.
Qed.

Lemma domain_operation_calls_and_frame_witness :
  let '(_, this', _, tr) :=
    run Sample.accepting_ledger
      (Op.invoke (Op.takeJob (BNumber 7) (js "0x00")) Sample.connected_client)
      Sample.chain in
  this' = Sample.connected_client
  /\ content_store_calls tr = 0%nat
  /\ ledger_calls tr = 1%nat.
Proof.
  exact (domain_operation_calls_and_frame Sample.accepting_ledger Sample.chain
           Sample.connected_client (Op.takeJob (BNumber 7) (js "0x00")) eq_refl).
Defined.

(** Without a signer in the wallet [takeJob] makes no outbound call at all. *)
Lemma takeJob_not_connected_makes_no_call :
  signer (wallet Sample.fresh_client) = None
  /\ ledger_calls
       (snd (run Sample.accepting_ledger
               (Op.invoke (Op.takeJob (BNumber 7) (js "0x00")) Sample.fresh_client)
               Sample.chain))
     = 0%nat.
Proof. split; vm_compute; reflexivity. Qed.

(** ** C2 and C5: what [takeJob] checks *)

(** C2, as the code has it.  [takeJob] compares the signature with no
    events length: with a signer in the wallet and the contract initialised
    it hands [(jobId, signature)] unchanged to the contract's [takeJob], as
    its only outbound call, and returns that call's settlement. *)
Theorem takeJob_forwards_signature_unchecked
    (E : Env) (w : World E) (this : EACCClient)
    (jobId : BigNumberish) (signature : jsstring) (s : Ethers.Signer) (c : Contract) :
  signer (wallet this) = Some s -> marketplaceV2 this = Some c ->
  run E (EACCClient.takeJob jobId signature this) w
  = forwarded E this w c "takeJob" [VBigNumberish jobId; VString signature].
Proof.
  intros Hs Hc. cbn -[run respond forwarded]. rewrite Hs.
  cbn -[run respond forwarded]. rewrite Hc. apply run_await.
Qed.

Lemma takeJob_forwards_signature_unchecked_witness :
  run Sample.accepting_ledger
    (EACCClient.takeJob (BNumber 7) (js "0x00") Sample.connected_client) Sample.chain
  = forwarded Sample.accepting_ledger Sample.connected_client Sample.chain
      (MarketplaceV2Contract.new (marketplaceV2Address Sample.sample_config)
         (RunnerSigner Sample.transparent_signer))
      "takeJob" [VNumber 7; VString (js "0x00")].
Proof.
  exact (takeJob_forwards_signature_unchecked Sample.accepting_ledger Sample.chain
           Sample.connected_client (BNumber 7) (js "0x00") Sample.transparent_signer
           _ eq_refl eq_refl).
Defined.

(** Job 7 has three events on the chain; a signature made for events length 0
    is handed on all the same.  A ledger that accepts the transaction makes
    [takeJob] resolve; one that reverts makes it reject with the ledger's own
    error. *)
Lemma takeJob_stale_signature_not_rejected_by_client :
  CryptoUtils.signJobTaking Sample.transparent_signer 0 (BNumber 7)
  = Normal Sample.stale_signature
  /\ fst (fst (fst (run Sample.accepting_ledger
                      (EACCClient.getEventsLength (BNumber 7) Sample.connected_client)
                      Sample.chain)))
     = Normal (VBigInt 3)
  /\ fst (fst (fst (run Sample.accepting_ledger
                      (EACCClient.takeJob (BNumber 7) Sample.stale_signature
                         Sample.connected_client)
                      Sample.chain)))
     = Normal (VObject [("hash"%string, VString (js "0x01"))])
  /\ fst (fst (fst (run Sample.reverting_ledger
                      (EACCClient.takeJob (BNumber 7) Sample.stale_signature
                         Sample.connected_client)
                      Sample.chain)))
     = Throw Sample.reverted.
Proof.
  split; [| split; [| split]]; vm_compute; reflexivity.
Qed.

(** C5, as the code has it.  [takeJob] never looks at the job's state.  Its
    outcome is the wallet-not-connected error, or the TypeError of an unset
    contract field, in both cases with nothing sent, or else the settlement
    of the single [takeJob] call, whatever state the job is in. *)
Theorem takeJob_outcome_ignores_job_state
    (E : Env) (w : World E) (this : EACCClient)
    (jobId : BigNumberish) (signature : jsstring) :
  run E (EACCClient.takeJob jobId signature this) w
    = (Throw EACCClient.wallet_not_connected, this, w, [])
  \/ run E (EACCClient.takeJob jobId signature this) w
    = (Throw (undefined_property "takeJob"), this, w, [])
  \/ exists c,
       marketplaceV2 this = Some c
       /\ run E (EACCClient.takeJob jobId signature this) w
          = forwarded E this w c "takeJob" [VBigNumberish jobId; VString signature].
Proof.
  destruct (signer (wallet this)) as [s |] eqn:Hs.
  - destruct (marketplaceV2 this) as [c |] eqn:Hc.
    + right. right. exists c. split; [reflexivity |].
      eapply takeJob_forwards_signature_unchecked; eassumption.
    + right. left. cbn -[run respond undefined_property]. rewrite Hs.
      cbn -[run respond undefined_property]. rewrite Hc. reflexivity.
  - left. cbn -[run respond EACCClient.wallet_not_connected]. rewrite Hs. reflexivity.
Qed.

(** Job 7 is in state Taken, and a Take on it is not failed by the client:
    against a ledger that accepts the transaction [takeJob] resolves, and
    against one that reverts it rejects with the ledger's own error. *)
Lemma takeJob_on_taken_job_not_rejected_by_client :
  Sample.job_state Sample.chain 7 = JobState.Taken
  /\ fst (fst (fst (run Sample.accepting_ledger
                      (EACCClient.getJob (BNumber 7) Sample.connected_client)
                      Sample.chain)))
     = Normal (VObject [("state"%string, VNumber 1)])
  /\ fst (fst (fst (run Sample.accepting_ledger
                      (EACCClient.takeJob (BNumber 7) (js "0x00") Sample.connected_client)
                      Sample.chain)))
     = Normal (VObject [("hash"%string, VString (js "0x01"))])
  /\ fst (fst (fst (run Sample.reverting_ledger
                      (EACCClient.takeJob (BNumber 7) (js "0x00") Sample.connected_client)
                      Sample.chain)))
     = Throw Sample.reverted.
Proof. repeat split; vm_compute; reflexivity. Qed.

(** ** C8: replaying the events of a job *)

Module JobLifecycleFacts.
Import JobLifecycle.

Section Replaying.

Variable timeoutElapsed : Job -> JobEvent -> bool.

Abbreviation Step := (Step timeoutElapsed).
Abbreviation Replay := (Replay timeoutElapsed).
Abbreviation apply := (apply timeoutElapsed).
Abbreviation replay := (replay timeoutElapsed).

Ltac rewrite_preconditions :=
  repeat match goal with
         | H : _ \/ _ |- _ => destruct H
         | H : state _ = _ |- _ => rewrite H
         | H : worker _ = _ |- _ => rewrite H
         | H : resultHash _ = _ |- _ => rewrite H
         | H : may_take _ _ = _ |- _ => rewrite H
         | H : signature_matches _ _ _ = _ |- _ => rewrite H
         | H : disputed _ = _ |- _ => rewrite H
         | H : completed _ = _ |- _ => rewrite H
         | H : timeoutElapsed _ _ = _ |- _ => rewrite H
         end.

(** Every row of the table is computed by [apply]. *)
Lemma Step_apply j ev j' : Step j ev j' -> apply j ev = inl j'.
Proof.
  destruct 1; unfold JobLifecycle.apply, invalid; cbn [type actorAddress];
    rewrite_preconditions; subst; cbn [negb andb orb];
    repeat case_bool_decide; cbn [negb andb orb]; rewrite ?orb_true_r;
    try reflexivity; try congruence; try solve [exfalso; naive_solver].
Qed.

(** Whatever [apply] accepts is a row of the table. *)
Lemma apply_Step j ev j' : apply j ev = inl j' -> Step j ev j'.
Proof.
  destruct ev as [ty caller t].
  unfold JobLifecycle.apply, invalid; cbn [type actorAddress].
  destruct (state j) eqn:Hst, ty; try discriminate;
    try match goal with
        | |- context [match worker ?x with _ => _ end] => destruct (worker x) eqn:?
        end;
    try discriminate;
    match goal with
    | |- context [inl (evolve ?a ?b ?c ?d ?e ?f ?g ?h ?i ?k)] =>
        remember (evolve a b c d e f g h i k) as out eqn:Hout
    end;
    repeat match goal with
           | |- context [bool_decide ?P] => destruct (bool_decide_reflect P)
           | |- context [may_take ?x ?c] => destruct (may_take x c) eqn:?
           | |- context [signature_matches ?x ?c ?g] =>
               destruct (signature_matches x c g) eqn:?
           | |- context [timeoutElapsed ?x ?e] => destruct (timeoutElapsed x e) eqn:?
           | |- context [disputed ?x] => destruct (disputed x) eqn:?
           | |- context [completed ?x] => destruct (completed x) eqn:?
           | |- context [match worker ?x with _ => _ end] => destruct (worker x) eqn:?
           | H : is_Some _ |- _ => destruct H
           end;
    cbn [negb andb orb]; try discriminate; intros [= <-]; subst out.
  all: try (econstructor; solve [eauto | naive_solver]).
  all: match goal with H : completed _ = _ |- _ => rewrite <- H end;
    econstructor; solve [eauto | naive_solver].
Qed.

Lemma replay_Replay j evs j' : replay j evs = inl j' <-> Replay j evs j'.
Proof.
  split.
  - revert j. induction evs as [| ev evs IH]; intros j; cbn [JobLifecycle.replay].
    + intros [= <-]. constructor.
    + destruct (apply j ev) as [j1 | f] eqn:Hap; [| discriminate].
      intros Hrest. econstructor; [apply apply_Step; eassumption | auto].
  - induction 1 as [| j ev j1 evs j2 Hstep _ IH]; cbn [JobLifecycle.replay];
      [reflexivity |].
    now rewrite (Step_apply _ _ _ Hstep).
Qed.

Lemma Replay_functional (j : Job) (evs : list JobEvent) (j1 j2 : Job) :
  Replay j evs j1 -> Replay j evs j2 -> j2 = j1.
Proof. intros H1 H2. apply replay_Replay in H1, H2. congruence. Qed.

End Replaying.

(** C8.  A valid sequence of job events determines the derived job: the
    fold computes it, and every replay of the sequence from the same job ends
    in that same job.  The order of the events matters: two deliveries in
    either order are both valid and derive different jobs. *)
Theorem replay_deterministic_order_dependent
    (timeoutElapsed : Job -> JobEvent -> bool) :
  (forall (j : Job) (evs : list JobEvent) (j1 : Job),
      Replay timeoutElapsed j evs j1 ->
      replay timeoutElapsed j evs = inl j1
      /\ forall j2, Replay timeoutElapsed j evs j2 -> j2 = j1)
  /\ exists j evs evs' j1 j2,
       Permutation evs evs'
       /\ Replay timeoutElapsed j evs j1 /\ Replay timeoutElapsed j evs' j2
       /\ j1 <> j2.
Proof.
  split.
  - intros j evs j1 H1. split; [now apply replay_Replay |].
    intros j2 H2. eapply Replay_functional; eassumption.
  - exists taken_job, [first_delivery; second_delivery],
      [second_delivery; first_delivery].
    do 2 eexists. split; [apply perm_swap |].
    split; [| split].
    + apply replay_Replay. reflexivity.
    + apply replay_Replay. reflexivity.
    + intros Heq. apply (f_equal resultHash) in Heq. discriminate Heq.
Qed.

Lemma replay_deterministic_order_dependent_witness :
  Replay never open_job scenario settled_job
  /\ replay never open_job scenario = inl settled_job
  /\ forall j2, Replay never open_job scenario j2 -> j2 = settled_job.
Proof.
  assert (Replay never open_job scenario settled_job) as H
    by (apply replay_Replay; vm_compute; reflexivity).
  split; [exact H |].
  exact (proj1 (replay_deterministic_order_dependent never) open_job scenario
           settled_job H).
Defined.

End JobLifecycleFacts.

(** * The rest of the SDK

    The helpers of [CryptoUtils] and [IPFSUtils] that the operations above do
    not go through, the wrappers and listeners of the two contract classes,
    and the ways a client is connected and disconnected. *)

(** ** UTF-8 encoding *)

Section Utf8.

Lemma lor_byte a b : is_byte a -> is_byte b -> is_byte (Z.lor a b).
Proof.
  unfold is_byte. intros [Ha Ha'] [Hb Hb'].
  assert (0 <= Z.lor a b) by (apply Z.lor_nonneg; lia). split; [assumption |].
  destruct (Z.eq_dec (Z.lor a b) 0) as [-> | Hne]; [lia |].
  apply (Z.log2_lt_pow2 _ 8); [lia |]. rewrite Z.log2_lor by assumption.
  assert (forall x, 0 <= x < 256 -> Z.log2 x < 8) as Hlog.
  { intros x Hx. destruct (Z.eq_dec x 0) as [-> | ?]; [cbn; lia |].
    apply Z.log2_lt_pow2; lia. }
  pose proof (Hlog a). pose proof (Hlog b). lia.
Qed.

Lemma land_63 x : 0 <= Z.land x 0x3f < 64.
Proof. change 0x3f with (Z.ones 6). rewrite Z.land_ones by lia. apply Z.mod_pos_bound. lia. Qed.

Lemma continuation_byte x : is_byte (Z.lor (Z.land x 0x3f) 0x80).
Proof. apply lor_byte; unfold is_byte; [pose proof (land_63 x) |]; lia. Qed.

Lemma leading_byte c k limit prefix :
  0 <= c < limit * 2 ^ k -> 0 <= k -> 0 < limit <= 256 -> is_byte prefix ->
  is_byte (Z.lor (Z.shiftr c k) prefix).
Proof.
  intros Hc Hk Hl Hp. apply lor_byte; [| exact Hp]. unfold is_byte.
  rewrite Z.shiftr_div_pow2 by lia. split.
  - apply Z.div_pos; lia.
  - apply Z.div_lt_upper_bound; [lia |]. nia.
Qed.

Lemma toUtf8Bytes_cons (c : Z) (rest : jsstring) :
  Ethers.toUtf8Bytes (c :: rest) =
  if c <? 0x80 then
    let* r := Ethers.toUtf8Bytes rest in Normal (c :: r)
  else if c <? 0x800 then
    let* r := Ethers.toUtf8Bytes rest in
    Normal (Z.lor (Z.shiftr c 6) 0xc0 :: Z.lor (Z.land c 0x3f) 0x80 :: r)
  else if Z.land c 0xfc00 =? 0xd800 then
    match rest with
    | c2 :: rest' =>
        if Z.land c2 0xfc00 =? 0xdc00 then
          let pair := 0x10000 + Z.shiftl (Z.land c 0x03ff) 10 + Z.land c2 0x03ff in
          let* r := Ethers.toUtf8Bytes rest' in
          Normal (Z.lor (Z.shiftr pair 18) 0xf0
                  :: Z.lor (Z.land (Z.shiftr pair 12) 0x3f) 0x80
                  :: Z.lor (Z.land (Z.shiftr pair 6) 0x3f) 0x80
                  :: Z.lor (Z.land pair 0x3f) 0x80 :: r)
        else Throw (newTypeError "invalid surrogate pair")
    | [] => Throw (newTypeError "invalid surrogate pair")
    end
  else
    let* r := Ethers.toUtf8Bytes rest in
    Normal (Z.lor (Z.shiftr c 12) 0xe0
            :: Z.lor (Z.land (Z.shiftr c 6) 0x3f) 0x80
            :: Z.lor (Z.land c 0x3f) 0x80 :: r).
Proof. reflexivity. Qed.

Definition utf8_app_at (a : jsstring) : Prop :=
  forall b ba bb, Ethers.toUtf8Bytes a = Normal ba -> Ethers.toUtf8Bytes b = Normal bb ->
                  Ethers.toUtf8Bytes (a ++ b) = Normal (ba ++ bb).

Ltac step_rest IH Hb :=
  cbv beta iota in *;
  match goal with
  | H : cbind (Ethers.toUtf8Bytes ?l) _ = _ |- _ =>
      let r := fresh "r" in
      destruct (Ethers.toUtf8Bytes l) as [r |] eqn:?; [| discriminate H];
      cbn [cbind] in H; injection H as <-;
      rewrite (IH _ _ eq_refl Hb); reflexivity
  end.

Lemma toUtf8Bytes_app_both (a : jsstring) :
  utf8_app_at a /\ forall c, utf8_app_at (c :: a).
Proof.
  induction a as [| x a [IH0 IH1]].
  - split; [intros b ba bb [= <-] Hb; exact Hb |].
    intros c b ba bb Ha Hb. cbn [app]. rewrite toUtf8Bytes_cons in Ha |- *.
    rewrite Hb. cbn [Ethers.toUtf8Bytes cbind] in Ha |- *.
    destruct (c <? 128); [injection Ha as <-; reflexivity |].
    destruct (c <? 2048); [injection Ha as <-; reflexivity |].
    destruct (Z.land c 64512 =? 55296); [discriminate |].
    injection Ha as <-. reflexivity.
  - split; [apply IH1 |].
    intros c b ba bb Ha Hb. pose proof (IH1 x b) as IHx. pose proof (IH0 b) as IHa.
    change ((c :: x :: a) ++ b) with (c :: (x :: a) ++ b).
    rewrite toUtf8Bytes_cons in Ha |- *.
    destruct (c <? 128); [step_rest IHx Hb |].
    destruct (c <? 2048); [step_rest IHx Hb |].
    destruct (Z.land c 64512 =? 55296); [| step_rest IHx Hb].
    cbn [app]. destruct (Z.land x 64512 =? 56320); [| discriminate].
    cbv zeta in Ha |- *. step_rest IHa Hb.
Qed.

Lemma toUtf8Bytes_app (a b : jsstring) ba bb :
  Ethers.toUtf8Bytes a = Normal ba -> Ethers.toUtf8Bytes b = Normal bb ->
  Ethers.toUtf8Bytes (a ++ b) = Normal (ba ++ bb).
Proof. apply toUtf8Bytes_app_both. Qed.

Definition utf8_bytes_at (a : jsstring) : Prop :=
  Forall code_unit a -> forall ba, Ethers.toUtf8Bytes a = Normal ba -> Forall is_byte ba.

Ltac bytes_rest IH :=
  cbv beta iota in *;
  match goal with
  | H : cbind (Ethers.toUtf8Bytes ?l) _ = _ |- _ =>
      let r := fresh "r" in
      destruct (Ethers.toUtf8Bytes l) as [r |] eqn:?; [| discriminate H];
      cbn [cbind] in H; injection H as <-;
      repeat (apply List.Forall_cons; [try apply continuation_byte |]); [.. | now apply IH]
  end.

Lemma toUtf8Bytes_bytes_both (a : jsstring) :
  utf8_bytes_at a /\ forall c, utf8_bytes_at (c :: a).
Proof.
  assert (is_byte 0xc0 /\ is_byte 0xe0 /\ is_byte 0xf0) as (H1 & H2 & H3)
    by (unfold is_byte; lia).
  assert (forall x, 0 <= Z.land x 1023 < 1024) as Hten.
  { intros x. change 1023 with (Z.ones 10). rewrite Z.land_ones by lia.
    apply Z.mod_pos_bound. lia. }
  assert (forall c rest, utf8_bytes_at rest ->
            (forall c2 rest', rest = c2 :: rest' -> utf8_bytes_at rest') ->
            utf8_bytes_at (c :: rest)) as Hstep.
  { intros c rest IHrest IHtail Hall ba Ha.
    inversion Hall as [| ? ? Hc Hrest]; subst. unfold code_unit in Hc.
    specialize (IHrest Hrest). rewrite toUtf8Bytes_cons in Ha.
    destruct (Z.ltb_spec c 128); [bytes_rest IHrest; unfold is_byte; lia |].
    destruct (Z.ltb_spec c 2048);
      [bytes_rest IHrest; apply (leading_byte c 6 32); try lia; assumption |].
    destruct (Z.land c 64512 =? 55296);
      [| bytes_rest IHrest; apply (leading_byte c 12 16); try lia; assumption].
    destruct rest as [| c2 rest']; [discriminate |].
    destruct (Z.land c2 64512 =? 56320); [| discriminate].
    cbv zeta in Ha. inversion Hrest; subst.
    pose proof (IHtail c2 rest' eq_refl ltac:(assumption)) as IHt.
    bytes_rest IHt.
    pose proof (Hten c). pose proof (Hten c2).
    apply (leading_byte _ 18 8); try lia; [| assumption].
    rewrite Z.shiftl_mul_pow2 by lia. lia. }
  induction a as [| x a [IH0 IH1]].
  - split; [intros _ ba [= <-]; constructor |].
    intros c. apply Hstep; [intros _ ba [= <-]; constructor | discriminate].
  - split; [apply IH1 |].
    intros c. apply Hstep; [apply IH1 |]. intros c2 rest' [= -> ->]. exact IH0.
Qed.

Lemma toUtf8Bytes_bytes (a : jsstring) ba :
  Forall code_unit a -> Ethers.toUtf8Bytes a = Normal ba -> Forall is_byte ba.
Proof. intros H. now apply toUtf8Bytes_bytes_both. Qed.

End Utf8.

(** ** Hashes, commitments and Merkle nodes *)

Section Packing.

Lemma pack_all_strings (v n : jsstring) bv bn :
  Ethers.toUtf8Bytes v = Normal bv -> Ethers.toUtf8Bytes n = Normal bn ->
  Solidity.pack_all [Solidity.string_t; Solidity.string_t] [BString v; BString n]
  = Normal (bv ++ bn).
Proof.
  intros Hv Hn. cbn [Solidity.pack_all Solidity._pack]. rewrite Hv, Hn. cbn [cbind].
  now rewrite app_nil_r.
Qed.

Lemma createCommitment_bytes (v n : jsstring) bv bn :
  Forall code_unit v -> Forall code_unit n ->
  Ethers.toUtf8Bytes v = Normal bv -> Ethers.toUtf8Bytes n = Normal bn ->
  CryptoUtils.createCommitment v n = Normal (Ethers.keccak256 (bv ++ bn)).
Proof.
  intros Hcv Hcn Hv Hn.
  unfold CryptoUtils.createCommitment, CryptoUtils.solidityPackedKeccak256_any,
    Solidity.solidityPackedKeccak256, Solidity.solidityPacked.
  cbn [length Nat.eqb]. rewrite (pack_all_strings v n bv bn Hv Hn). cbn [cbind].
  rewrite getBytes_hexlify by (apply Forall_app; split;
        [apply (toUtf8Bytes_bytes v) | apply (toUtf8Bytes_bytes n)]; assumption).
  reflexivity.
Qed.

Lemma keccak256_text (s : jsstring) b :
  Ethers.toUtf8Bytes s = Normal b -> CryptoUtils.keccak256 s = Normal (Ethers.keccak256 b).
Proof. intros H. unfold CryptoUtils.keccak256. now rewrite H. Qed.

Lemma pack_bytes32 (bs : bytes) :
  Forall is_byte bs -> length bs = 32%nat ->
  Solidity._pack Solidity.bytes32 (BString (Ethers.hexlify bs)) = Normal bs.
Proof.
  intros Hb Hlen. unfold Solidity._pack, Solidity.bytes32, Solidity.dataLength.
  cbn [Z.ltb Z.leb Z.compare Pos.compare Pos.compare_cont andb].
  rewrite getBytes_hexlify by assumption. cbn [cbind]. rewrite Hlen. reflexivity.
Qed.

Lemma solidityPackedKeccak256_bytes32_pair (a b : bytes) :
  Forall is_byte a -> length a = 32%nat -> Forall is_byte b -> length b = 32%nat ->
  Solidity.solidityPackedKeccak256 [Solidity.bytes32; Solidity.bytes32]
    [BString (Ethers.hexlify a); BString (Ethers.hexlify b)]
  = Normal (Ethers.keccak256 (a ++ b)).
Proof.
  intros Ha Hla Hb Hlb.
  unfold Solidity.solidityPackedKeccak256, Solidity.solidityPacked.
  cbn [length Nat.eqb Solidity.pack_all].
  rewrite !pack_bytes32 by assumption. cbn [cbind]. rewrite app_nil_r.
  rewrite getBytes_hexlify by (apply Forall_app; now split). reflexivity.
Qed.

End Packing.

(** X1.  A commitment binds the text [value + nonce], not the pair: moving
    characters from the end of the value to the start of the nonce leaves the
    commitment as it is, and [verifyCommitment] accepts the moved pair. *)
Theorem verifyCommitment_accepts_moved_split (value moved nonce : jsstring) bv bm bn :
  Forall code_unit value -> Forall code_unit moved -> Forall code_unit nonce ->
  Ethers.toUtf8Bytes value = Normal bv ->
  Ethers.toUtf8Bytes moved = Normal bm ->
  Ethers.toUtf8Bytes nonce = Normal bn ->
  exists commitment,
    CryptoUtils.createCommitment (value ++ moved) nonce = Normal commitment
    /\ CryptoUtils.createCommitment value (moved ++ nonce) = Normal commitment
    /\ CryptoUtils.verifyCommitment commitment (value ++ moved) nonce = Normal true
    /\ CryptoUtils.verifyCommitment commitment value (moved ++ nonce) = Normal true.
Proof.
  intros Hv Hm Hn Hbv Hbm Hbn.
  pose proof (toUtf8Bytes_app _ _ _ _ Hbv Hbm) as Hvm.
  pose proof (toUtf8Bytes_app _ _ _ _ Hbm Hbn) as Hmn.
  assert (Forall code_unit (value ++ moved)) as Hcvm by now apply Forall_app.
  assert (Forall code_unit (moved ++ nonce)) as Hcmn by now apply Forall_app.
  assert (CryptoUtils.createCommitment (value ++ moved) nonce
          = Normal (Ethers.keccak256 (bv ++ bm ++ bn))) as H1.
  { rewrite (createCommitment_bytes _ _ _ _ Hcvm Hn Hvm Hbn). now rewrite <- app_assoc. }
  assert (CryptoUtils.createCommitment value (moved ++ nonce)
          = Normal (Ethers.keccak256 (bv ++ bm ++ bn))) as H2
    by exact (createCommitment_bytes _ _ _ _ Hv Hcmn Hbv Hmn).
  eexists. split; [exact H1 |]. split; [exact H2 |].
  unfold CryptoUtils.verifyCommitment. rewrite H1, H2. cbn [cbind].
  rewrite bool_decide_eq_true_2 by reflexivity. now split.
Qed.

Lemma verifyCommitment_accepts_moved_split_witness :
  exists commitment,
    CryptoUtils.createCommitment (js "yes" ++ js "42") (js "7") = Normal commitment
    /\ CryptoUtils.createCommitment (js "yes") (js "42" ++ js "7") = Normal commitment
    /\ CryptoUtils.verifyCommitment commitment (js "yes" ++ js "42") (js "7") = Normal true
    /\ CryptoUtils.verifyCommitment commitment (js "yes") (js "42" ++ js "7") = Normal true.
Proof.
  apply (verifyCommitment_accepts_moved_split (js "yes") (js "42") (js "7")
           (js "yes") (js "42") (js "7"));
    first [ reflexivity
          | repeat (apply List.Forall_cons; [unfold code_unit; cbn; lia |]); apply List.Forall_nil ].
Defined.

(** X2.  On well-formed text the password hash is the commitment of the
    password and the salt, and it depends only on the text
    [password + salt]. *)
Theorem hashPassword_is_the_commitment (password salt : jsstring) bp bs :
  Forall code_unit password -> Forall code_unit salt ->
  Ethers.toUtf8Bytes password = Normal bp ->
  Ethers.toUtf8Bytes salt = Normal bs ->
  CryptoUtils.hashPassword password salt = CryptoUtils.createCommitment password salt
  /\ CryptoUtils.hashPassword password salt = Normal (Ethers.keccak256 (bp ++ bs))
  /\ forall password' salt',
       password' ++ salt' = password ++ salt ->
       CryptoUtils.hashPassword password' salt' = CryptoUtils.hashPassword password salt.
Proof.
  intros Hp Hs Hbp Hbs.
  assert (CryptoUtils.hashPassword password salt = Normal (Ethers.keccak256 (bp ++ bs))) as H.
  { unfold CryptoUtils.hashPassword. apply keccak256_text. now apply toUtf8Bytes_app. }
  split; [| split; [exact H |]].
  - rewrite H. symmetry. now apply createCommitment_bytes.
  - intros p' s' Heq. unfold CryptoUtils.hashPassword. now rewrite Heq.
Qed.

Lemma hashPassword_is_the_commitment_witness :
  CryptoUtils.hashPassword (js "hunter2") (js "salt")
  = CryptoUtils.createCommitment (js "hunter2") (js "salt")
  /\ CryptoUtils.hashPassword (js "hunter2") (js "salt")
     = Normal (Ethers.keccak256 (js "hunter2" ++ js "salt"))
  /\ forall password' salt',
       password' ++ salt' = js "hunter2" ++ js "salt" ->
       CryptoUtils.hashPassword password' salt'
       = CryptoUtils.hashPassword (js "hunter2") (js "salt").
Proof.
  apply (hashPassword_is_the_commitment (js "hunter2") (js "salt")
           (js "hunter2") (js "salt"));
    first [ reflexivity
          | repeat (apply List.Forall_cons; [unfold code_unit; cbn; lia |]); apply List.Forall_nil ].
Defined.

Section Ordering.

Lemma string_lt_asymmetric (a b : jsstring) :
  string_lt a b = true -> string_lt b a = false.
Proof.
  revert b. induction a as [| x a IH]; intros [| y b]; cbn [string_lt]; try easy.
  destruct (Z.ltb_spec x y), (Z.ltb_spec y x); try lia; try easy. apply IH.
Qed.

Lemma string_lt_total (a b : jsstring) :
  string_lt a b = false -> string_lt b a = false -> a = b.
Proof.
  revert b. induction a as [| x a IH]; intros [| y b]; cbn [string_lt]; try easy.
  destruct (Z.ltb_spec x y), (Z.ltb_spec y x); try lia; try easy.
  intros Ha Hb. f_equal; [lia | now apply IH].
Qed.

Lemma sorted_pair_swap (l r : jsstring) :
  CryptoUtils.sorted_pair l r = CryptoUtils.sorted_pair r l.
Proof.
  unfold CryptoUtils.sorted_pair.
  destruct (string_lt r l) eqn:Hrl.
  - now rewrite (string_lt_asymmetric _ _ Hrl).
  - destruct (string_lt l r) eqn:Hlr; [reflexivity |].
    now rewrite (string_lt_total _ _ Hrl Hlr).
Qed.

Lemma sorted_pair_cases (l r : jsstring) :
  CryptoUtils.sorted_pair l r = (l, r) \/ CryptoUtils.sorted_pair l r = (r, l).
Proof. unfold CryptoUtils.sorted_pair. destruct (string_lt r l); auto. Qed.

End Ordering.

(** X3.  The node of two hashes does not depend on the order in which they
    are given. *)
Theorem createMerkleNode_commutative (left right : jsstring) :
  CryptoUtils.createMerkleNode left right = CryptoUtils.createMerkleNode right left.
Proof.
  unfold CryptoUtils.createMerkleNode. now rewrite sorted_pair_swap.
Qed.

(** X4.  The leaves of two well-formed texts always have a node: a hash of
    66 characters, the Keccak-256 hash of the two leaf hashes in the order of
    their text. *)
Theorem createMerkleNode_of_leaves (a b : jsstring) ba bb :
  Ethers.toUtf8Bytes a = Normal ba -> Ethers.toUtf8Bytes b = Normal bb ->
  exists la lb node,
    CryptoUtils.createMerkleLeaf a = Normal la
    /\ CryptoUtils.createMerkleLeaf b = Normal lb
    /\ CryptoUtils.createMerkleNode la lb = Normal node
    /\ length node = 66%nat
    /\ (node = Ethers.keccak256 (Keccak.keccak256 ba ++ Keccak.keccak256 bb)
        \/ node = Ethers.keccak256 (Keccak.keccak256 bb ++ Keccak.keccak256 ba)).
Proof.
  intros Ha Hb.
  destruct (keccak256_shape ba) as [Hla Hba], (keccak256_shape bb) as [Hlb Hbb].
  exists (Ethers.hexlify (Keccak.keccak256 ba)), (Ethers.hexlify (Keccak.keccak256 bb)).
  unfold CryptoUtils.createMerkleLeaf. rewrite (keccak256_text a ba Ha), (keccak256_text b bb Hb).
  unfold CryptoUtils.createMerkleNode, CryptoUtils.solidityPackedKeccak256_any.
  assert (forall x, length (Ethers.keccak256 x) = 66%nat) as Hlen.
  { intros x. unfold Ethers.keccak256. rewrite length_hexlify.
    now destruct (keccak256_shape x) as [-> _]. }
  destruct (sorted_pair_cases (Ethers.hexlify (Keccak.keccak256 ba))
              (Ethers.hexlify (Keccak.keccak256 bb))) as [-> | ->];
    cbv beta iota;
    rewrite solidityPackedKeccak256_bytes32_pair by assumption;
    eexists; repeat split; auto.
Qed.

Lemma createMerkleNode_of_leaves_witness :
  exists la lb node,
    CryptoUtils.createMerkleLeaf (js "a") = Normal la
    /\ CryptoUtils.createMerkleLeaf (js "b") = Normal lb
    /\ CryptoUtils.createMerkleNode la lb = Normal node
    /\ length node = 66%nat
    /\ (node = Ethers.keccak256 (Keccak.keccak256 (js "a") ++ Keccak.keccak256 (js "b"))
        \/ node = Ethers.keccak256 (Keccak.keccak256 (js "b") ++ Keccak.keccak256 (js "a"))).
Proof.
  apply (createMerkleNode_of_leaves (js "a") (js "b") (js "a") (js "b")); reflexivity.
Defined.

Section SigningTheHash.

Lemma hashMessage_bytes (arr : bytes) :
  Ethers.hashMessage (Ethers.MsgBytes arr)
  = Normal (Ethers.keccak256
              (Ethers.MessagePrefix ++ Ethers.decimal_digits (Z.of_nat (length arr)) ++ arr)).
Proof.
  unfold Ethers.hashMessage, Ethers.messageBytes. cbn [cbind].
  change (Ethers.toUtf8Bytes Ethers.MessagePrefix) with (Normal Ethers.MessagePrefix).
  cbn [cbind].
  destruct (decimal_aux_ascii (S (Z.to_nat (Z.log2 (Z.of_nat (length arr)))))
              (Z.of_nat (length arr)) [] ltac:(lia) ltac:(constructor)) as [Hascii _].
  fold (Ethers.decimal_digits (Z.of_nat (length arr))) in Hascii.
  now rewrite (toUtf8Bytes_ascii _ Hascii).
Qed.

End SigningTheHash.

(** X5.  [signJobTaking] has the signer sign the digest that
    [createJobSignatureMessage] returns: the EIP-191 digest of the bytes of
    the hash without its leading zero bytes.  A failure of the signer comes
    back wrapped; where the hash has no value neither function has. *)
Theorem signJobTaking_signs_createJobSignatureMessage
    (s : Ethers.Signer) (eventsLength : Z) (jobId : BigNumberish) :
  match CryptoUtils.createJobSignatureHash eventsLength jobId with
  | Normal h =>
      exists hash digest,
        h = Ethers.hexlify hash
        /\ digest = Ethers.keccak256
                      (Ethers.MessagePrefix
                       ++ Ethers.decimal_digits (Z.of_nat (length (drop_leading_zeros hash)))
                       ++ drop_leading_zeros hash)
        /\ CryptoUtils.createJobSignatureMessage eventsLength jobId = Normal digest
        /\ CryptoUtils.signJobTaking s eventsLength jobId
           = try_catch (Ethers.sign_digest s digest)
               (fun error =>
                  Throw (newError ("Failed to sign message: " +:+ err_message error)))
  | Throw e =>
      CryptoUtils.createJobSignatureMessage eventsLength jobId = Throw e
      /\ CryptoUtils.signJobTaking s eventsLength jobId = Throw e
  end.
Proof.
  unfold CryptoUtils.createJobSignatureMessage, CryptoUtils.signJobTaking.
  destruct (CryptoUtils.createJobSignatureHash eventsLength jobId) as [h | e] eqn:Hh;
    [| split; reflexivity].
  apply hash_shape in Hh as (bs & -> & Hlen & Hbytes).
  assert (bs <> []) as Hne by (intros ->; discriminate Hlen).
  exists bs. eexists. split; [reflexivity |]. split; [reflexivity |].
  cbn [cbind]. rewrite toBeArray_hexlify by assumption. cbn [cbind].
  unfold CryptoUtils.signMessage, Ethers.signMessage.
  rewrite hashMessage_bytes. cbn [cbind]. split; reflexivity.
Qed.

(** ** Bytes32 strings and private keys *)

Section Bytes32Strings.

Lemma null_terminated_length_padded (s : bytes) (k len : nat) :
  Forall is_ascii s -> (length s <= len <= length s + k)%nat ->
  Ethers.null_terminated_length (s ++ repeat 0 k) len = length s.
Proof.
  intros Hs. induction len as [| len IH]; intros Hlen.
  - cbn. lia.
  - cbn [Ethers.null_terminated_length].
    destruct (Nat.eq_dec (length s) (S len)) as [Heq | Hne].
    + rewrite nth_error_app1 by lia.
      destruct (nth_error s len) as [c |] eqn:Hc.
      * apply nth_error_In in Hc. rewrite List.Forall_forall in Hs. apply Hs in Hc.
        unfold is_ascii in Hc. destruct c; (lia || now symmetry).
      * now symmetry.
    + rewrite nth_error_app2 by lia.
      rewrite nth_error_repeat by lia. apply IH. lia.
Qed.

Lemma encodeBytes32String_ascii (s : jsstring) :
  Forall is_ascii s -> (length s <= 31)%nat ->
  Ethers.encodeBytes32String s
  = Normal (Ethers.hexlify (s ++ repeat 0 (32 - length s))).
Proof.
  intros Hs Hlen. unfold Ethers.encodeBytes32String, Ethers.zeroPadBytes.
  rewrite toUtf8Bytes_ascii by assumption. cbn [cbind].
  destruct (Nat.ltb_spec 31 (length s)); [lia |].
  destruct (Nat.leb_spec (length s) 32); [| lia]. reflexivity.
Qed.

Lemma decodeBytes32String_padded (s : jsstring) :
  Forall is_ascii s -> (length s <= 31)%nat ->
  Ethers.decodeBytes32String (Ethers.hexlify (s ++ repeat 0 (32 - length s))) = Normal s.
Proof.
  intros Hs Hlen. unfold Ethers.decodeBytes32String.
  rewrite getBytes_hexlify.
  2:{ apply Forall_app. split; [now apply is_ascii_is_byte |].
      apply List.Forall_forall. intros x Hx. apply repeat_spec in Hx. subst. unfold is_byte. lia. }
  cbn [cbind]. rewrite length_app, repeat_length.
  replace (length s + (32 - length s))%nat with 32%nat by lia. cbn [Nat.eqb negb].
  rewrite app_nth2 by lia. rewrite nth_repeat_lt by lia. cbn [Z.eqb negb].
  rewrite null_terminated_length_padded by (assumption || lia).
  rewrite firstn_app, firstn_all, Nat.sub_diag. cbn [firstn]. rewrite app_nil_r.
  now apply toUtf8String_ascii.
Qed.

End Bytes32Strings.

(** X6.  ASCII text of at most 31 characters comes back from its bytes32
    form; longer text has none. *)
Theorem decodeBytes32String_encodeBytes32String (text : jsstring) :
  Forall is_ascii text ->
  if (length text <=? 31)%nat then
    (let* b := CryptoUtils.encodeBytes32String text in CryptoUtils.decodeBytes32String b)
    = Normal text
  else
    CryptoUtils.encodeBytes32String text
    = Throw (newError "bytes32 string must be less than 32 bytes").
Proof.
  intros Hs. unfold CryptoUtils.encodeBytes32String, CryptoUtils.decodeBytes32String.
  destruct (Nat.leb_spec (length text) 31) as [Hlen | Hlen].
  - rewrite encodeBytes32String_ascii by assumption. cbn [cbind].
    now apply decodeBytes32String_padded.
  - unfold Ethers.encodeBytes32String. rewrite toUtf8Bytes_ascii by assumption. cbn [cbind].
    destruct (Nat.ltb_spec 31 (length text)); [reflexivity | lia].
Qed.

Lemma decodeBytes32String_encodeBytes32String_witness :
  (let* b := CryptoUtils.encodeBytes32String (js "QmDeliveryHash456") in
   CryptoUtils.decodeBytes32String b) = Normal (js "QmDeliveryHash456").
Proof.
  apply (decodeBytes32String_encodeBytes32String (js "QmDeliveryHash456")).
  repeat (apply List.Forall_cons; [unfold is_ascii; cbn; lia |]). apply List.Forall_nil.
Defined.

Section PrivateKeys.

Lemma startsWith_app (p s : jsstring) : IPFSUtils.startsWith (p ++ s) p = true.
Proof. induction p as [| c p IH]; [now destruct s |]. cbn. now rewrite Z.eqb_refl, IH. Qed.

Lemma startsWith_split (s p : jsstring) :
  IPFSUtils.startsWith s p = true -> s = p ++ skipn (length p) s.
Proof.
  revert s. induction p as [| c p IH]; intros s; [reflexivity |].
  destruct s as [| d s]; [discriminate |]. cbn.
  intros H. apply andb_true_iff in H as [Hc Hp]. apply Z.eqb_eq in Hc. subst.
  f_equal. now apply IH.
Qed.

End PrivateKeys.

(** X7.  [isValidPrivateKey] accepts exactly 64 hex digits, with or without
    [0x] before them. *)
Theorem isValidPrivateKey_iff (privateKey : jsstring) :
  WalletConnector.isValidPrivateKey privateKey = true
  <-> exists digits,
        length digits = 64%nat
        /\ forallb WalletConnector.hex_char digits = true
        /\ (privateKey = digits \/ privateKey = js "0x" ++ digits).
Proof.
  unfold WalletConnector.isValidPrivateKey. split.
  - destruct (IPFSUtils.startsWith privateKey (js "0x")) eqn:Hp; cbn [negb].
    + rewrite Hp. intros H. apply andb_true_iff in H as [_ H].
      apply andb_true_iff in H as [H Hlen]. cbn [andb] in H.
      exists (skipn 2 privateKey). apply Nat.eqb_eq in Hlen.
      split; [exact Hlen |]. split; [exact H |]. right.
      now apply (startsWith_split privateKey (js "0x")).
    + rewrite startsWith_app. cbn [andb]. change (skipn 2 (js "0x" ++ privateKey)) with privateKey.
      intros H. apply andb_true_iff in H as [_ H]. apply andb_true_iff in H as [H Hlen].
      exists privateKey. apply Nat.eqb_eq in Hlen. auto.
  - intros (digits & Hlen & Hhex & [-> | ->]).
    + assert (IPFSUtils.startsWith digits (js "0x") = false) as ->.
      { destruct (IPFSUtils.startsWith digits (js "0x")) eqn:Hp; [| reflexivity].
        apply startsWith_split in Hp. rewrite Hp in Hhex. discriminate Hhex. }
      cbn [negb]. rewrite startsWith_app. change (skipn 2 (js "0x" ++ digits)) with digits.
      rewrite Hhex, length_app, Hlen. reflexivity.
    + rewrite startsWith_app. cbn [negb]. rewrite startsWith_app.
      change (skipn 2 (js "0x" ++ digits)) with digits.
      rewrite Hhex, length_app, Hlen. reflexivity.
Qed.

(** ** The content store *)

(** X8.  The constructor fills in every default: the gateway and the API
    endpoint are never empty, the timeout is never 0, and a configuration
    that has been through the constructor goes through it unchanged.
    [createConfig] gives its two arguments the same defaults. *)
Theorem IPFSUtils_new_defaults (config : option IPFSConfig) :
  let filled := IPFSUtils.new config in
  (exists g a t,
      gateway filled = Some g /\ apiEndpoint filled = Some a /\ timeout filled = Some t
      /\ g <> [] /\ a <> [] /\ t <> 0)
  /\ IPFSUtils.new (Some filled) = filled
  /\ forall g a, IPFSUtils.createConfig g a = IPFSUtils.new (Some (mkIPFSConfig g a None)).
Proof.
  cbv zeta.
  assert (forall a b, b <> [] -> IPFSUtils.or_string a b <> []) as Hs
    by (intros [[| ? ?] |] b Hb; cbn; congruence).
  assert (forall a b, b <> [] -> IPFSUtils.or_string (Some (IPFSUtils.or_string a b)) b
                                 = IPFSUtils.or_string a b) as Hs'.
  { intros a b Hb. specialize (Hs a b Hb).
    destruct (IPFSUtils.or_string a b); [congruence | reflexivity]. }
  assert (forall a b, b <> 0 -> IPFSUtils.or_number a b <> 0) as Hn
    by (intros [[| ? | ?] |] b Hb; cbn; lia).
  assert (forall a b, b <> 0 -> IPFSUtils.or_number (Some (IPFSUtils.or_number a b)) b
                                = IPFSUtils.or_number a b) as Hn'.
  { intros a b Hb. specialize (Hn a b Hb).
    destruct (IPFSUtils.or_number a b); [congruence | reflexivity | reflexivity]. }
  unfold IPFSUtils.new. cbn -[IPFSUtils.or_string IPFSUtils.or_number js]. split; [| split].
  - do 3 eexists. split; [reflexivity |]. split; [reflexivity |]. split; [reflexivity |].
    split; [| split]; [apply Hs | apply Hs | apply Hn]; (discriminate || lia).
  - rewrite !Hs', Hn' by (discriminate || lia). reflexivity.
  - reflexivity.
Qed.

Section ContentUrls.

Lemma forallb_impl (p q : Z -> bool) (s : list Z) :
  (forall c, p c = true -> q c = true) -> forallb p s = true -> forallb q s = true.
Proof.
  intros Hpq. rewrite !forallb_forall. auto.
Qed.

Lemma strip_ipfs_prefix_plain (h : jsstring) :
  forallb plain_char h = true -> IPFSUtils.strip_ipfs_prefix h = h.
Proof.
  intros H. unfold IPFSUtils.strip_ipfs_prefix.
  assert (forall p, forallb plain_char p = false -> IPFSUtils.startsWith h p = false) as Hno.
  { intros p Hp. destruct (IPFSUtils.startsWith h p) eqn:Hs; [| reflexivity].
    apply startsWith_split in Hs. rewrite Hs, forallb_app, Hp in H. discriminate H. }
  rewrite !Hno by reflexivity. reflexivity.
Qed.

Lemma valid_hash_plain (h : jsstring) :
  IPFSUtils.isValidIPFSHash h = true -> forallb plain_char h = true.
Proof.
  assert (forall c, IPFSUtils.base58_char c = true -> plain_char c = true) as H58.
  { intros c. unfold IPFSUtils.base58_char, plain_char.
    rewrite negb_true_iff, orb_false_iff, !Z.eqb_neq, !orb_true_iff, !andb_true_iff, !Z.leb_le.
    lia. }
  assert (forall c, IPFSUtils.base32_char c = true -> plain_char c = true) as H32.
  { intros c. unfold IPFSUtils.base32_char, plain_char.
    rewrite negb_true_iff, orb_false_iff, !Z.eqb_neq, !orb_true_iff, !andb_true_iff, !Z.leb_le.
    lia. }
  unfold IPFSUtils.isValidIPFSHash.
  destruct (IPFSUtils.startsWith h (js "Qm") && _ && _) eqn:H1.
  { intros _. apply andb_true_iff in H1 as [H1 _]. apply andb_true_iff in H1 as [Hqm Hrest].
    apply startsWith_split in Hqm. change (length (js "Qm")) with 2%nat in Hqm.
    rewrite Hqm, forallb_app. now rewrite (forallb_impl _ _ _ H58 Hrest). }
  destruct (forallb IPFSUtils.base32_char h && _) eqn:H2.
  { intros _. apply andb_true_iff in H2 as [H2 _]. exact (forallb_impl _ _ _ H32 H2). }
  destruct (IPFSUtils.startsWith h (js "b") && _ && _) eqn:H3; [| discriminate].
  intros _. apply andb_true_iff in H3 as [H3 _]. apply andb_true_iff in H3 as [Hb Hrest].
  apply startsWith_split in Hb. change (length (js "b")) with 1%nat in Hb.
  rewrite Hb, forallb_app. now rewrite (forallb_impl _ _ _ H32 Hrest).
Qed.

End ContentUrls.

(** X9.  [createIPFSUrl] removes one leading [ipfs://], [/ipfs/] or [ipfs/]
    and no more: the three ways to write a hash give the URL of the hash,
    whatever comes after the prefix. *)
Theorem createIPFSUrl_strips_one_prefix (config : IPFSConfig) (rest : jsstring)
    (gateway_ : option jsstring) :
  let url := IPFSUtils.createIPFSUrl config [] gateway_ ++ rest in
  IPFSUtils.createIPFSUrl config (js "ipfs://" ++ rest) gateway_ = url
  /\ IPFSUtils.createIPFSUrl config (js "/ipfs/" ++ rest) gateway_ = url
  /\ IPFSUtils.createIPFSUrl config (js "ipfs/" ++ rest) gateway_ = url.
Proof.
  cbv zeta. unfold IPFSUtils.createIPFSUrl.
  change (IPFSUtils.strip_ipfs_prefix []) with (@nil Z). rewrite app_nil_r.
  assert (IPFSUtils.strip_ipfs_prefix (js "ipfs://" ++ rest) = rest) as ->
    by (unfold IPFSUtils.strip_ipfs_prefix; now rewrite startsWith_app).
  assert (IPFSUtils.strip_ipfs_prefix (js "/ipfs/" ++ rest) = rest) as ->.
  { unfold IPFSUtils.strip_ipfs_prefix. rewrite startsWith_app.
    now replace (IPFSUtils.startsWith (js "/ipfs/" ++ rest) (js "ipfs://")) with false
      by (vm_compute; reflexivity). }
  assert (IPFSUtils.strip_ipfs_prefix (js "ipfs/" ++ rest) = rest) as ->.
  { unfold IPFSUtils.strip_ipfs_prefix. rewrite startsWith_app.
    replace (IPFSUtils.startsWith (js "ipfs/" ++ rest) (js "ipfs://")) with false
      by (vm_compute; reflexivity).
    now replace (IPFSUtils.startsWith (js "ipfs/" ++ rest) (js "/ipfs/")) with false
      by (vm_compute; reflexivity). }
  repeat split.
Qed.

(** X10.  A valid IPFS hash has no prefix to remove: its URL is the gateway
    followed by the hash, and that URL is the one [fetchFromIPFS]
    requests. *)
Theorem valid_hash_is_fetched_from_its_url (E : Env) (w : World E) (config : IPFSConfig)
    (hash : jsstring) :
  IPFSUtils.isValidIPFSHash hash = true ->
  IPFSUtils.createIPFSUrl config hash None
  = IPFSUtils.createIPFSUrl config [] None ++ hash
  /\ (run E (IPFSUtils.fetchFromIPFS config hash) w).2
     = [Called (Fetch (IPFSUtils.createIPFSUrl config hash None))].
Proof.
  intros Hvalid. apply valid_hash_plain, strip_ipfs_prefix_plain in Hvalid.
  split.
  - unfold IPFSUtils.createIPFSUrl. rewrite Hvalid.
    change (IPFSUtils.strip_ipfs_prefix []) with (@nil Z). now rewrite app_nil_r.
  - unfold IPFSUtils.fetchFromIPFS, IPFSUtils.createIPFSUrl. cbn [run].
    destruct (respond E Response w _) as [o w1]. reflexivity.
Qed.

Lemma valid_hash_is_fetched_from_its_url_witness :
  let hash := js "QmYwAPJzv5CZsnA625s3Xf2nemtYgPpHdWEz79ojWnPbdG" in
  IPFSUtils.createIPFSUrl (IPFSUtils.new None) hash None
  = IPFSUtils.createIPFSUrl (IPFSUtils.new None) [] None ++ hash
  /\ (run Sample.accepting_ledger
        (IPFSUtils.fetchFromIPFS (IPFSUtils.new None) hash) Sample.chain).2
     = [Called (Fetch (IPFSUtils.createIPFSUrl (IPFSUtils.new None) hash None))].
Proof.
  exact (valid_hash_is_fetched_from_its_url Sample.accepting_ledger Sample.chain
           (IPFSUtils.new None) (js "QmYwAPJzv5CZsnA625s3Xf2nemtYgPpHdWEz79ojWnPbdG")
           eq_refl).
Defined.

(** X11.  [isValidIPFSHash] accepts [Qm] followed by 44 base58 characters, and
    59 characters of the base32 alphabet; its third pattern accepts nothing
    the second does not. *)
Theorem isValidIPFSHash_iff (hash : jsstring) :
  IPFSUtils.isValidIPFSHash hash = true
  <-> (exists rest, hash = js "Qm" ++ rest /\ length rest = 44%nat
                    /\ forallb IPFSUtils.base58_char rest = true)
      \/ (length hash = 59%nat /\ forallb IPFSUtils.base32_char hash = true).
Proof.
  unfold IPFSUtils.isValidIPFSHash. split.
  - destruct (IPFSUtils.startsWith hash (js "Qm") && _ && _) eqn:H1.
    { intros _. left. apply andb_true_iff in H1 as [H1 Hlen].
      apply andb_true_iff in H1 as [Hqm Hrest]. apply Nat.eqb_eq in Hlen.
      exists (skipn 2 hash). split; [now apply (startsWith_split hash (js "Qm")) |].
      split; [rewrite length_skipn; lia | exact Hrest]. }
    destruct (forallb IPFSUtils.base32_char hash && _) eqn:H2.
    { intros _. right. apply andb_true_iff in H2 as [H2 Hlen].
      apply Nat.eqb_eq in Hlen. now split. }
    destruct (IPFSUtils.startsWith hash (js "b") && _ && _) eqn:H3; [| discriminate].
    intros _. exfalso. apply andb_true_iff in H3 as [H3 Hlen].
    apply andb_true_iff in H3 as [Hb Hrest]. apply startsWith_split in Hb.
    change (length (js "b")) with 1%nat in Hb.
    assert (forallb IPFSUtils.base32_char hash = true) as Hall
      by (rewrite Hb, forallb_app, Hrest; reflexivity).
    rewrite Hall, Hlen in H2. discriminate H2.
  - intros [(rest & -> & Hlen & Hrest) | [Hlen Hall]].
    + rewrite startsWith_app. change (skipn 2 (js "Qm" ++ rest)) with rest.
      rewrite Hrest, length_app, Hlen. reflexivity.
    + rewrite Hall, Hlen. cbn [Nat.eqb andb]. now destruct (_ && _).
Qed.

(** X12.  [bytes32ToHash] never throws: it returns the text that its argument
    decodes to when that text is not empty, and its argument as it is
    otherwise. *)
Theorem bytes32ToHash_total (bytes32 : jsstring) :
  IPFSUtils.bytes32ToHash bytes32
  = match Ethers.decodeBytes32String bytes32 with
    | Normal (c :: parsed) => Normal (c :: parsed)
    | _ => Normal bytes32
    end.
Proof.
  unfold IPFSUtils.bytes32ToHash. cbv zeta.
  destruct (IPFSUtils.startsWith bytes32 (js "0x") && (length bytes32 =? 66)%nat);
    destruct (Ethers.decodeBytes32String bytes32) as [[| c parsed] | e]; reflexivity.
Qed.

(** X13.  On ASCII text [hashToBytes32] always has a value, the hex form of 32
    bytes, and reads no more than the first 31 characters: whatever follows
    them does not change the result. *)
Theorem hashToBytes32_reads_31_characters (hash : jsstring) :
  Forall is_ascii hash ->
  (exists bs, IPFSUtils.hashToBytes32 hash = Normal (Ethers.hexlify bs)
              /\ length bs = 32%nat /\ Forall is_byte bs)
  /\ forall suffix, (31 <= length hash)%nat ->
                    IPFSUtils.hashToBytes32 (hash ++ suffix) = IPFSUtils.hashToBytes32 hash.
Proof.
  intros Hascii. split.
  - rewrite hashToBytes32_fallback.
    assert (Forall is_ascii (firstn 31 hash)) as H31 by now apply Forall_take.
    assert (length (firstn 31 hash) <= 31)%nat as Hlen by (rewrite length_firstn; lia).
    rewrite encodeBytes32String_ascii by assumption. eexists. split; [reflexivity |].
    split.
    + rewrite length_app, repeat_length. lia.
    + apply Forall_app. split; [now apply is_ascii_is_byte |].
      apply List.Forall_forall. intros x Hx. apply repeat_spec in Hx. subst. unfold is_byte. lia.
  - intros suffix Hlen. rewrite !hashToBytes32_fallback. f_equal.
    rewrite firstn_app. replace (31 - length hash)%nat with 0%nat by lia.
    cbn [firstn]. now rewrite app_nil_r.
Qed.

Lemma hashToBytes32_reads_31_characters_witness :
  let hash := js "QmYwAPJzv5CZsnA625s3Xf2nemtYgPpHdWEz79ojWnPbdG" in
  (exists bs, IPFSUtils.hashToBytes32 hash = Normal (Ethers.hexlify bs)
              /\ length bs = 32%nat /\ Forall is_byte bs)
  /\ forall suffix, (31 <= length hash)%nat ->
                    IPFSUtils.hashToBytes32 (hash ++ suffix) = IPFSUtils.hashToBytes32 hash.
Proof.
  apply (hashToBytes32_reads_31_characters
           (js "QmYwAPJzv5CZsnA625s3Xf2nemtYgPpHdWEz79ojWnPbdG")).
  repeat (apply List.Forall_cons; [unfold is_ascii; cbn; lia |]). apply List.Forall_nil.
Defined.

(** ** What a call leaves of the client *)

Section Frames.

Variable E : Env.

Ltac settle :=
  repeat match goal with
         | |- context [match signer (wallet ?t) with _ => _ end] =>
             destruct (signer (wallet t)); cbn -[respond CryptoUtils.signMessage
               CryptoUtils.createJobSignatureHash Ethers.signMessage]
         | |- context [match marketplaceV2 ?t with _ => _ end] =>
             destruct (marketplaceV2 t); cbn -[respond CryptoUtils.signMessage
               CryptoUtils.createJobSignatureHash Ethers.signMessage]
         | |- context [match marketplaceData ?t with _ => _ end] =>
             destruct (marketplaceData t); cbn -[respond CryptoUtils.signMessage
               CryptoUtils.createJobSignatureHash Ethers.signMessage]
         | |- context [respond E ?X ?w ?e] =>
             destruct (respond E X w e) as [[? | ?] ?]; cbn -[respond CryptoUtils.signMessage
               CryptoUtils.createJobSignatureHash Ethers.signMessage]
         | |- context [CryptoUtils.signMessage ?s ?m] =>
             destruct (CryptoUtils.signMessage s m); cbn -[respond CryptoUtils.signMessage
               CryptoUtils.createJobSignatureHash Ethers.signMessage]
         | |- context [Ethers.signMessage ?s ?m] =>
             destruct (Ethers.signMessage s m); cbn -[respond CryptoUtils.signMessage
               CryptoUtils.createJobSignatureHash Ethers.signMessage]
         | |- context [CryptoUtils.createJobSignatureHash ?n ?j] =>
             destruct (CryptoUtils.createJobSignatureHash n j); cbn -[respond CryptoUtils.signMessage
               CryptoUtils.createJobSignatureHash Ethers.signMessage]
         end.

Lemma invoke_frame (op : Op.t) (this : EACCClient) (w : World E) :
  (Session.perform E (Session.operation op) this w).1.1 = this.
Proof.
  unfold Session.perform, Session.leaves.
  destruct op; cbn -[respond CryptoUtils.signMessage CryptoUtils.createJobSignatureHash
                     Ethers.signMessage]; settle; reflexivity.
Qed.

Lemma run_prog_bind {A B} (p : Prog A) (f : A -> Prog B) (w : World E) :
  run E (prog_bind p f) w
  = let '(a, w1, tr1) := run E p w in
    let '(b, w2, tr2) := run E (f a) w1 in
    (b, w2, tr1 ++ tr2).
Proof.
  revert w. induction p as [a | X e k IH]; intros w; cbn [prog_bind run].
  - now destruct (run E (f a) w) as [[b w2] tr2].
  - destruct (respond E X w e) as [o w1]. rewrite IH.
    destruct (run E (k o) w1) as [[a w2] tr1].
    now destruct (run E (f a) w2) as [[b w3] tr2].
Qed.

Lemma run_fetchFromIPFS (config : IPFSConfig) (hash : jsstring) (w : World E) :
  exists r w1,
    run E (IPFSUtils.fetchFromIPFS config hash) w
    = (r, w1, [Called (Fetch (IPFSUtils.createIPFSUrl config hash None))]).
Proof.
  unfold IPFSUtils.fetchFromIPFS, IPFSUtils.createIPFSUrl. cbn [run].
  destruct (respond E Response w _) as [o w1]. eauto.
Qed.

Lemma bytes32ToHash_returns (bytes32 : jsstring) :
  exists h, IPFSUtils.bytes32ToHash bytes32 = Normal h.
Proof.
  unfold IPFSUtils.bytes32ToHash. cbv zeta.
  destruct (IPFSUtils.startsWith bytes32 (js "0x") && (length bytes32 =? 66)%nat);
    destruct (Ethers.decodeBytes32String bytes32) as [[| c parsed] | e]; eauto.
Qed.

(** The two ways [fetchJobContent] can go: the first fetch and the parse
    succeed, or a second fetch is made for the hash as it was given. *)
Lemma run_fetchJobContent (JSON_parse : jsstring -> Completion JsValue)
    (contentHash : jsstring) (this : EACCClient) (w : World E) :
  exists ipfsHash r w1,
    IPFSUtils.bytes32ToHash contentHash = Normal ipfsHash
    /\
       let first := Called (Fetch (IPFSUtils.createIPFSUrl (ipfs this) ipfsHash None)) in
       let second := Called (Fetch (IPFSUtils.createIPFSUrl (ipfs this) contentHash None)) in
       (run E (EACCClient.fetchJobContent JSON_parse contentHash this) w
        = (r, this, w1, [first])
        /\ exists v, r = Normal v)
       \/ (run E (EACCClient.fetchJobContent JSON_parse contentHash this) w
           = (r, this, w1, [first; second])
           /\ forall v, r = Normal v -> exists content, v = VString content).
Proof.
  destruct (bytes32ToHash_returns contentHash) as [h Hh]. exists h.
  assert (forall w', exists r2 w2,
            run E (prog_bind (prog_bind (IPFSUtils.fetchFromIPFS (ipfs this) contentHash)
                                (fun r => Ret (r, this)))
                     (fun '(r, this') =>
                        match r with
                        | Normal a => mret (VString a) this'
                        | Throw e => Ret (Throw e, this')
                        end)) w'
            = (r2, this, w2, [Called (Fetch (IPFSUtils.createIPFSUrl (ipfs this) contentHash None))])
            /\ forall v, r2 = Normal v -> exists content, v = VString content) as Hsecond.
  { intros w'. rewrite !run_prog_bind.
    destruct (run_fetchFromIPFS (ipfs this) contentHash w') as (r2 & w2 & ->).
    destruct r2 as [content | e]; cbn; do 2 eexists; (split; [reflexivity |]).
    - intros v [= <-]. eauto.
    - intros v [=]. }
  destruct (run E (EACCClient.fetchJobContent JSON_parse contentHash this) w)
    as [[[r this'] w'] tr] eqn:Hrun.
  exists r, w'. split; [exact Hh |]. cbv zeta.
  unfold EACCClient.fetchJobContent, mcatch in Hrun. cbv beta in Hrun.
  rewrite run_prog_bind in Hrun.
  cbn -[respond IPFSUtils.fetchFromIPFS IPFSUtils.bytes32ToHash IPFSUtils.createIPFSUrl run]
    in Hrun.
  rewrite Hh in Hrun.
  cbn -[respond IPFSUtils.fetchFromIPFS IPFSUtils.bytes32ToHash IPFSUtils.createIPFSUrl run]
    in Hrun.
  unfold mbind, mawait, mlift in Hrun. cbv beta in Hrun.
  rewrite !run_prog_bind in Hrun.
  destruct (run_fetchFromIPFS (ipfs this) h w) as (r1 & w1 & Hfirst).
  rewrite Hfirst in Hrun.
  destruct r1 as [content | e]; cbn [run app] in Hrun.
  - destruct (JSON_parse content) as [v | e]; cbn [run app] in Hrun.
    + injection Hrun as <- <- <- <-. left. split; [reflexivity | eauto].
    + destruct (Hsecond w1) as (r2 & w2 & Hrun2 & Hr2). rewrite Hrun2 in Hrun.
      injection Hrun as <- <- <- <-. right. split; [reflexivity | exact Hr2].
  - destruct (Hsecond w1) as (r2 & w2 & Hrun2 & Hr2). rewrite Hrun2 in Hrun.
    injection Hrun as <- <- <- <-. right. split; [reflexivity | exact Hr2].
Qed.

Lemma other_frames (c : Session.Call) (this : EACCClient) (w : World E) :
  match c with
  | Session.connectProvider _ | Session.connectWithPrivateKey _ _ _
  | Session.disconnect => True
  | _ => (Session.perform E c this w).1.1 = this
  end.
Proof.
  destruct c as [op | | | | | | | | |]; try exact I; try apply invoke_frame;
    unfold Session.perform, Session.leaves.
  - cbn -[respond]. settle; reflexivity.
  - cbn -[respond]. settle; reflexivity.
  - cbn -[respond]. settle; reflexivity.
  - destruct (run_fetchFromIPFS (ipfs this) hash w) as (r & w1 & Hrun).
    unfold EACCClient.fetchFromIPFS, mbind, get_this, mawait. cbn [prog_bind].
    rewrite run_prog_bind, Hrun. reflexivity.
  - destruct (run_fetchJobContent JSON_parse contentHash this w)
      as (h & r & w1 & _ & [[-> _] | [-> _]]); reflexivity.
  - cbn -[respond]. settle; reflexivity.
Qed.

End Frames.

(** ** Connecting and disconnecting *)

Section Connecting.

Variable E : Env.
Variable rt : Runtime.

(** [connectProvider]: the wallet takes the provider at once, and the signer
    and the contracts once [provider.getSigner()] has resolved. *)
Lemma run_connectProvider (p : Ethers.Provider) (this : EACCClient) (w : World E) :
  run E (EACCClient.connectProvider p this) w
  = match respond E Ethers.Signer w (GetSigner p) with
    | (Normal s, w1) =>
        (Normal tt,
         EACCClient.initializeContracts (RunnerSigner s)
           (mkEACCClient (marketplaceV2 this) (marketplaceData this)
              (mkWalletConnector (Some p) (Some s)) (ipfs this) (config this)),
         w1, [Called (GetSigner p)])
    | (Throw e, w1) =>
        (Throw e,
         mkEACCClient (marketplaceV2 this) (marketplaceData this)
           (mkWalletConnector (Some p) (signer (wallet this))) (ipfs this) (config this),
         w1, [Called (GetSigner p)])
    end.
Proof.
  cbn -[respond]. destruct (respond E Ethers.Signer w (GetSigner p)) as [[s | e] w1]; reflexivity.
Qed.

(** [disconnect]: nothing happens while a contract field is unset; otherwise
    the wallet is emptied after its warning. *)
Lemma run_disconnect (this : EACCClient) (w : World E) :
  run E (EACCClient.disconnect this) w
  = match marketplaceV2 this, marketplaceData this with
    | Some _, Some _ =>
        let warning :=
          ConsoleWarn "Remove all listeners not implemented for this provider type" in
        match respond E unit w warning with
        | (Normal _, w1) => (Normal tt, Session.unplugged this, w1, [Called warning])
        | (Throw e, w1) => (Throw e, this, w1, [Called warning])
        end
    | _, _ => (Throw (undefined_property "removeAllListeners"), this, w, [])
    end.
Proof.
  cbn -[respond undefined_property].
  destruct (marketplaceV2 this); [| reflexivity]. cbn -[respond undefined_property].
  destruct (marketplaceData this); [| reflexivity]. cbn -[respond undefined_property].
  destruct (respond E unit w _) as [[[] | e] w1]; reflexivity.
Qed.

Lemma run_wallet_connectWithPrivateKey (privateKey rpcUrl : jsstring)
    (this : EACCClient) (w : World E) :
  run E (WalletConnector.connectWithPrivateKey rt privateKey rpcUrl this) w
  = let p := Ethers.JsonRpcProvider rpcUrl in
    if negb (length (WalletConnector.with_0x privateKey) =? 66)%nat then
      (Throw (WalletConnector.connection_failed WalletConnector.invalid_private_key_length), this, w, [])
    else
      match new_Wallet rt (WalletConnector.with_0x privateKey) p with
      | Throw e =>
          (Throw (WalletConnector.connection_failed e),
           Session.with_wallet (mkWalletConnector (Some p) (signer (wallet this))) this, w, [])
      | Normal s =>
          let connected := Session.with_wallet (mkWalletConnector (Some p) (Some s)) this in
          let '(network, w1, tr1) := run E (getNetwork rt p) w in
          match network with
          | Throw e => (Throw (WalletConnector.connection_failed e), connected, w1, tr1)
          | Normal chainId =>
              let '(logged, w2, tr2) :=
                run E (console_log rt
                         (js "Connected with private key: " ++ Ethers.signer_address s
                          ++ js " on network " ++ Ethers.decimal_digits chainId)) w1 in
              match logged with
              | Throw e => (Throw (WalletConnector.connection_failed e), connected, w2, tr1 ++ tr2)
              | Normal _ => (Normal s, connected, w2, tr1 ++ tr2)
              end
          end
      end.
Proof.
  unfold WalletConnector.connectWithPrivateKey, mcatch, WalletConnector.with_0x. cbv beta zeta.
  rewrite run_prog_bind.
  destruct (IPFSUtils.startsWith privateKey (js "0x")); cbn [negb];
    (destruct (negb (_ =? 66)%nat); [reflexivity |]);
    unfold mbind, get_this, WalletConnector.set_wallet, mlift, mawait, mret, mthrow;
    cbn [prog_bind marketplaceV2 marketplaceData wallet ipfs config signer];
    (destruct (new_Wallet rt _ _) as [s | e]; [| reflexivity]);
    rewrite !run_prog_bind;
    (destruct (run E (getNetwork rt _) w) as [[[chainId | e] w1] tr1]; cbn [run];
     [| now rewrite !app_nil_r]);
    rewrite !run_prog_bind;
    destruct (run E (console_log rt _) w1) as [[[[] | e] w2] tr2]; cbn [run];
    now rewrite !app_nil_r.
Qed.

Lemma run_connectWithPrivateKey (privateKey rpcUrl : jsstring) (this : EACCClient)
    (w : World E) :
  run E (EACCClient.connectWithPrivateKey rt privateKey rpcUrl this) w
  = let '(r, this1, w1, tr) :=
      run E (WalletConnector.connectWithPrivateKey rt privateKey rpcUrl this) w in
    match r with
    | Normal s => (Normal tt, EACCClient.initializeContracts (RunnerSigner s) this1, w1, tr)
    | Throw e => (Throw e, this1, w1, tr)
    end.
Proof.
  unfold EACCClient.connectWithPrivateKey, mbind. rewrite run_prog_bind.
  destruct (run E (WalletConnector.connectWithPrivateKey rt privateKey rpcUrl this) w)
    as [[[[s | e] this1] w1] tr]; cbn [run get_this set_this prog_bind];
    now rewrite app_nil_r.
Qed.

Lemma with_own_wallet (this : EACCClient) : Session.with_wallet (wallet this) this = this.
Proof. now destruct this. Qed.

(** The wallet is all that [WalletConnector.connectWithPrivateKey] changes,
    and it holds the signer that is returned. *)
Lemma wallet_connectWithPrivateKey_frame (privateKey rpcUrl : jsstring)
    (this : EACCClient) (w : World E) :
  let '(r, this1, _, _) :=
    run E (WalletConnector.connectWithPrivateKey rt privateKey rpcUrl this) w in
  exists wl, this1 = Session.with_wallet wl this
             /\ forall s, r = Normal s -> signer wl = Some s.
Proof.
  rewrite run_wallet_connectWithPrivateKey. cbv zeta.
  destruct (negb _).
  { exists (wallet this). now rewrite with_own_wallet. }
  destruct (new_Wallet rt _ _) as [s | e]; [| eexists; split; [reflexivity | easy]].
  destruct (run E (getNetwork rt _) w) as [[[chainId | e] w1] tr1];
    [| eexists; split; [reflexivity | easy]].
  destruct (run E (console_log rt _) w1) as [[[[] | e] w2] tr2];
    eexists; (split; [reflexivity |]); [now intros ? [= <-] | easy].
Qed.

End Connecting.

Section Invariant.

Variable E : Env.

Lemma perform_assembled (c : Session.Call) (this : EACCClient) (w : World E) :
  Session.assembled this -> Session.assembled (Session.perform E c this w).1.1.
Proof.
  intros Hw. pose proof (other_frames E c this w) as Hframe.
  destruct c; try (rewrite Hframe; exact Hw); clear Hframe;
    unfold Session.perform, Session.leaves.
  - rewrite run_connectProvider.
    destruct (respond E Ethers.Signer w (GetSigner p)) as [[s | e] w1]; cbn [fst].
    + destruct Hw as [_ Hipfs]. split; [| exact Hipfs].
      right. exists (RunnerSigner s). now split.
    + exact Hw.
  - rewrite run_connectWithPrivateKey.
    pose proof (wallet_connectWithPrivateKey_frame E rt privateKey rpcUrl this w) as Hwl.
    destruct (run E (WalletConnector.connectWithPrivateKey rt privateKey rpcUrl this) w)
      as [[[[s | e] this1] w1] tr]; destruct Hwl as (wl & -> & _); cbn [fst].
    + destruct Hw as [_ Hipfs]. split; [| exact Hipfs].
      right. exists (RunnerSigner s). now split.
    + exact Hw.
  - rewrite run_disconnect.
    destruct (marketplaceV2 this) as [c1 |] eqn:H1; [| exact Hw].
    destruct (marketplaceData this) as [c2 |] eqn:H2; [| exact Hw]. cbv zeta.
    destruct (respond E unit w _) as [[[] | e] w1]; cbn [fst]; exact Hw.
Qed.

Lemma perform_signer_runs_contracts (c : Session.Call) (this : EACCClient) (w : World E) :
  Session.by_private_key c = false ->
  Session.signer_runs_contracts this ->
  Session.signer_runs_contracts (Session.perform E c this w).1.1.
Proof.
  intros Hc Hw. pose proof (other_frames E c this w) as Hframe.
  destruct c; try discriminate Hc; try (rewrite Hframe; exact Hw); clear Hframe;
    unfold Session.perform, Session.leaves.
  - rewrite run_connectProvider.
    destruct (respond E Ethers.Signer w (GetSigner p)) as [[s | e] w1]; cbn [fst].
    + intros s' [= <-]. now split.
    + exact Hw.
  - rewrite run_disconnect.
    destruct (marketplaceV2 this) as [c1 |] eqn:H1; [| exact Hw].
    destruct (marketplaceData this) as [c2 |] eqn:H2; [| exact Hw]. cbv zeta.
    destruct (respond E unit w _) as [[[] | e] w1]; cbn [fst]; [| exact Hw].
    intros s. discriminate.
Qed.

End Invariant.

(** X14.  Whatever calls are made on a client the constructor returned, its
    contract fields stay unset together or bound to one runner at the
    configured addresses, and the content store stays the configured one.
    As long as [connectWithPrivateKey] is not among the calls, a signer in
    the wallet is the runner of both contracts. *)
Theorem reachable_client_is_wired
    (E : Env) (calls : list Session.Call) (this : EACCClient) (w : World E) :
  Session.Reachable E calls this w ->
  Session.assembled this
  /\ (existsb Session.by_private_key calls = false -> Session.signer_runs_contracts this).
Proof.
  induction 1 as [config r this w Hnew | c calls this w this' w' tr _ [IHa IHs] Hcall].
  - unfold EACCClient.new in Hnew.
    assert (this = match r with
                   | Some r => EACCClient.initializeContracts r
                                 (mkEACCClient None None WalletConnector.new
                                    (IPFSUtils.new (ipfsConfig config)) config)
                   | None => mkEACCClient None None WalletConnector.new
                               (IPFSUtils.new (ipfsConfig config)) config
                   end) as ->.
    { destruct (chainId config) as [c |]; [destruct (_ && _); [discriminate |] |];
        destruct r; now injection Hnew as <-. }
    destruct r as [r |]; (split; [split |]); try discriminate; try reflexivity.
    + right. exists r. now split.
    + now left.
  - split.
    + pose proof (perform_assembled E c this w IHa) as H. now rewrite Hcall in H.
    + cbn [existsb]. intros Hnone. apply orb_false_iff in Hnone as [Hc Hcalls].
      pose proof (perform_signer_runs_contracts E c this w Hc (IHs Hcalls)) as H.
      now rewrite Hcall in H.
Qed.

Lemma reachable_client_is_wired_witness :
  Session.assembled Sample.connected_client
  /\ (existsb Session.by_private_key [Session.connectProvider Sample.provider] = false ->
      Session.signer_runs_contracts Sample.connected_client).
Proof.
  apply (reachable_client_is_wired Sample.accepting_ledger
           [Session.connectProvider Sample.provider] Sample.connected_client Sample.chain).
  apply (Session.called Sample.accepting_ledger (Session.connectProvider Sample.provider) []
           Sample.fresh_client Sample.chain Sample.connected_client Sample.chain
           [Called (GetSigner Sample.provider)]).
  - apply (Session.constructed Sample.accepting_ledger Sample.sample_config None).
    vm_compute. reflexivity.
  - reflexivity.
Defined.

(** ** Contracts, runners and the wallet *)

(** X15.  Every wrapper method of the two contract classes other than
    [publishJobEvent] makes one call, to a function that the interface of its
    class has, with as many arguments as the function has inputs (and, for
    [payStartJob], the overrides after them).  Of the fragments of the two
    ABIs one does not parse, the one of [publishJobEvent], which names a
    parameter [event]: the interface has no such function, and the wrapper
    throws a TypeError without making a call. *)
Theorem wrappers_call_declared_functions (address : jsstring) (r : Runner) :
  (forall m : MarketplaceV2Contract.Wrapper,
     let self := MarketplaceV2Contract.new address r in
     exists method args,
       MarketplaceV2Contract.invoke m self = await (ContractCall self method args)
       /\ accepts self method args = true)
  /\ (forall m : MarketplaceDataV1Contract.Wrapper,
        let self := MarketplaceDataV1Contract.new address r in
        match m with
        | MarketplaceDataV1Contract.publishJobEvent_ _ _ =>
            getFunction (interface self) "publishJobEvent" = None
            /\ MarketplaceDataV1Contract.invoke m self
               = Ret (Throw (newTypeError
                               "this.contract.publishJobEvent is not a function"))
        | _ =>
            exists method args,
              MarketplaceDataV1Contract.invoke m self
              = await (ContractCall self method args)
              /\ accepts self method args = true
        end)
  /\ filter (fun fragment => bool_decide (Fragment.parse fragment = None))
       (MarketplaceV2Contract.abi ++ MarketplaceDataV1Contract.abi)
     = [ "function publishJobEvent(uint256 jobId, tuple(uint8 type_, bytes address_, bytes data_, uint32 timestamp_) event)"%string ].
Proof.
  split; [| split].
  - intros m self. destruct m; do 2 eexists; (split; [reflexivity |]);
      vm_compute; reflexivity.
  - intros m self. destruct m;
      lazymatch goal with
      | |- exists _, _ => do 2 eexists; (split; [reflexivity |]); vm_compute; reflexivity
      | |- _ /\ _ => split; vm_compute; reflexivity
      end.
  - vm_compute. reflexivity.
Qed.

Section AfterConnecting.

Variable E : Env.

Lemma no_signer_refused (this : EACCClient) (op : Op.t) (w : World E) :
  signer (wallet this) = None -> Op.state_changing op = true ->
  run E (Op.invoke op this) w = (Throw EACCClient.wallet_not_connected, this, w, []).
Proof. intros Hs Hop. now apply state_changing_not_connected. Qed.

Lemma contract_field_bound (r : Runner) (this : EACCClient) (op : Op.t) :
  Session.bound_to r this -> Op.signs op = false ->
  exists c, Op.contract_field op this = Some c /\ runner c = r
            /\ (target c = marketplaceV2Address (config this)
                \/ target c = marketplaceDataV1Address (config this)).
Proof.
  intros [H2 H1] Hop. destruct op; try discriminate Hop; cbn [Op.contract_field];
    rewrite ?H1, ?H2; eexists; (split; [reflexivity |]); cbn; auto.
Qed.

End AfterConnecting.

(** X16.  A client built by [createWithProvider] (or by the constructor with a
    signer or provider) has its contracts bound to the runner it was given
    and an empty wallet: it forwards every read to a contract of that
    runner, and refuses every state-changing operation as not connected,
    also when the runner is a signer. *)
Theorem createWithProvider_leaves_the_wallet_empty
    (config : EACCClientConfig) (r : Runner) (this : EACCClient) :
  EACCClient.createWithProvider config r = Normal this ->
  Session.bound_to r this
  /\ wallet this = WalletConnector.new
  /\ (forall (E : Env) (w : World E) op,
        Op.state_changing op = true ->
        run E (Op.invoke op this) w
        = (Throw EACCClient.wallet_not_connected, this, w, []))
  /\ (forall (E : Env) (w : World E) op,
        Op.read_accessor op = true ->
        exists c method args,
          runner c = r
          /\ run E (Op.invoke op this) w = forwarded E this w c method args).
Proof.
  intros Hnew. unfold EACCClient.createWithProvider, EACCClient.new in Hnew.
  assert (this = EACCClient.initializeContracts r
                   (mkEACCClient None None WalletConnector.new
                      (IPFSUtils.new (ipfsConfig config)) config)) as ->
    by (destruct (chainId config) as [c |]; [destruct (_ && _); [discriminate |] |];
        now injection Hnew as <-).
  assert (Session.bound_to r
            (EACCClient.initializeContracts r
               (mkEACCClient None None WalletConnector.new
                  (IPFSUtils.new (ipfsConfig config)) config))) as Hb by now split.
  split; [exact Hb |]. split; [reflexivity |]. split.
  - intros E w op Hop. now apply no_signer_refused.
  - intros E w op Hop.
    assert (Op.signs op = false) as Hsigns.
    { unfold Op.read_accessor, Op.state_changing in Hop.
      now destruct (Op.sends_transaction op), (Op.signs op). }
    destruct (contract_field_bound r _ op Hb Hsigns) as (c & Hc & Hr & _).
    destruct (read_accessor_forwarded E op _ w c Hop Hc) as (method & args & Hrun).
    exists c, method, args. now split.
Qed.

Lemma createWithProvider_leaves_the_wallet_empty_witness :
  let this := EACCClient.initializeContracts (RunnerSigner Sample.transparent_signer)
                Sample.fresh_client in
  Session.bound_to (RunnerSigner Sample.transparent_signer) this
  /\ wallet this = WalletConnector.new
  /\ (forall (E : Env) (w : World E) op,
        Op.state_changing op = true ->
        run E (Op.invoke op this) w
        = (Throw EACCClient.wallet_not_connected, this, w, []))
  /\ (forall (E : Env) (w : World E) op,
        Op.read_accessor op = true ->
        exists c method args,
          runner c = RunnerSigner Sample.transparent_signer
          /\ run E (Op.invoke op this) w = forwarded E this w c method args).
Proof.
  apply (createWithProvider_leaves_the_wallet_empty Sample.sample_config
           (RunnerSigner Sample.transparent_signer)).
  vm_compute. reflexivity.
Defined.

(** X17.  [connectProvider] asks the provider for its signer and nothing else.
    When the signer comes, the wallet holds the provider and the signer, both
    contracts are bound to that signer at the configured addresses, and every
    transaction goes through one of them.  When it does not, the error is
    passed on; the wallet has taken the new provider all the same, while the
    signer and the contracts are the old ones. *)
Theorem connectProvider_binds_the_signer
    (E : Env) (w : World E) (this : EACCClient) (p : Ethers.Provider) :
  let '(r, this', w', tr) := run E (EACCClient.connectProvider p this) w in
  tr = [Called (GetSigner p)]
  /\ config this' = config this /\ ipfs this' = ipfs this
  /\ provider (wallet this') = Some p
  /\ match respond E Ethers.Signer w (GetSigner p) with
     | (Normal s, _) =>
         r = Normal tt
         /\ signer (wallet this') = Some s
         /\ Session.bound_to (RunnerSigner s) this'
         /\ forall op w2,
              Op.sends_transaction op = true ->
              exists c method args,
                runner c = RunnerSigner s
                /\ run E (Op.invoke op this') w2 = forwarded E this' w2 c method args
     | (Throw e, _) =>
         r = Throw e
         /\ signer (wallet this') = signer (wallet this)
         /\ marketplaceV2 this' = marketplaceV2 this
         /\ marketplaceData this' = marketplaceData this
     end.
Proof.
  rewrite run_connectProvider.
  destruct (respond E Ethers.Signer w (GetSigner p)) as [[s | e] w1].
  - repeat split.
    intros op w2 Hop.
    set (this' := EACCClient.initializeContracts _ _).
    assert (Session.bound_to (RunnerSigner s) this') as Hb by now split.
    assert (Op.signs op = false) as Hsigns by (destruct op; try discriminate Hop; reflexivity).
    destruct (contract_field_bound (RunnerSigner s) this' op Hb Hsigns) as (c & Hc & Hr & _).
    destruct (sends_transaction_forwarded E op this' w2 s c Hop eq_refl Hc)
      as (method & args & Hrun).
    exists c, method, args. now split.
  - repeat split.
Qed.

(** X18.  [disconnect] empties the wallet and keeps the contracts.  After it
    every state-changing operation is refused as not connected, while every
    read still goes to the contract the client held before, bound to the
    runner of before.  On a client whose contracts were never initialised it
    throws a TypeError and changes nothing. *)
Theorem disconnect_keeps_the_contracts (E : Env) (w : World E) (this : EACCClient) :
  let warning := ConsoleWarn "Remove all listeners not implemented for this provider type" in
  match marketplaceV2 this, marketplaceData this with
  | Some _, Some _ =>
      forall w1, respond E unit w warning = (Normal tt, w1) ->
      run E (EACCClient.disconnect this) w
      = (Normal tt, Session.unplugged this, w1, [Called warning])
      /\ (forall op w2,
            Op.state_changing op = true ->
            run E (Op.invoke op (Session.unplugged this)) w2
            = (Throw EACCClient.wallet_not_connected, Session.unplugged this, w2, []))
      /\ (forall op w2 c,
            Op.read_accessor op = true -> Op.contract_field op this = Some c ->
            exists method args,
              run E (Op.invoke op (Session.unplugged this)) w2
              = forwarded E (Session.unplugged this) w2 c method args)
  | _, _ =>
      run E (EACCClient.disconnect this) w
      = (Throw (undefined_property "removeAllListeners"), this, w, [])
  end.
Proof.
  cbv zeta. rewrite run_disconnect.
  destruct (marketplaceV2 this) as [c1 |] eqn:H1; [| reflexivity].
  destruct (marketplaceData this) as [c2 |] eqn:H2; [| reflexivity].
  intros w1 Hwarn. cbv zeta. rewrite Hwarn. split; [reflexivity |]. split.
  - intros op w2 Hop. now apply no_signer_refused.
  - intros op w2 c Hop Hc. apply read_accessor_forwarded; [exact Hop |].
    destruct op; exact Hc.
Qed.

(** ** Reading the marketplace and fetching content *)

(** X19.  On a client whose marketplace contract is set, [getMarketplaceInfo]
    calls six functions of that contract, one after the other, in a fixed
    order and with no arguments, and leaves the client as it was.  It stops at
    the first call that fails and throws the error of that call; when all six
    resolve it returns the six answers, each under its name. *)
Theorem getMarketplaceInfo_reads_in_order
    (E : Env) (w : World E) (this : EACCClient) (c : Contract) :
  marketplaceV2 this = Some c ->
  run E (EACCClient.getMarketplaceInfo this) w
  = let '(answers, w', tr) :=
      read_in_turn E c
        ["version"; "unicrowAddress"; "treasuryAddress"; "unicrowMarketplaceFee";
         "eaccToken"; "eaccTokensPerToken"]%string w in
    (let* values := answers in
     Normal (VObject (combine
                        ["version"; "unicrowAddress"; "treasuryAddress";
                         "marketplaceFee"; "eaccToken"; "eaccTokensPerToken"]%string
                        values)),
     this, w', tr).
Proof.
  intros Hc. unfold EACCClient.getMarketplaceInfo.
  cbn -[respond]. rewrite Hc. cbn -[respond].
  destruct (respond E JsValue w _) as [[v1 | e] w1]; cbn -[respond]; [| reflexivity].
  rewrite Hc. cbn -[respond].
  destruct (respond E JsValue w1 _) as [[v2 | e] w2]; cbn -[respond]; [| reflexivity].
  rewrite Hc. cbn -[respond].
  destruct (respond E JsValue w2 _) as [[v3 | e] w3]; cbn -[respond]; [| reflexivity].
  rewrite Hc. cbn -[respond].
  destruct (respond E JsValue w3 _) as [[v4 | e] w4]; cbn -[respond]; [| reflexivity].
  rewrite Hc. cbn -[respond].
  destruct (respond E JsValue w4 _) as [[v5 | e] w5]; cbn -[respond]; [| reflexivity].
  rewrite Hc. cbn -[respond].
  destruct (respond E JsValue w5 _) as [[v6 | e] w6]; reflexivity.
Qed.

Lemma getMarketplaceInfo_reads_in_order_witness :
  let c := MarketplaceV2Contract.new (marketplaceV2Address Sample.sample_config)
             (RunnerProvider Sample.provider) in
  run Sample.reverting_ledger (EACCClient.getMarketplaceInfo Sample.reading_client)
    Sample.chain
  = let '(answers, w', tr) :=
      read_in_turn Sample.reverting_ledger c
        ["version"; "unicrowAddress"; "treasuryAddress"; "unicrowMarketplaceFee";
         "eaccToken"; "eaccTokensPerToken"]%string Sample.chain in
    (let* values := answers in
     Normal (VObject (combine
                        ["version"; "unicrowAddress"; "treasuryAddress";
                         "marketplaceFee"; "eaccToken"; "eaccTokensPerToken"]%string
                        values)),
     Sample.reading_client, w', tr).
Proof.
  exact (getMarketplaceInfo_reads_in_order Sample.reverting_ledger Sample.chain
           Sample.reading_client _ eq_refl).
Defined.

(** X20.  [fetchJobContent] first fetches what [bytes32ToHash] makes of the
    hash, which always has a value, and returns that content parsed.  When
    the fetch or the parse fails it fetches the hash as it was given, and
    returns the text of that second fetch, unparsed, or throws its error.
    Each fetch is one request to the content store, for the URL of its hash;
    no contract is called and the client is left as it was. *)
Theorem fetchJobContent_fetches_once_or_twice
    (E : Env) (w : World E) (this : EACCClient)
    (JSON_parse : jsstring -> Completion JsValue) (contentHash : jsstring) :
  exists ipfsHash,
    IPFSUtils.bytes32ToHash contentHash = Normal ipfsHash
    /\ run E (EACCClient.fetchJobContent JSON_parse contentHash this) w
       = (let '(first, w1, tr1) :=
            run E (IPFSUtils.fetchFromIPFS (ipfs this) ipfsHash) w in
          match (let* content := first in JSON_parse content) with
          | Normal parsed => (Normal parsed, this, w1, tr1)
          | Throw _ =>
              let '(second, w2, tr2) :=
                run E (IPFSUtils.fetchFromIPFS (ipfs this) contentHash) w1 in
              (let* content := second in Normal (VString content), this, w2, tr1 ++ tr2)
          end)
    /\ forall hash w0,
         (run E (IPFSUtils.fetchFromIPFS (ipfs this) hash) w0).2
         = [Called (Fetch (IPFSUtils.createIPFSUrl (ipfs this) hash None))].
Proof.
  destruct (bytes32ToHash_returns contentHash) as [h Hh]. exists h.
  split; [exact Hh |]. split.
  - unfold EACCClient.fetchJobContent, mcatch. cbv beta.
    rewrite run_prog_bind.
    cbn -[respond IPFSUtils.fetchFromIPFS IPFSUtils.bytes32ToHash IPFSUtils.createIPFSUrl run].
    rewrite Hh.
    cbn -[respond IPFSUtils.fetchFromIPFS IPFSUtils.bytes32ToHash IPFSUtils.createIPFSUrl run].
    unfold mbind, mawait, mlift, mret, get_this. cbv beta.
    cbn [prog_bind]. rewrite !run_prog_bind.
    destruct (run E (IPFSUtils.fetchFromIPFS (ipfs this) h) w) as [[first w1] tr1].
    assert (forall w', run E (prog_bind
                                (prog_bind (IPFSUtils.fetchFromIPFS (ipfs this) contentHash)
                                   (fun r => Ret (r, this)))
                                (fun '(r, this') =>
                                   match r with
                                   | Normal a => Ret (Normal (VString a), this')
                                   | Throw e => Ret (Throw e, this')
                                   end)) w'
                       = let '(second, w2, tr2) :=
                           run E (IPFSUtils.fetchFromIPFS (ipfs this) contentHash) w' in
                         (let* content := second in Normal (VString content), this, w2, tr2))
      as Hsecond.
    { intros w'. rewrite !run_prog_bind.
      destruct (run E (IPFSUtils.fetchFromIPFS (ipfs this) contentHash) w')
        as [[[content | e] w2] tr2]; cbn [run cbind]; now rewrite !app_nil_r. }
    destruct first as [content | e]; cbn [run cbind app].
    + destruct (JSON_parse content) as [parsed | e]; cbn [run app].
      * now rewrite !app_nil_r.
      * rewrite Hsecond.
        destruct (run E (IPFSUtils.fetchFromIPFS (ipfs this) contentHash) w1)
          as [[second w2] tr2]. now rewrite !app_nil_r.
    + rewrite Hsecond.
      destruct (run E (IPFSUtils.fetchFromIPFS (ipfs this) contentHash) w1)
        as [[second w2] tr2]. now rewrite !app_nil_r.
  - intros hash w0. destruct (run_fetchFromIPFS E (ipfs this) hash w0) as (r & w1 & ->).
    reflexivity.
Qed.

(** X21.  When the hash of a Take exists and the wallet holds a signer,
    [signMessage] applied to the hash, as the take-job example does, and
    [createJobSignature] have the signer sign the same message, the text of
    the hash.  [createJobSignature] returns what the signer gives, a
    signature or its error; [signMessage] returns the same signature, or the
    error wrapped.  Without a signer both throw the wallet-not-connected
    error. *)
Theorem signMessage_of_the_hash_is_createJobSignature
    (E : Env) (w : World E) (this : EACCClient) (eventsLength : Z) (jobId : BigNumberish)
    (hash : jsstring) :
  CryptoUtils.createJobSignatureHash eventsLength jobId = Normal hash ->
  let by_hash := (run E (EACCClient.signMessage hash this) w).1.1.1 in
  let built_in := (run E (EACCClient.createJobSignature eventsLength jobId this) w).1.1.1 in
  match signer (wallet this) with
  | Some s =>
      built_in = Ethers.signMessage s (Ethers.MsgString hash)
      /\ by_hash
         = try_catch (Ethers.signMessage s (Ethers.MsgString hash))
             (fun error =>
                Throw (newError ("Failed to sign message: " +:+ err_message error)))
      /\ forall signature, by_hash = Normal signature <-> built_in = Normal signature
  | None =>
      built_in = Throw EACCClient.wallet_not_connected
      /\ by_hash = Throw EACCClient.wallet_not_connected
  end.
Proof.
  intros Hh. cbv zeta. unfold EACCClient.createJobSignature, EACCClient.signMessage.
  cbn -[CryptoUtils.createJobSignatureHash Ethers.signMessage CryptoUtils.signMessage
        EACCClient.wallet_not_connected].
  destruct (signer (wallet this)) as [s |] eqn:Hs;
    cbn -[CryptoUtils.createJobSignatureHash Ethers.signMessage CryptoUtils.signMessage
          EACCClient.wallet_not_connected]; [| now split].
  rewrite Hs, Hh.
  cbn -[CryptoUtils.createJobSignatureHash Ethers.signMessage CryptoUtils.signMessage].
  unfold CryptoUtils.signMessage.
  split; [reflexivity |]. split; [reflexivity |].
  intros signature.
  destruct (Ethers.signMessage s (Ethers.MsgString hash)) as [signature' | e];
    cbn [try_catch]; split; congruence.
Qed.

Lemma signMessage_of_the_hash_is_createJobSignature_witness :
  let hash := Ethers.hexlify (Keccak.keccak256 (repeat 0 63%nat ++ [1])) in
  let run_on p := run Sample.accepting_ledger p Sample.chain in
  (run_on (EACCClient.createJobSignature 0 (BNumber 1) Sample.connected_client)).1.1.1
  = Ethers.signMessage Sample.transparent_signer (Ethers.MsgString hash)
  /\ (run_on (EACCClient.signMessage hash Sample.connected_client)).1.1.1
     = try_catch (Ethers.signMessage Sample.transparent_signer (Ethers.MsgString hash))
         (fun error =>
            Throw (newError ("Failed to sign message: " +:+ err_message error)))
  /\ forall signature,
       (run_on (EACCClient.signMessage hash Sample.connected_client)).1.1.1
       = Normal signature
       <-> (run_on (EACCClient.createJobSignature 0 (BNumber 1) Sample.connected_client)).1.1.1
           = Normal signature.
Proof.
  apply (signMessage_of_the_hash_is_createJobSignature Sample.accepting_ledger
           Sample.chain Sample.connected_client 0 (BNumber 1)).
  vm_compute. reflexivity.
Defined.

(** X22.  Every error of [fetchFromIPFS] is an [Error] whose message starts
    with "IPFS fetch timeout after" or with "Failed to fetch from IPFS: ".
    The error it raises itself for a response that is not ok is caught by its
    own handler and wrapped like any other. *)
Theorem fetchFromIPFS_errors (E : Env) (w : World E) (config : IPFSConfig)
    (hash : jsstring) :
  let url := IPFSUtils.createIPFSUrl config hash None in
  let '(r, _, tr) := run E (IPFSUtils.fetchFromIPFS config hash) w in
  tr = [Called (Fetch url)]
  /\ (forall e, r = Throw e ->
        err_name e = "Error"%string
        /\ (err_message e
            = "IPFS fetch timeout after " +:+ from_option pretty "undefined" (timeout config)
              +:+ "ms"
            \/ exists reason, err_message e = "Failed to fetch from IPFS: " +:+ reason))
  /\ (forall response,
        (respond E Response w (Fetch url)).1 = Normal response -> ok response = false ->
        r = Throw (newError ("Failed to fetch from IPFS: IPFS fetch error: "
                             +:+ pretty (status response) +:+ " - "
                             +:+ statusText response))).
Proof.
  cbv zeta. unfold IPFSUtils.fetchFromIPFS, IPFSUtils.createIPFSUrl. cbn [run].
  destruct (respond E Response w _) as [[response | e0] w1]; cbn [fst];
    (split; [reflexivity |]).
  - cbn [cbind]. destruct (ok response) eqn:Hok; cbn [negb try_catch]; split.
    + destruct (text response) as [t | e1]; cbn [try_catch]; [intros e [=] |].
      destruct (String.eqb (err_name e1) "AbortError"); intros e [= <-]; split; eauto.
    + intros response' [= <-] Hno. congruence.
    + intros e [= <-]. split; eauto.
    + intros response' [= <-] _. reflexivity.
  - cbn [cbind try_catch]. split; [| intros response [=]].
    destruct (String.eqb (err_name e0) "AbortError"); intros e [= <-]; split; eauto.
Qed.

(** ** The connection check and the ABI *)

(** X23.  The connection is checked for exactly the operations whose contract
    function is not a [view].  On a connected client every operation that
    reaches a contract makes one call, to a function its ABI declares, with
    the arguments the function takes, through a contract whose runner is the
    connected signer.  Once the wallet is emptied the same operation sends
    nothing if that function is not a [view], and still makes its call if it
    is. *)
Theorem connection_checked_iff_not_view
    (E : Env) (w : World E) (this : EACCClient) (s : Ethers.Signer) (op : Op.t) :
  signer (wallet this) = Some s ->
  Session.bound_to (RunnerSigner s) this ->
  Op.signs op = false ->
  exists c method args,
    run E (Op.invoke op this) w = forwarded E this w c method args
    /\ runner c = RunnerSigner s
    /\ accepts c method args = true
    /\ ((run E (Op.invoke op (Session.unplugged this)) w).2 = []
        <-> is_view c method = false)
    /\ ((run E (Op.invoke op (Session.unplugged this)) w).2
        = [Called (ContractCall c method args)]
        <-> is_view c method = true).
Proof.
  intros Hs [H2 H1] Hop.
  destruct op; try discriminate Hop;
    cbn -[run respond forwarded accepts is_view];
    rewrite ?Hs; cbn -[run respond forwarded accepts is_view];
    rewrite ?H1, ?H2; cbn -[run respond forwarded accepts is_view];
    do 3 eexists;
    (split; [apply run_await |]);
    (split; [reflexivity |]);
    (split; [vm_compute; reflexivity |]);
    rewrite ?run_await; unfold forwarded; cbn [run snd];
    match goal with
    | |- context [is_view ?c ?m] =>
        let b := eval vm_compute in (is_view c m) in
        replace (is_view c m) with b by (vm_compute; reflexivity)
    end;
    repeat match goal with
           | |- context [respond E ?X ?w0 ?e] => destruct (respond E X w0 e) as [? ?]
           end;
    cbn [snd];
    split; split; intros H; (reflexivity || discriminate H).
Qed.

Lemma connection_checked_iff_not_view_witness :
  let this := Sample.connected_client in
  let op := Op.takeJob (BNumber 7) (js "0x00") in
  exists c method args,
    run Sample.accepting_ledger (Op.invoke op this) Sample.chain
    = forwarded Sample.accepting_ledger this Sample.chain c method args
    /\ runner c = RunnerSigner Sample.transparent_signer
    /\ accepts c method args = true
    /\ ((run Sample.accepting_ledger (Op.invoke op (Session.unplugged this)) Sample.chain).2 = []
        <-> is_view c method = false)
    /\ ((run Sample.accepting_ledger (Op.invoke op (Session.unplugged this)) Sample.chain).2
        = [Called (ContractCall c method args)]
        <-> is_view c method = true).
Proof.
  apply (connection_checked_iff_not_view Sample.accepting_ledger Sample.chain
           Sample.connected_client Sample.transparent_signer
           (Op.takeJob (BNumber 7) (js "0x00"))).
  - reflexivity.
  - split; reflexivity.
  - reflexivity.
Defined.

(** ** Listeners *)

(** X24.  The four job listeners of the client ([onJobCreated], [onJobTaken],
    [onJobCompleted], [onJobDisputed]) ask the marketplace contract for a
    subscription to an event that its ABI does not declare.  Every other
    listener of the client asks for an event that the ABI of its contract
    declares. *)
Theorem job_listeners_name_undeclared_events
    (this : EACCClient) (r : Runner) (m : EACCClient.Subscriber) :
  Session.bound_to r this ->
  exists subscription,
    EACCClient.subscribe m this = Normal subscription
    /\ runner (sub_contract subscription) = r
    /\ let declared :=
         getEvent (interface (sub_contract subscription)) (sub_event subscription) in
       match m with
       | EACCClient.onJobCreated_ =>
           marketplaceV2 this = Some (sub_contract subscription)
           /\ sub_event subscription = "JobCreated"%string /\ declared = None
       | EACCClient.onJobTaken_ =>
           marketplaceV2 this = Some (sub_contract subscription)
           /\ sub_event subscription = "JobTaken"%string /\ declared = None
       | EACCClient.onJobCompleted_ =>
           marketplaceV2 this = Some (sub_contract subscription)
           /\ sub_event subscription = "JobCompleted"%string /\ declared = None
       | EACCClient.onJobDisputed_ =>
           marketplaceV2 this = Some (sub_contract subscription)
           /\ sub_event subscription = "JobDisputed"%string /\ declared = None
       | _ => is_Some declared
       end.
Proof.
  intros [H2 H1].
  destruct m; unfold EACCClient.subscribe;
    (unfold EACCClient.onJobCreated, EACCClient.onJobTaken, EACCClient.onJobCompleted,
       EACCClient.onJobDisputed, EACCClient.onEACCRewardsDistributed,
       EACCClient.onUserRegistered, EACCClient.onUserUpdated,
       EACCClient.onArbitratorRegistered, EACCClient.onJobEvent);
    rewrite ?H1, ?H2; eexists;
    (split; [reflexivity |]); (split; [reflexivity |]); cbv zeta;
    try (split; [reflexivity |]; split; [reflexivity |]); vm_compute; eauto.
Qed.

Lemma job_listeners_name_undeclared_events_witness :
  exists subscription,
    EACCClient.subscribe EACCClient.onJobTaken_ Sample.connected_client
    = Normal subscription
    /\ runner (sub_contract subscription) = RunnerSigner Sample.transparent_signer
    /\ marketplaceV2 Sample.connected_client = Some (sub_contract subscription)
    /\ sub_event subscription = "JobTaken"%string
    /\ getEvent (interface (sub_contract subscription)) (sub_event subscription) = None.
Proof.
  apply (job_listeners_name_undeclared_events Sample.connected_client
           (RunnerSigner Sample.transparent_signer) EACCClient.onJobTaken_).
  split; reflexivity.
Defined.

(** X25.  Every listener method of the data contract subscribes to an event
    its ABI declares.  Its four job listeners subscribe to [JobEvent] and
    call the callback, with the job id and the event, for exactly the events
    whose [type_] is the number of the kind they are named after; an event
    whose [type_] is a bigint is passed to none of them.  The other
    listeners pass on whatever arrives. *)
Theorem data_listeners_filter_by_type
    (address : jsstring) (r : Runner) (m : MarketplaceDataV1Contract.Subscriber) :
  let self := MarketplaceDataV1Contract.new address r in
  let subscription := MarketplaceDataV1Contract.subscribe m self in
  let kind :=
    match m with
    | MarketplaceDataV1Contract.onJobCreated_ => Some JobEventType.Created
    | MarketplaceDataV1Contract.onJobTaken_ => Some JobEventType.Taken
    | MarketplaceDataV1Contract.onJobCompleted_ => Some JobEventType.Completed
    | MarketplaceDataV1Contract.onJobDisputed_ => Some JobEventType.Disputed
    | _ => None
    end in
  sub_contract subscription = self
  /\ is_Some (getEvent (interface self) (sub_event subscription))
  /\ match kind with
     | Some k =>
         sub_event subscription = "JobEvent"%string
         /\ forall jobId eventData,
              sub_listener subscription [jobId; VJobEventData eventData]
              = match type_ eventData with
                | VNumber n =>
                    if n =? JobEventType.code k
                    then Normal (Some [jobId; VJobEventData eventData])
                    else Normal None
                | _ => Normal None
                end
     | None => forall args, sub_listener subscription args = Normal (Some args)
     end.
Proof.
  cbv zeta. destruct m; (split; [reflexivity |]); (split; [vm_compute; eauto |]);
    try reflexivity; (split; [reflexivity |]); intros jobId eventData;
    unfold MarketplaceDataV1Contract.subscribe; cbn;
    now destruct (type_ eventData).
Qed.

(** ** Connecting with a private key *)

Section WithoutContract.

Variable E : Env.

(** A signer in the wallet and the contract field unset: a TypeError, and no
    call. *)
Lemma sends_transaction_unset (op : Op.t) (this : EACCClient) (w : World E) s :
  Op.sends_transaction op = true -> signer (wallet this) = Some s ->
  Op.contract_field op this = None ->
  exists method, run E (Op.invoke op this) w = (Throw (undefined_property method), this, w, []).
Proof.
  intros Hop Hs Hc. destruct op; try discriminate Hop;
    cbn -[run respond undefined_property] in *; rewrite Hs;
    cbn -[run respond undefined_property]; rewrite Hc; eexists; reflexivity.
Qed.

Lemma valid_key_length (privateKey : jsstring) :
  WalletConnector.isValidPrivateKey privateKey = true ->
  length (WalletConnector.with_0x privateKey) = 66%nat.
Proof.
  unfold WalletConnector.isValidPrivateKey, WalletConnector.with_0x.
  destruct (IPFSUtils.startsWith privateKey (js "0x")) eqn:Hp; cbn [negb]; intros H;
    apply andb_true_iff in H as [H _]; now apply Nat.eqb_eq in H.
Qed.

End WithoutContract.

(** X26.  [connectWithPrivateKey] puts [0x] before a key that does not start
    with it and then checks the length alone.  A key that is not 66
    characters long by then is refused with no effect and the client
    unchanged; every key [isValidPrivateKey] accepts passes.  A key of the
    right length goes to [new Wallet] whatever its characters are; when that
    throws, the error comes back wrapped and the wallet has taken the new
    provider already. *)
Theorem connectWithPrivateKey_checks_the_length
    (E : Env) (rt : Runtime) (w : World E) (this : EACCClient)
    (privateKey rpcUrl : jsstring) :
  let key := WalletConnector.with_0x privateKey in
  let p := Ethers.JsonRpcProvider rpcUrl in
  (WalletConnector.isValidPrivateKey privateKey = true -> length key = 66%nat)
  /\ (length key <> 66%nat ->
      run E (EACCClient.connectWithPrivateKey rt privateKey rpcUrl this) w
      = (Throw (newError
                  ("Failed to connect with private key: "
                   +:+ "Invalid private key length. Must be 64 hex characters (32 bytes).")),
         this, w, []))
  /\ (length key = 66%nat -> forall e,
      new_Wallet rt key p = Throw e ->
      run E (EACCClient.connectWithPrivateKey rt privateKey rpcUrl this) w
      = (Throw (newError ("Failed to connect with private key: " +:+ err_message e)),
         Session.with_wallet (mkWalletConnector (Some p) (signer (wallet this))) this,
         w, [])).
Proof.
  cbv zeta. split; [apply valid_key_length |].
  rewrite run_connectWithPrivateKey, run_wallet_connectWithPrivateKey. cbv zeta. split.
  - intros Hlen. apply Nat.eqb_neq in Hlen. rewrite Hlen. reflexivity.
  - intros Hlen e He. apply Nat.eqb_eq in Hlen. rewrite Hlen, He. reflexivity.
Qed.

(** X27.  When the wallet has been made and the network then cannot be
    reached, [connectWithPrivateKey] throws but has replaced the provider and
    the signer of the wallet, and has not touched the contracts.  The client
    it leaves answers [getAddress] with the new signer's address and passes
    the connection check, while a transaction goes through the contract the
    client held before, or fails with a TypeError when there was none. *)
Theorem failed_connectWithPrivateKey_keeps_the_signer
    (E : Env) (rt : Runtime) (w w1 : World E) (tr1 : list Event) (this : EACCClient)
    (privateKey rpcUrl : jsstring) (s : Ethers.Signer) (e : Error) :
  let key := WalletConnector.with_0x privateKey in
  let p := Ethers.JsonRpcProvider rpcUrl in
  let this' := Session.with_wallet (mkWalletConnector (Some p) (Some s)) this in
  length key = 66%nat ->
  new_Wallet rt key p = Normal s ->
  run E (getNetwork rt p) w = (Throw e, w1, tr1) ->
  run E (EACCClient.connectWithPrivateKey rt privateKey rpcUrl this) w
  = (Throw (newError ("Failed to connect with private key: " +:+ err_message e)),
     this', w1, tr1)
  /\ run E (EACCClient.getAddress this') w1 = (Normal (Ethers.signer_address s), this', w1, [])
  /\ forall op w2,
       Op.sends_transaction op = true ->
       match Op.contract_field op this with
       | Some c =>
           exists method args,
             run E (Op.invoke op this') w2 = forwarded E this' w2 c method args
       | None =>
           exists method,
             run E (Op.invoke op this') w2 = (Throw (undefined_property method), this', w2, [])
       end.
Proof.
  cbv zeta. intros Hlen Hs Hnet. split; [| split].
  - rewrite run_connectWithPrivateKey, run_wallet_connectWithPrivateKey. cbv zeta.
    apply Nat.eqb_eq in Hlen. rewrite Hlen, Hs, Hnet. reflexivity.
  - reflexivity.
  - intros op w2 Hop.
    set (this' := Session.with_wallet _ this).
    assert (Op.contract_field op this' = Op.contract_field op this) as Hsame
      by (destruct op; reflexivity).
    destruct (Op.contract_field op this) as [c |] eqn:Hc.
    + now apply (sends_transaction_forwarded E op this' w2 s c).
    + now apply (sends_transaction_unset E op this' w2 s).
Qed.

Lemma failed_connectWithPrivateKey_keeps_the_signer_witness :
  let s := Sample.wallet_of Sample.example_key Sample.provider in
  let this' := Session.with_wallet (mkWalletConnector (Some Sample.provider) (Some s))
                 Sample.fresh_client in
  run Sample.accepting_ledger
    (EACCClient.connectWithPrivateKey Sample.unreachable_network Sample.example_key
       (js "https://arbitrum.drpc.org") Sample.fresh_client) Sample.chain
  = (Throw (newError ("Failed to connect with private key: "
                      +:+ "could not detect network")),
     this', Sample.chain, [])
  /\ run Sample.accepting_ledger (EACCClient.getAddress this') Sample.chain
     = (Normal (Ethers.signer_address s), this', Sample.chain, [])
  /\ forall op w2,
       Op.sends_transaction op = true ->
       match Op.contract_field op Sample.fresh_client with
       | Some c =>
           exists method args,
             run Sample.accepting_ledger (Op.invoke op this') w2
             = forwarded Sample.accepting_ledger this' w2 c method args
       | None =>
           exists method,
             run Sample.accepting_ledger (Op.invoke op this') w2
             = (Throw (undefined_property method), this', w2, [])
       end.
Proof.
  apply (failed_connectWithPrivateKey_keeps_the_signer Sample.accepting_ledger
           Sample.unreachable_network Sample.chain Sample.chain [] Sample.fresh_client
           Sample.example_key (js "https://arbitrum.drpc.org")
           (Sample.wallet_of Sample.example_key Sample.provider)
           (newError "could not detect network"));
    reflexivity.
Defined.

(** X28.  When the wallet is made, the network answers and the log line is
    written, [connectWithPrivateKey] leaves the wallet with the new provider
    and signer and both contracts bound to that signer at the configured
    addresses: every transaction then goes through one of them.  It calls no
    contract and fetches nothing but what the network lookup and the log
    do. *)
Theorem connectWithPrivateKey_binds_the_wallet
    (E : Env) (rt : Runtime) (w w1 w2 : World E) (tr1 tr2 : list Event)
    (this : EACCClient) (privateKey rpcUrl : jsstring) (s : Ethers.Signer) (chainId : Z) :
  let key := WalletConnector.with_0x privateKey in
  let p := Ethers.JsonRpcProvider rpcUrl in
  length key = 66%nat ->
  new_Wallet rt key p = Normal s ->
  run E (getNetwork rt p) w = (Normal chainId, w1, tr1) ->
  run E (console_log rt
           (js "Connected with private key: " ++ Ethers.signer_address s
            ++ js " on network " ++ Ethers.decimal_digits chainId)) w1
  = (Normal tt, w2, tr2) ->
  exists this',
    run E (EACCClient.connectWithPrivateKey rt privateKey rpcUrl this) w
    = (Normal tt, this', w2, tr1 ++ tr2)
    /\ wallet this' = mkWalletConnector (Some p) (Some s)
    /\ config this' = config this /\ ipfs this' = ipfs this
    /\ Session.bound_to (RunnerSigner s) this'
    /\ forall op w3,
         Op.sends_transaction op = true ->
         exists c method args,
           runner c = RunnerSigner s
           /\ run E (Op.invoke op this') w3 = forwarded E this' w3 c method args.
Proof.
  cbv zeta. intros Hlen Hs Hnet Hlog. eexists. split.
  - rewrite run_connectWithPrivateKey, run_wallet_connectWithPrivateKey. cbv zeta.
    apply Nat.eqb_eq in Hlen. rewrite Hlen, Hs, Hnet, Hlog. reflexivity.
  - repeat split. intros op w3 Hop.
    set (this' := EACCClient.initializeContracts _ _).
    assert (Session.bound_to (RunnerSigner s) this') as Hb by now split.
    assert (Op.signs op = false) as Hsigns by (destruct op; try discriminate Hop; reflexivity).
    destruct (contract_field_bound (RunnerSigner s) this' op Hb Hsigns) as (c & Hc & Hr & _).
    destruct (sends_transaction_forwarded E op this' w3 s c Hop eq_refl Hc)
      as (method & args & Hrun).
    exists c, method, args. now split.
Qed.

Lemma connectWithPrivateKey_binds_the_wallet_witness :
  let s := Sample.wallet_of Sample.example_key Sample.provider in
  exists this',
    run Sample.accepting_ledger
      (EACCClient.connectWithPrivateKey Sample.reachable_network Sample.example_key
         (js "https://arbitrum.drpc.org") Sample.fresh_client) Sample.chain
    = (Normal tt, this', Sample.chain, [] ++ [])
    /\ wallet this' = mkWalletConnector (Some Sample.provider) (Some s)
    /\ config this' = config Sample.fresh_client /\ ipfs this' = ipfs Sample.fresh_client
    /\ Session.bound_to (RunnerSigner s) this'
    /\ forall op w3,
         Op.sends_transaction op = true ->
         exists c method args,
           runner c = RunnerSigner s
           /\ run Sample.accepting_ledger (Op.invoke op this') w3
              = forwarded Sample.accepting_ledger this' w3 c method args.
Proof.
  apply (connectWithPrivateKey_binds_the_wallet Sample.accepting_ledger
           Sample.reachable_network Sample.chain Sample.chain Sample.chain [] []
           Sample.fresh_client Sample.example_key (js "https://arbitrum.drpc.org")
           (Sample.wallet_of Sample.example_key Sample.provider) 42161);
    reflexivity.
Defined.

(** X29.  A client that [createWithPrivateKey] returns is connected: the key
    had the right length, the wallet holds the provider of the URL and the
    signer made from the key, both contracts are bound to that signer at the
    addresses of the configuration, and the content store is the configured
    one. *)
Theorem createWithPrivateKey_returns_a_connected_client
    (E : Env) (rt : Runtime) (w w' : World E) (tr : list Event)
    (config0 : EACCClientConfig) (privateKey rpcUrl : jsstring) (client : EACCClient) :
  run E (EACCClient.createWithPrivateKey rt config0 privateKey rpcUrl) w
  = (Normal client, w', tr) ->
  let key := WalletConnector.with_0x privateKey in
  let p := Ethers.JsonRpcProvider rpcUrl in
  exists s,
    length key = 66%nat
    /\ new_Wallet rt key p = Normal s
    /\ wallet client = mkWalletConnector (Some p) (Some s)
    /\ config client = config0
    /\ Session.bound_to (RunnerSigner s) client
    /\ Session.wired client.
Proof.
  intros Hrun. cbv zeta. unfold EACCClient.createWithPrivateKey in Hrun.
  destruct (EACCClient.new config0 None) as [fresh |] eqn:Hnew; [| discriminate Hrun].
  assert (fresh = mkEACCClient None None WalletConnector.new
                    (IPFSUtils.new (ipfsConfig config0)) config0) as ->.
  { unfold EACCClient.new in Hnew.
    destruct (chainId config0) as [c |]; [destruct (_ && _); [discriminate |] |];
      now injection Hnew as <-. }
  rewrite run_prog_bind, run_connectWithPrivateKey, run_wallet_connectWithPrivateKey in Hrun.
  cbv zeta in Hrun.
  destruct (length (WalletConnector.with_0x privateKey) =? 66)%nat eqn:Hlen;
    cbn [negb] in Hrun; [| discriminate Hrun].
  apply Nat.eqb_eq in Hlen.
  destruct (new_Wallet rt _ _) as [s | e]; [| discriminate Hrun].
  destruct (run E (getNetwork rt _) w) as [[[chainId | e] w1] tr1]; [| discriminate Hrun].
  destruct (run E (console_log rt _) w1) as [[[[] | e] w2] tr2]; [| discriminate Hrun].
  cbn [run] in Hrun. injection Hrun as <- <- <-.
  assert (Session.bound_to (RunnerSigner s)
            (EACCClient.initializeContracts (RunnerSigner s)
               (Session.with_wallet
                  (mkWalletConnector (Some (Ethers.JsonRpcProvider rpcUrl)) (Some s))
                  (mkEACCClient None None WalletConnector.new
                     (IPFSUtils.new (ipfsConfig config0)) config0)))) as Hb by now split.
  exists s. split; [exact Hlen |]. do 3 (split; [reflexivity |]). split; [exact Hb |].
  split; [split; [| reflexivity] |].
  - right. now exists (RunnerSigner s).
  - intros s' [= <-]. exact Hb.
Qed.

Lemma createWithPrivateKey_returns_a_connected_client_witness :
  let client :=
    EACCClient.initializeContracts
      (RunnerSigner (Sample.wallet_of Sample.example_key Sample.provider))
      (Session.with_wallet
         (mkWalletConnector (Some Sample.provider)
            (Some (Sample.wallet_of Sample.example_key Sample.provider)))
         Sample.fresh_client) in
  exists s,
    length (WalletConnector.with_0x Sample.example_key) = 66%nat
    /\ new_Wallet Sample.reachable_network (WalletConnector.with_0x Sample.example_key)
         (Ethers.JsonRpcProvider (js "https://arbitrum.drpc.org")) = Normal s
    /\ wallet client
       = mkWalletConnector (Some (Ethers.JsonRpcProvider (js "https://arbitrum.drpc.org")))
           (Some s)
    /\ config client = Sample.sample_config
    /\ Session.bound_to (RunnerSigner s) client
    /\ Session.wired client.
Proof.
  apply (createWithPrivateKey_returns_a_connected_client Sample.accepting_ledger
           Sample.reachable_network Sample.chain Sample.chain [] Sample.sample_config
           Sample.example_key (js "https://arbitrum.drpc.org")).
  vm_compute. reflexivity.
Defined.
